(** * Specification synchronisation with ClickUp: a shallow embedding

    This development embeds the parts of
    [scripts/clickup/sync-specs-to-clickup.ts] (the hierarchy sync engine,
    the status reconciler and the write-back of remote ids) and of
    [scripts/clickup/migrate-bidirectional-mapping.ts] (the client with the
    retry interceptor) that the specification talks about, and proves or
    refutes the specification's statements about them.

    Conventions.
    - A JavaScript string is its sequence of code units.  The model covers
      the texts whose code units are below 256, one [ascii] per code unit.
    - An object literal used as a lookup table is a list of its own
      properties; an index expression [table[key]] also sees the members
      every object inherits from [Object.prototype].
    - The remote service is an in-memory store that records what it is
      sent; console output is a message constructor per [console.*] call. *)

From Stdlib Require Import ZArith Ascii.
From stdpp Require Import gmap strings list fin_maps infinite sorting.

Local Open Scope Z_scope.

(** ** Strings *)

Module Js.

Definition code (c : ascii) : N := N_of_ascii c.

(** [String.prototype.toLowerCase] on code units below 256: the Latin
    capital letters and the capital letters of the Latin-1 supplement
    (U+00D7, the multiplication sign, is not a letter). *)
Definition lower_char (c : ascii) : ascii :=
  let n := code c in
  if ((65 <=? n) && (n <=? 90))%N
     || ((192 <=? n) && (n <=? 222) && negb (n =? 215))%N
  then ascii_of_N (n + 32) else c.

Fixpoint toLowerCase (s : string) : string :=
  match s with
  | EmptyString => EmptyString
  | String c s' => String (lower_char c) (toLowerCase s')
  end.

(** [s.startsWith(p)] *)
Definition startsWith (s p : string) : bool := String.prefix p s.

(** White space and line terminators, as matched by [\s] and removed by
    [trim], among the code units below 256. *)
Definition is_space (c : ascii) : bool :=
  let n := code c in
  ((9 <=? n) && (n <=? 13))%N || (n =? 32)%N || (n =? 160)%N.

Definition is_digit (c : ascii) : bool :=
  let n := code c in ((48 <=? n) && (n <=? 57))%N.

(** The value an index expression on an object literal evaluates to,
    when the literal maps keys to values of type [A]. *)
Inductive indexed (A : Type) : Type :=
| Val (a : A)
| Proto (k : string).
Global Arguments Val {A} a.
Global Arguments Proto {A} k.

Global Instance indexed_eq_dec {A} `{EqDecision A} : EqDecision (indexed A).
Proof. solve_decision. Defined.

(** Own property names of [Object.prototype]. *)
Definition object_prototype_keys : list string :=
  [ "constructor"; "__defineGetter__"; "__defineSetter__"; "hasOwnProperty";
    "__lookupGetter__"; "__lookupSetter__"; "isPrototypeOf";
    "propertyIsEnumerable"; "toString"; "valueOf"; "__proto__";
    "toLocaleString" ].

Fixpoint own_property {A} (o : list (string * A)) (k : string) : option A :=
  match o with
  | [] => None
  | (k', v) :: o' => if String.eqb k' k then Some v else own_property o' k
  end.

(** [o[k]]: [None] stands for [undefined]. *)
Definition get {A} (o : list (string * A)) (k : string) : option (indexed A) :=
  match own_property o k with
  | Some v => Some (Val v)
  | None => if bool_decide (k ∈ object_prototype_keys)
            then Some (Proto k) else None
  end.

(** [String(v)] for an inherited member: the prototype object itself for
    [__proto__], a native function otherwise. *)
Definition proto_to_string (k : string) : string :=
  if String.eqb k "__proto__" then "[object Object]"
  else "function " +:+ (if String.eqb k "constructor" then "Object" else k)
       +:+ "() { [native code] }".

(** The property key an index expression uses for a value that should be
    a string. *)
Definition to_property_key (v : indexed string) : string :=
  match v with
  | Val s => s
  | Proto k => proto_to_string k
  end.

(** [a > b] between results of numeric lookups: an inherited member
    converts to NaN, and every comparison with NaN is false. *)
Definition gt (a b : indexed Z) : bool :=
  match a, b with
  | Val x, Val y => x >? y
  | _, _ => false
  end.

End Js.

Import Js.

(** ** Status reconciler *)

(** [mapStatusToClickUp], lines 428-444. *)
Definition statusMap : list (string * string) :=
  [ ("draft", "DRAFT");
    ("planned", "PLANNED");
    ("in-progress", "IN PROGRESS");
    ("in_progress", "IN PROGRESS");
    ("completed", "COMPLETE");
    ("complete", "COMPLETE");
    ("blocked", "BLOCKED");
    ("review", "REVIEW");
    ("testing", "TESTING");
    ("cancelled", "CANCELLED");
    ("canceled", "CANCELLED");
    ("abandoned", "CANCELLED") ].

Definition mapStatusToClickUp (status : string) : indexed string :=
  match Js.get statusMap (toLowerCase status) with
  | Some (Val s) => if String.eqb s "" then Val "DRAFT" else Val s
  | Some (Proto k) => Proto k
  | None => Val "DRAFT"
  end.

(** [mapPriorityToClickUp], lines 416-426. *)
Definition priorityMap : list (string * Z) :=
  [ ("urgent", 1); ("critical", 1); ("high", 2); ("normal", 3);
    ("medium", 3); ("low", 4) ].

Definition mapPriorityToClickUp (priority : string) : indexed Z :=
  match Js.get priorityMap (toLowerCase priority) with
  | Some (Val n) => if n =? 0 then Val 3 else Val n
  | Some (Proto k) => Proto k
  | None => Val 3
  end.

(** [getStatusPriority], lines 450-462. *)
Definition statusPriority : list (string * Z) :=
  [ ("DRAFT", 1);
    ("PLANNED", 2);
    ("BLOCKED", 3);
    ("IN PROGRESS", 4);
    ("REVIEW", 5);
    ("TESTING", 6);
    ("COMPLETE", 7);
    ("CANCELLED", 0) ].

Definition getStatusPriority (status : indexed string) : indexed Z :=
  match Js.get statusPriority (to_property_key status) with
  | Some v => v
  | None => Val 0
  end.

(** [isStatusDowngrade], lines 469-480. *)
Definition isStatusDowngrade (currentStatus newStatus : indexed string) : bool :=
  if bool_decide (currentStatus = Val "CANCELLED")
     || bool_decide (newStatus = Val "CANCELLED")
  then false
  else
    let currentPriority := getStatusPriority currentStatus in
    let newPriority := getStatusPriority newStatus in
    Js.gt currentPriority newPriority.

(** The status vocabulary and its ordinal table as the specification
    gives them: DRAFT=1 up to COMPLETE=7, CANCELLED outside the order. *)
Inductive Status :=
| DRAFT | PLANNED | BLOCKED | IN_PROGRESS | REVIEW | TESTING | COMPLETE
| CANCELLED.

Definition status_name (s : Status) : string :=
  match s with
  | DRAFT => "DRAFT"
  | PLANNED => "PLANNED"
  | BLOCKED => "BLOCKED"
  | IN_PROGRESS => "IN PROGRESS"
  | REVIEW => "REVIEW"
  | TESTING => "TESTING"
  | COMPLETE => "COMPLETE"
  | CANCELLED => "CANCELLED"
  end.

Definition spec_ordinal (s : Status) : option Z :=
  match s with
  | DRAFT => Some 1
  | PLANNED => Some 2
  | BLOCKED => Some 3
  | IN_PROGRESS => Some 4
  | REVIEW => Some 5
  | TESTING => Some 6
  | COMPLETE => Some 7
  | CANCELLED => None
  end.

(** The specification's [isDowngrade]. *)
Definition spec_isDowngrade (current next : Status) : bool :=
  match spec_ordinal current, spec_ordinal next with
  | Some c, Some n => c >? n
  | _, _ => false
  end.

Definition vocabulary : list string :=
  [ "DRAFT"; "PLANNED"; "BLOCKED"; "IN PROGRESS"; "REVIEW"; "TESTING";
    "COMPLETE"; "CANCELLED" ].


(** ** Spec ids *)

Inductive SpecLevel := LEpic | LFeature | LTask | LSubtask | LExtension.

Record SpecIdParts := {
  epic : string;
  feature : option string;
  task : option string;
  subtask : option string;
  extension : option string;
  level : SpecLevel;
}.

(** The longest run of decimal digits at the start of [s], and the rest. *)
Fixpoint take_digits (s : string) : string * string :=
  match s with
  | EmptyString => (EmptyString, EmptyString)
  | String c s' =>
      if is_digit c
      then let '(ds, rest) := take_digits s' in (String c ds, rest)
      else (EmptyString, s)
  end.

(** One regular-expression segment [L\d+] at the start of [s]. *)
Definition segment (letter : ascii) (s : string) : option (string * string) :=
  match s with
  | String c s' =>
      if bool_decide (c = letter)
      then match take_digits s' with
           | (EmptyString, _) => None
           | (ds, rest) => Some (String c ds, rest)
           end
      else None
  | EmptyString => None
  end.

(** One optional group [(?:-(L\d+))?]. *)
Definition optional_segment (letter : ascii) (s : string)
  : option string * string :=
  match s with
  | String "-" s' =>
      match segment letter s' with
      | Some (seg, rest) => (Some seg, rest)
      | None => (None, s)
      end
  | _ => (None, s)
  end.

(** [parseSpecId], lines 118-153: the pattern
    [^(E\d+)(?:-(F\d+))?(?:-(T\d+))?(?:-(S\d+))?(?:-(X\d+))?$]. *)
Definition parseSpecId (specId : string) : option SpecIdParts :=
  match segment "E" specId with
  | None => None
  | Some (epic, r1) =>
      let '(feature, r2) := optional_segment "F" r1 in
      let '(task, r3) := optional_segment "T" r2 in
      let '(subtask, r4) := optional_segment "S" r3 in
      let '(extension, r5) := optional_segment "X" r4 in
      if String.eqb r5 "" then
        let level :=
          if bool_decide (is_Some extension) then LExtension
          else if bool_decide (is_Some subtask) then LSubtask
          else if bool_decide (is_Some task) then LTask
          else if bool_decide (is_Some feature) then LFeature
          else LEpic in
        Some {| epic := epic; feature := feature; task := task;
                subtask := subtask; extension := extension; level := level |}
      else None
  end.

(** [name.match(/^L\d+$/)] on a directory entry name. *)
Definition is_segment (letter : ascii) (name : string) : bool :=
  match segment letter name with
  | Some (_, EmptyString) => true
  | _ => false
  end.

(** ** Source documents and the file system *)

(** The header fields the engine reads ([SpecMetadata], lines 51-70); the
    other fields are never read by the embedded functions. *)
Record SpecMetadata := {
  clickup_task_id : option string;
  title : string;
  status : string;
  priority : string;
  tags : list string;
}.

Record SpecData := {
  metadata : SpecMetadata;
  markdownContent : string;
}.

Record Dirent := { d_name : string; d_isDirectory : bool }.

(** Directories with their entries, and regular files with their text,
    both keyed by path. *)
Record FileSystem := {
  fs_dirs : gmap string (list Dirent);
  fs_files : gmap string string;
}.

(** [path.join] of plain segments: empty segments disappear. *)
Definition path_join (segments : list string) : string :=
  String.concat "/" (filter (λ s, s ≠ EmptyString) segments).

Definition existsSync (fs : FileSystem) (p : string) : bool :=
  bool_decide (is_Some (fs_dirs fs !! p)) || bool_decide (is_Some (fs_files fs !! p)).

Definition writeFileSync (fs : FileSystem) (p content : string) : FileSystem :=
  {| fs_dirs := fs_dirs fs; fs_files := <[p := content]> (fs_files fs) |}.

(** [Array.prototype.sort] without a comparator, on strings: ascending
    code-unit order. *)
Definition sort_strings (l : list string) : list string :=
  merge_sort String.le l.

(** ** Remote entities *)

Record ClickUpFolder := { folder_id : string; folder_name : string }.
Record ClickUpList := { list_id : string; list_name : string }.

Record ClickUpTask := {
  task_id : string;
  task_name : string;
  task_description : string;
  task_status : string;
  task_priority : option Z;
  task_parent : option string;
  task_tags : list string;
}.

(** The body of a create-item call.  [start_date] and [time_estimate] are
    a date conversion and a floating-point product of header fields; they
    influence no decision and are left out. *)
Record TaskData := {
  td_name : string;
  td_description : string;
  td_status : indexed string;
  td_priority : indexed Z;
  td_tags : list string;
}.

(** The body of an update-item call; the engine only ever sends a name, a
    status or a parent. *)
Record UpdateData := {
  ud_name : option string;
  ud_status : option (indexed string);
  ud_parent : option string;
}.

Definition update_name (n : string) : UpdateData :=
  {| ud_name := Some n; ud_status := None; ud_parent := None |}.
Definition update_status (s : indexed string) : UpdateData :=
  {| ud_name := None; ud_status := Some s; ud_parent := None |}.
Definition update_parent (p : string) : UpdateData :=
  {| ud_name := None; ud_status := None; ud_parent := Some p |}.

(** [tasks.find((t) => t.name.startsWith(`${customId}:`)) || null] *)
Definition find_by_custom_id (tasks : list ClickUpTask) (customId : string)
  : option ClickUpTask :=
  List.find (λ t, startsWith (task_name t) (customId +:+ ":")) tasks.

(** ** The world the engine runs in *)

(** The remote workspace: folders by space, lists by folder, items by
    list, each in the order the service returns them.  An item created
    without a usable status gets [r_default_status]. *)
Record Remote := {
  r_folders : list (string * ClickUpFolder);
  r_lists : list (string * ClickUpList);
  r_tasks : list (string * ClickUpTask);
  r_default_status : string;
}.

Record World := { remote : Remote; fs : FileSystem }.

Inductive RemoteCall :=
| GetFolders (spaceId : string)
| CreateFolder (spaceId name : string)
| GetLists (folderId : string)
| CreateList (folderId name : string)
| GetTasks (listId : string)
| CreateTask (listId : string) (data : TaskData)
| UpdateTask (taskId : string) (upd : UpdateData).

(** The item levels, which share their messages up to indentation. *)
Inductive ItemLevel := ITask | ISubtask | IExtension.

(** One constructor per [console.log], [console.warn] or [console.error]
    call of the embedded functions. *)
Inductive Message :=
| MsgInvalidSpecId (specId : string)
| MsgSpecFileNotFound (path : string)
| MsgAlreadySet (existing specId : string)
| MsgNoIdLine (specId : string)
| MsgWroteTaskId (updated : bool) (clickupTaskId specId : string)
| MsgFailedToUpdate (specId : string)
| MsgEpicSpecNotFound (epicId : string)
| MsgRule (width : nat)
| MsgEpicHeader (epicId title : string)
| MsgFolderExists (name : string)
| MsgWouldCreateFolder (name : string)
| MsgCreatingFolder (name : string)
| MsgCreatedFolder (id : string)
| MsgSkippingEpic
| MsgFoundFeatures (n : nat)
| MsgFeatureSpecNotFound (featureId : string)
| MsgFeatureHeader (featureId title : string)
| MsgListExists (name : string)
| MsgWouldCreateList (name : string)
| MsgCreatingList (name : string)
| MsgCreatedList (id : string)
| MsgSkippingFeature
| MsgInvalidFeatureId (featureId : string)
| MsgNoTasks (featureId : string)
| MsgFoundTasks (n : nat)
| MsgSpecNotFound (lvl : ItemLevel) (id : string)
| MsgExists (lvl : ItemLevel) (id title : string)
| MsgWouldUpdateName (lvl : ItemLevel) (old new : string)
| MsgUpdatingName (lvl : ItemLevel) (old new : string)
| MsgNameUpdated (lvl : ItemLevel)
| MsgPromoting (n : nat)
| MsgSkippingDowngrade (lvl : ItemLevel) (current : string) (new : indexed string)
| MsgWouldUpdateStatus (lvl : ItemLevel) (current : string) (new : indexed string)
| MsgUpdatingStatus (lvl : ItemLevel) (current : string) (new : indexed string)
| MsgStatusUpdated (lvl : ItemLevel) (new : indexed string)
| MsgWouldCreate (lvl : ItemLevel) (id title : string)
| MsgCreating (lvl : ItemLevel) (id title : string)
| MsgTimeEstimate (lvl : ItemLevel) (id : string)
| MsgCreated (lvl : ItemLevel) (id : string)
| MsgFoundSubtasks (n : nat).

Inductive Event :=
| Call (c : RemoteCall)
| Console (m : Message)
| FileWrite (path content : string).

Global Instance TaskData_eq_dec : EqDecision TaskData.
Proof. solve_decision. Defined.
Global Instance UpdateData_eq_dec : EqDecision UpdateData.
Proof. solve_decision. Defined.
Global Instance RemoteCall_eq_dec : EqDecision RemoteCall.
Proof. solve_decision. Defined.
Global Instance ItemLevel_eq_dec : EqDecision ItemLevel.
Proof. solve_decision. Defined.
Global Instance Message_eq_dec : EqDecision Message.
Proof. solve_decision. Defined.
Global Instance Event_eq_dec : EqDecision Event.
Proof. solve_decision. Defined.

Inductive Error :=
| ENOENT (path : string)
| ENOTDIR (path : string).

Inductive Result (A : Type) :=
| Ok (a : A)
| Throw (e : Error).
Global Arguments Ok {A} a.
Global Arguments Throw {A} e.

(** A computation reads and changes the world, emits events in order,
    and returns or throws. *)
Definition M (A : Type) : Type := World → Result A * World * list Event.

Definition ret {A} (a : A) : M A := λ w, (Ok a, w, []).

Definition bind {A B} (m : M A) (k : A → M B) : M B :=
  λ w, match m w with
       | (Ok a, w1, es1) =>
           match k a w1 with
           | (r, w2, es2) => (r, w2, es1 ++ es2)
           end
       | (Throw e, w1, es1) => (Throw e, w1, es1)
       end.

Definition throw {A} (e : Error) : M A := λ w, (Throw e, w, []).

Definition emit (e : Event) : M unit := λ w, (Ok tt, w, [e]).

Definition console (m : Message) : M unit := emit (Console m).

Definition get_world : M World := λ w, (Ok w, w, []).

Definition put_remote (r : Remote) : M unit :=
  λ w, (Ok tt, {| remote := r; fs := fs w |}, []).

Definition put_fs (f : FileSystem) : M unit :=
  λ w, (Ok tt, {| remote := remote w; fs := f |}, []).

Declare Scope engine_scope.
Delimit Scope engine_scope with engine.
Bind Scope engine_scope with M.
Notation "'let!' x ':=' m 'in' k" := (bind m (λ x, k))
  (at level 10, x name, m at level 100, k at level 200) : engine_scope.
Notation "m '>>' k" := (bind m (λ _, k))
  (at level 100, k at level 200, right associativity) : engine_scope.
Local Open Scope engine_scope.

(** [for (const x of xs) { await body(x); }] *)
Fixpoint for_each {A} (xs : list A) (body : A → M unit) : M unit :=
  match xs with
  | [] => ret tt
  | x :: xs' => body x >> for_each xs' body
  end.

(** [if (c) { m }] *)
Definition when (c : bool) (m : M unit) : M unit := if c then m else ret tt.

(** ** Write-back of the remote id *)

(** [s] without its prefix [p], when it starts with it. *)
Fixpoint strip_prefix (p s : string) : option string :=
  match p with
  | EmptyString => Some s
  | String a p' =>
      match s with
      | String b s' => if bool_decide (a = b) then strip_prefix p' s' else None
      | EmptyString => None
      end
  end.

Fixpoint skip_spaces (s : string) : string :=
  match s with
  | String c s' => if is_space c then skip_spaces s' else s
  | EmptyString => EmptyString
  end.

(** The longest run of characters other than the single quote. *)
Fixpoint take_unquoted (s : string) : string * string :=
  match s with
  | EmptyString => (EmptyString, EmptyString)
  | String c s' =>
      if bool_decide (c = "'"%char) then (EmptyString, s)
      else let '(run, rest) := take_unquoted s' in (String c run, rest)
  end.

(** The pattern [clickup_task_id:\s*'([^']+)'] anchored at the start of
    [s]; the result is the captured group.  Both repetitions are followed
    by a character outside their class, so the greedy match is the only
    one. *)
Definition match_existing_id_at (s : string) : option string :=
  match strip_prefix "clickup_task_id:" s with
  | None => None
  | Some r =>
      match skip_spaces r with
      | String c r' =>
          if bool_decide (c = "'"%char) then
            let '(captured, rest) := take_unquoted r' in
            match captured, rest with
            | String _ _, String c' _ =>
                if bool_decide (c' = "'"%char) then Some captured else None
            | _, _ => None
            end
          else None
      | EmptyString => None
      end
  end.

(** [content.match(/clickup_task_id:\s*'([^']+)'/)]: the leftmost match. *)
Fixpoint match_existing_id (content : string) : option string :=
  match match_existing_id_at content with
  | Some captured => Some captured
  | None =>
      match content with
      | EmptyString => None
      | String _ rest => match_existing_id rest
      end
  end.

Fixpoint trim_end (s : string) : string :=
  match s with
  | EmptyString => EmptyString
  | String c s' =>
      match trim_end s' with
      | EmptyString => if is_space c then EmptyString else String c EmptyString
      | r => String c r
      end
  end.

(** [s.trim()] *)
Definition trim (s : string) : string := trim_end (skip_spaces s).

(** [content.split('\n')] *)
Fixpoint split_lines (s : string) : list string :=
  match s with
  | EmptyString => [EmptyString]
  | String c s' =>
      if bool_decide (c = "010"%char) then EmptyString :: split_lines s'
      else match split_lines s' with
           | l :: ls => String c l :: ls
           | [] => [String c EmptyString]
           end
  end.

(** [lines.join('\n')] *)
Fixpoint join_lines (lines : list string) : string :=
  match lines with
  | [] => EmptyString
  | [l] => l
  | l :: ls => l +:+ String "010" (join_lines ls)
  end.

(** [line.match(/^clickup_task_id:/)] *)
Definition is_task_id_line (line : string) : bool :=
  startsWith line "clickup_task_id:".

(** [line.match(/^id:\s+/)] *)
Definition is_id_line (line : string) : bool :=
  match strip_prefix "id:" line with
  | Some (String c _) => is_space c
  | _ => false
  end.

Definition task_id_line (clickupTaskId : string) : string :=
  "clickup_task_id: '" +:+ clickupTaskId +:+ "'".

(** [lines.splice(i, 0, line)] *)
Definition splice_in {A} (i : nat) (x : A) (l : list A) : list A :=
  take i l ++ x :: drop i l.

Definition spec_file_path (specId : string) (parts : SpecIdParts) : string :=
  path_join ("specs" :: epic parts
             :: option_list (feature parts) ++ option_list (task parts)
             ++ option_list (subtask parts) ++ option_list (extension parts)
             ++ [specId +:+ ".spec.md"]).

Definition write_file (p content : string) : M unit :=
  λ w, (Ok tt, {| remote := remote w; fs := writeFileSync (fs w) p content |},
        [FileWrite p content]).

(** The check of lines 535-536: the captured group when it is non-empty
    and not blank. *)
Definition existing_task_id (content : string) : option string :=
  match match_existing_id content with
  | Some existing =>
      if negb (String.eqb existing "") && negb (String.eqb (trim existing) "")
      then Some existing else None
  | None => None
  end.

(** Lines 534-580 of [updateSpecFileWithTaskId]: what happens once the
    text of the document is read. *)
Definition rewrite_document (specId clickupTaskId specFilePath content : string)
  : M bool :=
  match existing_task_id content with
  | Some existing => console (MsgAlreadySet existing specId) >> ret false
  | None =>
      let lines := split_lines content in
      match list_find is_task_id_line lines with
      | Some (i, _) =>
          let lines := <[i := task_id_line clickupTaskId]> lines in
          write_file specFilePath (join_lines lines) >>
          console (MsgWroteTaskId true clickupTaskId specId) >>
          ret true
      | None =>
          match list_find is_id_line lines with
          | Some (i, _) =>
              let insertIndex := S i in
              let lines :=
                splice_in insertIndex (task_id_line clickupTaskId) lines in
              write_file specFilePath (join_lines lines) >>
              console (MsgWroteTaskId false clickupTaskId specId) >>
              ret true
          | None => console (MsgNoIdLine specId) >> ret false
          end
      end
  end.

(** [updateSpecFileWithTaskId], lines 509-585.  Reading a path that
    exists but is no regular file throws inside the [try] block. *)
Definition updateSpecFileWithTaskId (specId clickupTaskId : string) : M bool :=
  match parseSpecId specId with
  | None => console (MsgInvalidSpecId specId) >> ret false
  | Some parts =>
      let specFilePath := spec_file_path specId parts in
      let! w := get_world in
      if negb (existsSync (fs w) specFilePath) then
        console (MsgSpecFileNotFound specFilePath) >> ret false
      else
        match fs_files (fs w) !! specFilePath with
        | None => console (MsgFailedToUpdate specId) >> ret false
        | Some content =>
            rewrite_document specId clickupTaskId specFilePath content
        end
  end.

(** ** The remote client, lines 159-330

    Every method is one remote call; the model answers it from the store
    and records it in the trace.  Ids of new entities are fresh. *)

Definition folders_of (r : Remote) (spaceId : string) : list ClickUpFolder :=
  snd <$> filter (λ p, p.1 = spaceId) (r_folders r).

Definition lists_of (r : Remote) (folderId : string) : list ClickUpList :=
  snd <$> filter (λ p, p.1 = folderId) (r_lists r).

Definition tasks_of (r : Remote) (listId : string) : list ClickUpTask :=
  snd <$> filter (λ p, p.1 = listId) (r_tasks r).

Definition getFolders (spaceId : string) : M (list ClickUpFolder) :=
  λ w, (Ok (folders_of (remote w) spaceId), w, [Call (GetFolders spaceId)]).

Definition findFolder (spaceId folderName : string) : M (option ClickUpFolder) :=
  let! folders := getFolders spaceId in
  ret (List.find (λ f, String.eqb (folder_name f) folderName) folders).

Definition createFolder (spaceId name : string) : M ClickUpFolder :=
  λ w,
    let r := remote w in
    let f := {| folder_id := fresh ((folder_id ∘ snd) <$> r_folders r);
                folder_name := name |} in
    (Ok f,
     {| remote := {| r_folders := r_folders r ++ [(spaceId, f)];
                     r_lists := r_lists r;
                     r_tasks := r_tasks r;
                     r_default_status := r_default_status r |};
        fs := fs w |},
     [Call (CreateFolder spaceId name)]).

Definition getLists (folderId : string) : M (list ClickUpList) :=
  λ w, (Ok (lists_of (remote w) folderId), w, [Call (GetLists folderId)]).

Definition createList (folderId name : string) : M ClickUpList :=
  λ w,
    let r := remote w in
    let l := {| list_id := fresh ((list_id ∘ snd) <$> r_lists r);
                list_name := name |} in
    (Ok l,
     {| remote := {| r_folders := r_folders r;
                     r_lists := r_lists r ++ [(folderId, l)];
                     r_tasks := r_tasks r;
                     r_default_status := r_default_status r |};
        fs := fs w |},
     [Call (CreateList folderId name)]).

Definition findList (folderId listName : string) : M (option ClickUpList) :=
  let! lists := getLists folderId in
  ret (List.find (λ l, String.eqb (list_name l) listName) lists).

(** The item the store keeps for a create-item body.  A status or
    priority that is no string or number does not survive serialisation. *)
Definition new_task (id : string) (default_status : string) (data : TaskData)
  : ClickUpTask :=
  {| task_id := id;
     task_name := td_name data;
     task_description := td_description data;
     task_status := match td_status data with
                    | Val s => s
                    | Proto _ => default_status
                    end;
     task_priority := match td_priority data with
                      | Val n => Some n
                      | Proto _ => None
                      end;
     task_parent := None;
     task_tags := td_tags data |}.

Definition createTask (listId : string) (taskData : TaskData) : M ClickUpTask :=
  λ w,
    let r := remote w in
    let t := new_task (fresh ((task_id ∘ snd) <$> r_tasks r))
                      (r_default_status r) taskData in
    (Ok t,
     {| remote := {| r_folders := r_folders r;
                     r_lists := r_lists r;
                     r_tasks := r_tasks r ++ [(listId, t)];
                     r_default_status := r_default_status r |};
        fs := fs w |},
     [Call (CreateTask listId taskData)]).

Definition apply_update (upd : UpdateData) (t : ClickUpTask) : ClickUpTask :=
  {| task_id := task_id t;
     task_name := default (task_name t) (ud_name upd);
     task_description := task_description t;
     task_status := match ud_status upd with
                    | Some (Val s) => s
                    | _ => task_status t
                    end;
     task_priority := task_priority t;
     task_parent := match ud_parent upd with
                    | Some p => Some p
                    | None => task_parent t
                    end;
     task_tags := task_tags t |}.

Definition update_in (taskId : string) (upd : UpdateData)
    (p : string * ClickUpTask) : string * ClickUpTask :=
  if String.eqb (task_id p.2) taskId then (p.1, apply_update upd p.2) else p.

(** The response of an update is never read by the engine. *)
Definition updateTask (taskId : string) (updateData : UpdateData) : M unit :=
  λ w,
    let r := remote w in
    (Ok tt,
     {| remote := {| r_folders := r_folders r;
                     r_lists := r_lists r;
                     r_tasks := update_in taskId updateData <$> r_tasks r;
                     r_default_status := r_default_status r |};
        fs := fs w |},
     [Call (UpdateTask taskId updateData)]).

Definition getTasks (listId : string) : M (list ClickUpTask) :=
  λ w, (Ok (tasks_of (remote w) listId), w, [Call (GetTasks listId)]).

Definition findTaskByCustomId (listId customId : string) : M (option ClickUpTask) :=
  let! tasks := getTasks listId in
  ret (find_by_custom_id tasks customId).

Definition findSubtaskByCustomId (listId customId : string) : M (option ClickUpTask) :=
  let! tasks := getTasks listId in
  ret (find_by_custom_id tasks customId).

(** ** The hierarchy sync engine, lines 676-1134 *)

(** [readdirSync(dir, { withFileTypes: true })
      .filter((entry) => entry.isDirectory() && entry.name.match(/^L\d+$/))
      .map((entry) => `${parentId}-${entry.name}`).sort()] *)
Definition child_ids (letter : ascii) (parentId : string) (entries : list Dirent)
  : list string :=
  sort_strings
    ((λ entry, parentId +:+ "-" +:+ d_name entry)
       <$> filter (λ entry, d_isDirectory entry && is_segment letter (d_name entry))
                  entries).

(** [fs.readdirSync(dir)], which throws on a missing directory. *)
Definition readdirSync (dir : string) : M (list Dirent) :=
  λ w, match fs_dirs (fs w) !! dir with
       | Some entries => (Ok entries, w, [])
       | None =>
           (Throw (if existsSync (fs w) dir then ENOTDIR dir else ENOENT dir),
            w, [])
       end.

(** [fs.existsSync(dir) ? fs.readdirSync(dir)... : []] *)
Definition child_ids_if_exists (letter : ascii) (parentId dir : string)
  : M (list string) :=
  let! w := get_world in
  if existsSync (fs w) dir
  then let! entries := readdirSync dir in ret (child_ids letter parentId entries)
  else ret [].

Definition item_name (id : string) (spec : SpecMetadata) : string :=
  id +:+ ": " +:+ title spec.

Definition task_data (id : string) (data : SpecData) : TaskData :=
  {| td_name := item_name id (metadata data);
     td_description := markdownContent data;
     td_status := mapStatusToClickUp (status (metadata data));
     td_priority := mapPriorityToClickUp (priority (metadata data));
     td_tags := tags (metadata data) |}.

(** The name check, lines 829-838, 982-991 and 1071-1080. *)
Definition reconcile_name (lvl : ItemLevel) (dryRun : bool)
    (existing : ClickUpTask) (expectedName : string) : M unit :=
  when (negb (String.eqb (task_name existing) expectedName))
    (if dryRun then
       console (MsgWouldUpdateName lvl (task_name existing) expectedName)
     else
       console (MsgUpdatingName lvl (task_name existing) expectedName) >>
       updateTask (task_id existing) (update_name expectedName) >>
       console (MsgNameUpdated lvl)).

(** The status update behind the downgrade guard, lines 888-904, 997-1012
    and 1086-1101. *)
Definition reconcile_status (lvl : ItemLevel) (dryRun : bool)
    (existing : ClickUpTask) (newStatus : indexed string) : M unit :=
  let currentStatus := task_status existing in
  when (negb (bool_decide (Val currentStatus = newStatus)))
    (if isStatusDowngrade (Val currentStatus) newStatus then
       console (MsgSkippingDowngrade lvl currentStatus newStatus)
     else if dryRun then
       console (MsgWouldUpdateStatus lvl currentStatus newStatus)
     else
       console (MsgUpdatingStatus lvl currentStatus newStatus) >>
       updateTask (task_id existing) (update_status newStatus) >>
       console (MsgStatusUpdated lvl newStatus)).

(** [syncSubtask] (lines 958-1045) and [syncExtension] (lines 1047-1134)
    are the same text up to the labels of their messages. *)
Definition sync_child (lvl : ItemLevel) (listId parentId childId : string)
    (allSpecs : gmap string SpecData) (dryRun : bool) : M unit :=
  match allSpecs !! childId with
  | None => console (MsgSpecNotFound lvl childId)
  | Some childData =>
      let childSpec := metadata childData in
      let! existing := findSubtaskByCustomId listId childId in
      match existing with
      | Some existing =>
          console (MsgExists lvl childId (title childSpec)) >>
          reconcile_name lvl dryRun existing (item_name childId childSpec) >>
          reconcile_status lvl dryRun existing
            (mapStatusToClickUp (status childSpec))
      | None =>
          if dryRun then console (MsgWouldCreate lvl childId (title childSpec))
          else
            console (MsgCreating lvl childId (title childSpec)) >>
            let! child := createTask listId (task_data childId childData) in
            console (MsgTimeEstimate lvl childId) >>
            updateTask (task_id child) (update_parent parentId) >>
            console (MsgCreated lvl (task_id child)) >>
            let! _ := updateSpecFileWithTaskId childId (task_id child) in
            ret tt
      end
  end.

Definition syncSubtask (listId parentTaskId subtaskId : string)
    (allSpecs : gmap string SpecData) (dryRun : bool) : M unit :=
  sync_child ISubtask listId parentTaskId subtaskId allSpecs dryRun.

Definition syncExtension (listId parentSubtaskId extensionId : string)
    (allSpecs : gmap string SpecData) (dryRun : bool) : M unit :=
  sync_child IExtension listId parentSubtaskId extensionId allSpecs dryRun.

(** The subtask directories of a task, lines 841-858 and 929-944. *)
Definition subtask_dirs (taskId : string) : M (list string) :=
  match parseSpecId taskId with
  | Some parts =>
      match task parts with
      | Some t =>
          child_ids_if_exists "S" taskId
            (path_join ["specs"; epic parts; default "" (feature parts); t])
      | None => ret []
      end
  | None => ret []
  end.

(** [subtaskDirs.every(...)], lines 874-878. *)
Definition allChildrenComplete (allSpecs : gmap string SpecData)
    (subtaskDirs : list string) : bool :=
  forallb (λ subtaskId,
             match allSpecs !! subtaskId with
             | None => false
             | Some subtaskData =>
                 bool_decide (mapStatusToClickUp (status (metadata subtaskData))
                              = Val "COMPLETE")
             end) subtaskDirs.

(** The target status of an existing task, lines 870-886: its own mapped
    status, or COMPLETE when the promotion rule fires. *)
Definition promotes (allSpecs : gmap string SpecData)
    (subtaskDirs : list string) (newStatus : indexed string) : bool :=
  (0 <? length subtaskDirs)%nat
  && allChildrenComplete allSpecs subtaskDirs
  && negb (bool_decide (newStatus = Val "COMPLETE")).

Definition target_status (allSpecs : gmap string SpecData)
    (subtaskDirs : list string) (newStatus : indexed string) : indexed string :=
  if promotes allSpecs subtaskDirs newStatus then Val "COMPLETE" else newStatus.

(** [syncTask], lines 806-956. *)
Definition syncTask (listId taskId : string)
    (allSpecs : gmap string SpecData) (dryRun : bool) : M unit :=
  match allSpecs !! taskId with
  | None => console (MsgSpecNotFound ITask taskId)
  | Some taskData =>
      let taskSpec := metadata taskData in
      let! existingTask := findTaskByCustomId listId taskId in
      match existingTask with
      | Some existingTask =>
          console (MsgExists ITask taskId (title taskSpec)) >>
          reconcile_name ITask dryRun existingTask (item_name taskId taskSpec) >>
          let! subtaskDirs := subtask_dirs taskId in
          for_each subtaskDirs
            (λ subtaskId,
               syncSubtask listId (task_id existingTask) subtaskId allSpecs dryRun) >>
          let newStatus := mapStatusToClickUp (status taskSpec) in
          when (promotes allSpecs subtaskDirs newStatus)
            (console (MsgPromoting (length subtaskDirs))) >>
          reconcile_status ITask dryRun existingTask
            (target_status allSpecs subtaskDirs newStatus)
      | None =>
          if dryRun then console (MsgWouldCreate ITask taskId (title taskSpec))
          else
            console (MsgCreating ITask taskId (title taskSpec)) >>
            let! task := createTask listId (task_data taskId taskData) in
            console (MsgTimeEstimate ITask taskId) >>
            console (MsgCreated ITask (task_id task)) >>
            let! _ := updateSpecFileWithTaskId taskId (task_id task) in
            let! subtaskDirs := subtask_dirs taskId in
            when (0 <? length subtaskDirs)%nat
              (console (MsgFoundSubtasks (length subtaskDirs)) >>
               for_each subtaskDirs
                 (λ subtaskId,
                    syncSubtask listId (task_id task) subtaskId allSpecs dryRun))
      end
  end.

(** The task directories of a feature and the loop over them, lines
    770-803 of [syncFeature]. *)
Definition feature_tasks (listId featureId : string)
    (allSpecs : gmap string SpecData) (dryRun : bool) : M unit :=
  match parseSpecId featureId with
  | Some {| epic := e; feature := Some f |} =>
      let featureDir := path_join ["specs"; e; f] in
      let! taskDirs := child_ids_if_exists "T" featureId featureDir in
      if (length taskDirs =? 0)%nat then console (MsgNoTasks featureId)
      else
        console (MsgFoundTasks (length taskDirs)) >>
        for_each taskDirs
          (λ taskId, syncTask listId taskId allSpecs dryRun)
  | _ => console (MsgInvalidFeatureId featureId)
  end.

(** [syncFeature], lines 734-804. *)
Definition syncFeature (folderId featureId : string)
    (allSpecs : gmap string SpecData) (dryRun : bool) : M unit :=
  match allSpecs !! featureId with
  | None => console (MsgFeatureSpecNotFound featureId)
  | Some featureData =>
      let featureSpec := metadata featureData in
      console (MsgRule 60) >>
      console (MsgFeatureHeader featureId (title featureSpec)) >>
      console (MsgRule 60) >>
      let listName := featureId +:+ ": " +:+ title featureSpec in
      let! found := findList folderId listName in
      let! list :=
        match found with
        | Some list => console (MsgListExists listName) >> ret (Some list)
        | None =>
            if dryRun then console (MsgWouldCreateList listName) >> ret None
            else
              console (MsgCreatingList listName) >>
              let! list := createList folderId listName in
              console (MsgCreatedList (list_id list)) >>
              ret (Some list)
        end in
      match list with
      | None => console MsgSkippingFeature
      | Some list => feature_tasks (list_id list) featureId allSpecs dryRun
      end
  end.

(** [syncEpic], lines 676-732. *)
Definition syncEpic (spaceId epicId : string)
    (allSpecs : gmap string SpecData) (dryRun : bool) : M unit :=
  match allSpecs !! epicId with
  | None => console (MsgEpicSpecNotFound epicId)
  | Some epicData =>
      let epicSpec := metadata epicData in
      console (MsgRule 70) >>
      console (MsgEpicHeader epicId (title epicSpec)) >>
      console (MsgRule 70) >>
      let folderName := epicId +:+ " - " +:+ title epicSpec in
      let! found := findFolder spaceId folderName in
      let! folder :=
        match found with
        | Some folder => console (MsgFolderExists folderName) >> ret (Some folder)
        | None =>
            if dryRun then console (MsgWouldCreateFolder folderName) >> ret None
            else
              console (MsgCreatingFolder folderName) >>
              let! folder := createFolder spaceId folderName in
              console (MsgCreatedFolder (folder_id folder)) >>
              ret (Some folder)
        end in
      match folder with
      | None => console MsgSkippingEpic
      | Some folder =>
          let epicDir := path_join ["specs"; epicId] in
          let! entries := readdirSync epicDir in
          let featureDirs := child_ids "F" epicId entries in
          console (MsgFoundFeatures (length featureDirs)) >>
          for_each featureDirs
            (λ featureId, syncFeature (folder_id folder) featureId allSpecs dryRun)
      end
  end.

(** ** The two remote clients and throttling

    [ClickUpClient] of the sync script (lines 159-186) installs a request
    interceptor that spaces the calls.  [ClickUpClient] of the migration
    script installs the same interceptor with a longer interval and, in
    addition, a response interceptor that retries a throttled call.

    The server is a script: the outcome and duration of each attempt, in
    order.  Time is a counter of milliseconds; numbers are integers. *)

Module Client.

Inductive Response :=
| Success (data : string)
| HttpError (status : Z) (retry_after : option string)
| NetworkError.

Record Attempt := { latency : Z; outcome : Response }.

Record Clock := { now : Z; lastRequestTime : Z }.

Inductive ClientEvent :=
| Sleep (ms : option Z)
| Send
| LogRateLimit (retryAfter : option Z).

Record Config := {
  minRequestInterval : Z;
  retry_interceptor : bool;
}.

(** The client of [sync-specs-to-clickup.ts]. *)
Definition sync_client : Config :=
  {| minRequestInterval := 200; retry_interceptor := false |}.

(** The client of [migrate-bidirectional-mapping.ts]. *)
Definition migration_client : Config :=
  {| minRequestInterval := 1000; retry_interceptor := true |}.

Inductive Outcome :=
| Resolved (data : string)
| Rejected (error : Response)
| Pending.

(** The delay a timer really uses: a delay that is no number, below 1 or
    above 2^31-1 becomes 1. *)
Definition timer_delay (ms : option Z) : Z :=
  match ms with
  | Some n => if (n <? 1) || (n >? 2147483647) then 1 else n
  | None => 1
  end.

Definition sleep (ms : option Z) (c : Clock) : Clock :=
  {| now := now c + timer_delay ms; lastRequestTime := lastRequestTime c |}.

Fixpoint decimal_value (acc : Z) (digits : string) : Z :=
  match digits with
  | EmptyString => acc
  | String d ds => decimal_value (10 * acc + (Z.of_N (code d) - 48)) ds
  end.

(** [parseInt(s, 10)]; [None] is NaN. *)
Definition parseInt (s : string) : option Z :=
  let s := skip_spaces s in
  let '(sign, s) :=
    match s with
    | String "-" r => (-1, r)
    | String "+" r => (1, r)
    | _ => (1, s)
    end in
  match take_digits s with
  | (EmptyString, _) => None
  | (ds, _) => Some (sign * decimal_value 0 ds)
  end.

(** The request interceptor, lines 174-185. *)
Definition rate_limit (cfg : Config) (c : Clock) : Clock * list ClientEvent :=
  let timeSinceLastRequest := now c - lastRequestTime c in
  let '(c, es) :=
    if timeSinceLastRequest <? minRequestInterval cfg then
      let waitTime := minRequestInterval cfg - timeSinceLastRequest in
      (sleep (Some waitTime) c, [Sleep (Some waitTime)])
    else (c, []) in
  ({| now := now c; lastRequestTime := now c |}, es).

(** [parseInt(error.response.headers['retry-after'] || '60', 10)] *)
Definition retry_after_seconds (header : option string) : option Z :=
  parseInt (match header with
            | Some h => if String.eqb h "" then "60" else h
            | None => "60"
            end).

(** One call through the client: the request interceptor, the attempt,
    and the response interceptor when the client has one.  [retry] is
    the [_retry] flag of the request's config. *)
Fixpoint request (cfg : Config) (retry : bool) (server : list Attempt)
    (c : Clock) : Outcome * Clock * list ClientEvent * list Attempt :=
  let '(c, es) := rate_limit cfg c in
  match server with
  | [] => (Pending, c, es ++ [Send], [])
  | a :: server =>
      let c := {| now := now c + latency a;
                  lastRequestTime := lastRequestTime c |} in
      match outcome a with
      | Success data => (Resolved data, c, es ++ [Send], server)
      | HttpError status header =>
          if retry_interceptor cfg && (status =? 429) && negb retry then
            let retryAfter := retry_after_seconds header in
            let waitTime := (λ s, s * 1000) <$> retryAfter in
            let c := sleep waitTime c in
            let '(r, c, es', server) := request cfg true server c in
            (r, c, es ++ [Send; LogRateLimit retryAfter; Sleep waitTime] ++ es',
             server)
          else (Rejected (HttpError status header), c, es ++ [Send], server)
      | NetworkError => (Rejected NetworkError, c, es ++ [Send], server)
      end
  end.

Global Instance ClientEvent_eq_dec : EqDecision ClientEvent.
Proof. solve_decision. Defined.

(** What the caller sees when an attempt's response is final. *)
Definition final (r : Response) : Outcome :=
  match r with
  | Success data => Resolved data
  | e => Rejected e
  end.

(** Whether the response interceptor retries: lines 286-288 of the
    migration script. *)
Definition retries (cfg : Config) (retry : bool) (r : Response) : bool :=
  match r with
  | HttpError status _ => retry_interceptor cfg && (status =? 429) && negb retry
  | _ => false
  end.

(** A throttled attempt followed by a successful one. *)
Definition throttled_then_ok : list Attempt :=
  [ {| latency := 30; outcome := HttpError 429 (Some "2") |};
    {| latency := 20; outcome := Success "ok" |} ].

Definition clock0 : Clock := {| now := 5000; lastRequestTime := 0 |}.

(** The number of attempts a call made. *)
Definition sends (es : list ClientEvent) : nat :=
  length (filter (λ e, e = Send) es).

End Client.

(** ** Concrete data for the examples *)

Definition item (id name status : string) : ClickUpTask :=
  {| task_id := id; task_name := name; task_description := "";
     task_status := status; task_priority := None; task_parent := None;
     task_tags := [] |}.

Definition empty_remote : Remote :=
  {| r_folders := []; r_lists := []; r_tasks := []; r_default_status := "to do" |}.

Definition empty_fs : FileSystem := {| fs_dirs := ∅; fs_files := ∅ |}.

(** A list holding the items "T10: Bar" and "T1: Foo". *)
Definition t1_foo : ClickUpTask := item "a" "T1: Foo" "DRAFT".
Definition t10_bar : ClickUpTask := item "b" "T10: Bar" "DRAFT".

Definition world_t1_t10 : World :=
  {| remote := {| r_folders := []; r_lists := [];
                  r_tasks := [("L", t10_bar); ("L", t1_foo)];
                  r_default_status := "to do" |};
     fs := empty_fs |}.

(** Whether a text contains a line feed. *)
Fixpoint has_newline (s : string) : bool :=
  match s with
  | EmptyString => false
  | String c s' => bool_decide (c = "010"%char) || has_newline s'
  end.

Definition is_file_write (e : Event) : bool :=
  match e with
  | FileWrite _ _ => true
  | _ => false
  end.

Fixpoint is_blank (s : string) : bool :=
  match s with
  | EmptyString => true
  | String c s' => is_space c && is_blank s'
  end.

Fixpoint has_quote (s : string) : bool :=
  match s with
  | EmptyString => false
  | String c s' => bool_decide (c = "'"%char) || has_quote s'
  end.

(** A remote id that the write-back can store and find again: not blank,
    and free of single quotes and line feeds. *)
Definition writable_id (id : string) : bool :=
  negb (is_blank id) && negb (has_quote id) && negb (has_newline id).

(** A document that is already linked, and one that quotes an id in its
    body only. *)
Definition linked_document : string :=
  "---" +:+ String "010" ("id: E1" +:+ String "010"
    ("clickup_task_id: 'OLD'" +:+ String "010" ("---" +:+ String "010" "body"))).

Definition quoting_document : string :=
  "---" +:+ String "010" ("id: E1" +:+ String "010"
    ("---" +:+ String "010" "Set clickup_task_id: 'abc' in the header.")).

Definition plain_document : string :=
  "---" +:+ String "010" ("id: E1" +:+ String "010"
    ("title: 'Epic'" +:+ String "010" ("---" +:+ String "010" "body"))).

Definition world_with_document (content : string) : World :=
  {| remote := empty_remote;
     fs := {| fs_dirs := {[ "specs/E1" := [ {| d_name := "E1.spec.md";
                                                d_isDirectory := false |} ] ]};
              fs_files := {[ "specs/E1/E1.spec.md" := content ]} |} |}.

(** The text of the file of spec [specId] in a world, if any. *)
Definition document_of (w : World) (specId : string) : option string :=
  match parseSpecId specId with
  | Some parts => fs_files (fs w) !! spec_file_path specId parts
  | None => None
  end.

(** The text of some lines when each is followed, or preceded, by a line
    feed. *)
Fixpoint text_before (lines : list string) : string :=
  match lines with
  | [] => EmptyString
  | l :: ls => l +:+ String "010" (text_before ls)
  end.

Fixpoint text_after (lines : list string) : string :=
  match lines with
  | [] => EmptyString
  | l :: ls => String "010" (l +:+ text_after ls)
  end.

(** ** Observations on a run *)

(** The calls and writes that change the remote workspace or the files. *)
Definition is_mutation (e : Event) : bool :=
  match e with
  | Call (CreateFolder _ _) | Call (CreateList _ _) | Call (CreateTask _ _)
  | Call (UpdateTask _ _) => true
  | FileWrite _ _ => true
  | _ => false
  end.

Definition mutations (es : list Event) : list Event := List.filter is_mutation es.

(** A create or update action, as far as a dry-run message describes it. *)
Inductive Action :=
| ACreateFolder (name : string)
| ACreateList (name : string)
| ACreateItem (name : string)
| AUpdateName (name : string)
| AUpdateStatus (status : indexed string)
| AUpdateParent (parent : string).

(** The action a dry-run message announces. *)
Definition planned (e : Event) : list Action :=
  match e with
  | Console (MsgWouldCreateFolder name) => [ACreateFolder name]
  | Console (MsgWouldCreateList name) => [ACreateList name]
  | Console (MsgWouldCreate _ id title) => [ACreateItem (id +:+ ": " +:+ title)]
  | Console (MsgWouldUpdateName _ _ new) => [AUpdateName new]
  | Console (MsgWouldUpdateStatus _ _ new) => [AUpdateStatus new]
  | _ => []
  end.

(** The actions a remote call performs. *)
Definition performed (e : Event) : list Action :=
  match e with
  | Call (CreateFolder _ name) => [ACreateFolder name]
  | Call (CreateList _ name) => [ACreateList name]
  | Call (CreateTask _ data) => [ACreateItem (td_name data)]
  | Call (UpdateTask _ upd) =>
      option_list (AUpdateName <$> ud_name upd)
      ++ option_list (AUpdateStatus <$> ud_status upd)
      ++ option_list (AUpdateParent <$> ud_parent upd)
  | _ => []
  end.

Definition plan (es : list Event) : list Action := es ≫= planned.
Definition actions (es : list Event) : list Action := es ≫= performed.

(** No status update for the item [id] among the events. *)
Definition no_status_update (id : string) (es : list Event) : Prop :=
  ∀ upd, Call (UpdateTask id upd) ∈ es → ud_status upd = None.

Definition task_ids (r : Remote) : list string := (task_id ∘ snd) <$> r_tasks r.

(** The status the store holds for the item [id]. *)
Definition status_of (r : Remote) (id : string) : option string :=
  task_status ∘ snd <$> List.find (λ p, String.eqb (task_id p.2) id) (r_tasks r).

(** ** The end-to-end scenario of the specification

    Epic E02 with feature E02-F01, task E02-F01-T01 (in_progress) and its
    subtasks S01 and S02 (both complete), and an empty remote space. *)

Definition document (id ttl st : string) : string :=
  "---" +:+ String "010" ("id: " +:+ id +:+ String "010"
    ("title: '" +:+ ttl +:+ "'" +:+ String "010"
      ("status: " +:+ st +:+ String "010" ("---" +:+ String "010" "body")))).

Definition spec_data (ttl st : string) : SpecData :=
  {| metadata := {| clickup_task_id := None; title := ttl; status := st;
                    priority := "high"; tags := [] |};
     markdownContent := "body" |}.

Definition directory (n : string) : Dirent := {| d_name := n; d_isDirectory := true |}.
Definition regular (n : string) : Dirent := {| d_name := n; d_isDirectory := false |}.

Definition fs_e02 : FileSystem :=
  {| fs_dirs := list_to_map
       [ ("specs/E02", [regular "E02.spec.md"; directory "F01"]);
         ("specs/E02/F01", [regular "E02-F01.spec.md"; directory "T01"]);
         ("specs/E02/F01/T01",
          [directory "S02"; regular "E02-F01-T01.spec.md"; directory "S01"]);
         ("specs/E02/F01/T01/S01", [regular "E02-F01-T01-S01.spec.md"]);
         ("specs/E02/F01/T01/S02", [regular "E02-F01-T01-S02.spec.md"]) ];
     fs_files := list_to_map
       [ ("specs/E02/E02.spec.md", document "E02" "Epic" "in_progress");
         ("specs/E02/F01/E02-F01.spec.md",
          document "E02-F01" "Feature" "in_progress");
         ("specs/E02/F01/T01/E02-F01-T01.spec.md",
          document "E02-F01-T01" "Task" "in_progress");
         ("specs/E02/F01/T01/S01/E02-F01-T01-S01.spec.md",
          document "E02-F01-T01-S01" "First" "complete");
         ("specs/E02/F01/T01/S02/E02-F01-T01-S02.spec.md",
          document "E02-F01-T01-S02" "Second" "complete") ] |}.

Definition specs_e02 : gmap string SpecData :=
  list_to_map
    [ ("E02", spec_data "Epic" "in_progress");
      ("E02-F01", spec_data "Feature" "in_progress");
      ("E02-F01-T01", spec_data "Task" "in_progress");
      ("E02-F01-T01-S01", spec_data "First" "complete");
      ("E02-F01-T01-S02", spec_data "Second" "complete") ].

Definition world_e02 : World := {| remote := empty_remote; fs := fs_e02 |}.

(** The world after a first live sync of E02, and after a second one. *)
Definition world_e02_synced : World :=
  (syncEpic "space" "E02" specs_e02 false world_e02).1.2.

Definition world_e02_synced_twice : World :=
  (syncEpic "space" "E02" specs_e02 false world_e02_synced).1.2.

Definition item_data (name : string) (st : indexed string) : TaskData :=
  {| td_name := name; td_description := "body"; td_status := st;
     td_priority := Val 2; td_tags := [] |}.

Definition is_status_update (e : Event) : bool :=
  match e with
  | Call (UpdateTask _ upd) => bool_decide (is_Some (ud_status upd))
  | _ => false
  end.

(** ** A program logic for runs

    [hoare P E m Q R]: from a world that satisfies [P], the run of [m]
    emits only events that satisfy [E], and it ends in a world that
    satisfies [Q a] when it returns [a] and [R] when it throws. *)
Definition hoare {A} (P : World → Prop) (E : Event → Prop) (m : M A)
    (Q : A → World → Prop) (R : World → Prop) : Prop :=
  ∀ w, P w →
    match m w with
    | (Ok a, w', es) => Q a w' ∧ Forall E es
    | (Throw _, w', es) => R w' ∧ Forall E es
    end.

(** A computation that changes neither the remote workspace nor the
    files, whatever the world it starts from. *)
Definition quiet {A} (m : M A) : Prop :=
  ∀ w0, hoare (λ w, w = w0) (λ e, is_mutation e = false) m
              (λ _ w, w = w0) (λ w, w = w0).

(** A computation that never throws. *)
Definition safe {A} (m : M A) : Prop :=
  hoare (λ _, True) (λ _, True) m (λ _ _, True) (λ _, False).

(** The world after an update call. *)
Definition updated (taskId : string) (upd : UpdateData) (w : World) : World :=
  (updateTask taskId upd w).1.2.

(** Whether the status step of an existing item sends an update. *)
Definition updates_status (current : string) (newStatus : indexed string) : bool :=
  negb (bool_decide (Val current = newStatus))
  && negb (isStatusDowngrade (Val current) newStatus).

(** The mapped statuses below COMPLETE. *)
Definition below_complete : list string :=
  [ "DRAFT"; "PLANNED"; "BLOCKED"; "IN PROGRESS"; "REVIEW"; "TESTING" ].

(** The invariant of a task's subtask loop: remote ids are unique, and
    the item [tid] is there, COMPLETE, under a name of the task [taskId]. *)
Definition task_inv (tid taskId : string) (w : World) : Prop :=
  NoDup (task_ids (remote w))
  ∧ tid ∈ task_ids (remote w)
  ∧ ∀ p, p ∈ r_tasks (remote w) → task_id p.2 = tid →
         task_status p.2 = "COMPLETE"
         ∧ startsWith (task_name p.2) (taskId +:+ ":") = true.

(** An event that is no status update of the item [tid]. *)
Definition spares_status (tid : string) (e : Event) : Prop :=
  ∀ upd, e = Call (UpdateTask tid upd) → ud_status upd = None.

(** The specs of the scenario after the source of S01 went back to
    planned. *)
Definition specs_e02_regressed : gmap string SpecData :=
  <["E02-F01-T01-S01" := spec_data "First" "planned"]> specs_e02.

(** The items of the scenario as the store holds them after two syncs. *)
Definition item_t01 (st : string) : ClickUpTask :=
  {| task_id := "0"; task_name := "E02-F01-T01: Task";
     task_description := "body"; task_status := st;
     task_priority := Some 2; task_parent := None; task_tags := [] |}.

Definition item_s01 : ClickUpTask :=
  {| task_id := "1"; task_name := "E02-F01-T01-S01: First";
     task_description := "body"; task_status := "COMPLETE";
     task_priority := Some 2; task_parent := Some "0"; task_tags := [] |}.

(** What the log of a dry run of a subtask or extension sync has to do
    with the actions of the live run from the same world. *)
Definition child_plan_agrees
    (sync : string → string → string → gmap string SpecData → bool → M unit)
  : Prop :=
  ∀ listId parentId childId allSpecs w,
    let dry := (sync listId parentId childId allSpecs true w).2 in
    let live := (sync listId parentId childId allSpecs false w).2 in
    match allSpecs !! childId,
          find_by_custom_id (tasks_of (remote w) listId) childId with
    | Some childData, None =>
        plan dry = [ACreateItem (item_name childId (metadata childData))]
        ∧ actions live = plan dry ++ [AUpdateParent parentId]
    | _, _ => plan dry = actions live
    end.

(** What a run that wrote did to the lines: it replaced the first line
    that starts with [clickup_task_id:], or, when there is none, put the
    new line right after the first [id:] line. *)
Definition rewritten (clickupTaskId : string) (lines lines' : list string) : Prop :=
  ∃ before after,
    (∃ old,
        lines = before ++ old :: after
        ∧ is_task_id_line old = true
        ∧ Forall (λ l, is_task_id_line l = false) before
        ∧ lines' = before ++ task_id_line clickupTaskId :: after)
    ∨ (∃ idLine,
        lines = before ++ idLine :: after
        ∧ is_id_line idLine = true
        ∧ Forall (λ l, is_id_line l = false) before
        ∧ Forall (λ l, is_task_id_line l = false) lines
        ∧ lines' = before ++ idLine :: task_id_line clickupTaskId :: after).

(** ** Dry run against live run *)

(** What the engine reads of an item it looks up: its name and status. *)
Definition view (t : ClickUpTask) : string * string :=
  (task_name t, task_status t).

Definition look (w : World) (listId customId : string)
  : option (string * string) :=
  view <$> find_by_custom_id (tasks_of (remote w) listId) customId.

(** The items of the store a lookup of [customId] in [listId] stops at. *)
Definition matches (listId customId : string) (p : string * ClickUpTask) : bool :=
  bool_decide (p.1 = listId) && startsWith (task_name p.2) (customId +:+ ":").

(** No name starts with both ids followed by a colon. *)
Definition apart (a b : string) : Prop :=
  ∀ name, startsWith name (a +:+ ":") = true →
          startsWith name (b +:+ ":") = false.

Fixpoint has_colon (s : string) : bool :=
  match s with
  | EmptyString => false
  | String c s' => bool_decide (c = ":"%char) || has_colon s'
  end.

(** Every item with the id [id] has a name of the spec id [specId]. *)
Definition owned (w : World) (id specId : string) : Prop :=
  ∀ p, p ∈ r_tasks (remote w) → task_id p.2 = id →
       startsWith (task_name p.2) (specId +:+ ":") = true.

(** The names in a directory are distinct. *)
Definition distinct_entries (f : FileSystem) : Prop :=
  map_Forall (λ _ entries, NoDup (d_name <$> entries)) (fs_dirs f).

(** Two worlds in which the engine reads the same directories. *)
Definition same_dirs (w1 w2 : World) : Prop :=
  fs_dirs (fs w1) = fs_dirs (fs w2)
  ∧ ∀ p, existsSync (fs w1) p = existsSync (fs w2) p.

(** The list a lookup by name finds in a folder. *)
Definition find_list (r : Remote) (folderId name : string) : option ClickUpList :=
  List.find (λ l, String.eqb (list_name l) name) (lists_of r folderId).

(** What a live run on behalf of the spec ids in [mine] leaves alone:
    the uniqueness of ids, the directories, every lookup of a list or an
    item whose name is of an id apart from them, and the items that carry
    the name of such an id. *)
Definition frame (mine : string → Prop) (w w' : World) : Prop :=
  (NoDup (task_ids (remote w)) → NoDup (task_ids (remote w')))
  ∧ same_dirs w' w
  ∧ (∀ folderId name, (∀ j, mine j → startsWith name (j +:+ ":") = false) →
                      find_list (remote w') folderId name
                      = find_list (remote w) folderId name)
  ∧ (∀ listId c, (∀ j, mine j → apart j c) →
                 look w' listId c = look w listId c)
  ∧ (∀ id c, (∀ j, mine j → apart j c) →
             id ∈ task_ids (remote w) → owned w id c →
             id ∈ task_ids (remote w') ∧ owned w' id c).

(** The spec ids a task sync works for: the task's and its subtasks'. *)
Definition under (taskId c : string) : Prop :=
  c = taskId ∨ ∃ n, is_segment "S" n = true ∧ c = taskId +:+ "-" +:+ n.

(** Neither a colon nor a dash occurs in [s]. *)
Fixpoint plain (s : string) : bool :=
  match s with
  | EmptyString => true
  | String c s' =>
      negb (bool_decide (c = ":"%char)) && negb (bool_decide (c = "-"%char))
      && plain s'
  end.

(** [x] starts with a colon or a dash. *)
Definition starts_sep (x : string) : Prop :=
  ∃ c x', x = String c x' ∧ (c = ":"%char ∨ c = "-"%char).

(** What follows the id of an ancestor in the id of an item: nothing, or
    a dash and more, without a colon. *)
Definition id_tail (x : string) : Prop :=
  has_colon x = false ∧ (x = "" ∨ ∃ x', x = String "-" x').

(** The spec ids a feature sync works for: the feature's, its tasks' and
    their subtasks'. *)
Definition under_feature (featureId c : string) : Prop :=
  c = featureId
  ∨ ∃ n, is_segment "T" n = true ∧ under (featureId +:+ "-" +:+ n) c.

(** ** Further functions of the two scripts *)

(** A part of a spec id after the epic, as the template strings write it
    ([`${parts.epic}-${parts.feature}`], lines 1283 and following). *)
Definition dash (part : option string) : string :=
  match part with
  | Some x => "-" +:+ x
  | None => EmptyString
  end.

Definition is_part (letter : ascii) (part : option string) : bool :=
  match part with
  | Some x => is_segment letter x
  | None => true
  end.

(** The level of an id with these parts, lines 131-142. *)
Definition deepest (feature task subtask extension : option string) : SpecLevel :=
  match extension, subtask, task, feature with
  | Some _, _, _, _ => LExtension
  | None, Some _, _, _ => LSubtask
  | None, None, Some _, _ => LTask
  | None, None, None, Some _ => LFeature
  | None, None, None, None => LEpic
  end.

(** [s] is empty or starts with a character that is no digit. *)
Definition no_digit_head (s : string) : bool :=
  match s with
  | EmptyString => true
  | String c _ => negb (is_digit c)
  end.

(** [extractSpecIdFromTitle], lines 504-507 of the sync script and
    339-342 of the migration script: the text matched by
    [^(E\d+(?:-F\d+)?(?:-T\d+)?(?:-S\d+)?)]. *)
Definition extractSpecIdFromTitle (title : string) : option string :=
  match segment "E" title with
  | None => None
  | Some (epic, r1) =>
      let '(feature, r2) := optional_segment "F" r1 in
      let '(task, r3) := optional_segment "T" r2 in
      let '(subtask, _) := optional_segment "S" r3 in
      Some (epic +:+ dash feature +:+ dash task +:+ dash subtask)
  end.

(** [sanitizeTitle], lines 492-494. *)

(** The class [a-zA-Z0-9]. *)
Definition is_alnum (c : ascii) : bool :=
  let n := code c in
  (((48 <=? n) && (n <=? 57)) || ((65 <=? n) && (n <=? 90))
   || ((97 <=? n) && (n <=? 122)))%N.

(** [s.replace(/[^a-zA-Z0-9]+/g, '-')]: every maximal run of characters
    outside the class becomes one dash.  [in_run] tells that the previous
    character was in such a run. *)
Fixpoint dash_runs (in_run : bool) (s : string) : string :=
  match s with
  | EmptyString => EmptyString
  | String c s' =>
      if is_alnum c then String c (dash_runs false s')
      else if in_run then dash_runs true s'
      else String "-" (dash_runs true s')
  end.

(** [s.replace(/^-+|-+$/g, '')]: the dashes at the start and the dashes
    at the end go. *)
Fixpoint strip_leading_dashes (s : string) : string :=
  match s with
  | String c s' => if bool_decide (c = "-"%char) then strip_leading_dashes s' else s
  | EmptyString => EmptyString
  end.

Fixpoint strip_trailing_dashes (s : string) : string :=
  match s with
  | EmptyString => EmptyString
  | String c s' =>
      let r := strip_trailing_dashes s' in
      if bool_decide (c = "-"%char) && String.eqb r "" then EmptyString
      else String c r
  end.

Definition sanitizeTitle (title : string) : string :=
  strip_trailing_dashes (strip_leading_dashes (dash_runs false title)).

(** Letters and digits, with single dashes between them only.
    [after_dash] tells that a dash may not come next. *)
Fixpoint slug_from (after_dash : bool) (s : string) : bool :=
  match s with
  | EmptyString => negb after_dash
  | String c s' =>
      if is_alnum c then slug_from false s'
      else bool_decide (c = "-"%char) && negb after_dash && slug_from true s'
  end.

Definition is_slug (s : string) : bool :=
  match s with
  | EmptyString => true
  | _ => slug_from true s
  end.

(** The same, but for a dash at the end, and at the start unless
    [after_dash]. *)
Fixpoint loose_slug (after_dash : bool) (s : string) : bool :=
  match s with
  | EmptyString => true
  | String c s' =>
      if is_alnum c then loose_slug false s'
      else bool_decide (c = "-"%char) && negb after_dash && loose_slug true s'
  end.

(** ** What the engine leaves in place *)

(** What the engine never sends an update for: the list an item is in,
    its id, description, priority and tags. *)
Definition fixed_part (p : string * ClickUpTask)
  : string * string * string * option Z * list string :=
  (p.1, task_id p.2, task_description p.2, task_priority p.2, task_tags p.2).

(** [w'] has the folders, lists and items of [w], in their places and
    with their fixed parts, and possibly more after them. *)
Definition grows (w w' : World) : Prop :=
  r_folders (remote w) `prefix_of` r_folders (remote w')
  ∧ r_lists (remote w) `prefix_of` r_lists (remote w')
  ∧ (fixed_part <$> r_tasks (remote w))
      `prefix_of` (fixed_part <$> r_tasks (remote w')).

(** A computation that keeps [I], whether it returns or throws. *)
Definition keeps {A} (I : World → Prop) (m : M A) : Prop :=
  hoare I (λ _, True) m (λ _, I) I.

(** ** The migration script, [migrate-bidirectional-mapping.ts] *)

Module Migration.

(** [findSpecFile], lines 344-367 of the script: the pattern
    [^(E\d+)(?:-(F\d+))?(?:-(T\d+))?(?:-(S\d+))?$], then the path by the
    parts that are present.  [specsDir] is a normalized path. *)
Definition findSpecFile (specId specsDir : string) (f : FileSystem)
  : option string :=
  match segment "E" specId with
  | None => None
  | Some (epic, r1) =>
      let '(feature, r2) := optional_segment "F" r1 in
      let '(task, r3) := optional_segment "T" r2 in
      let '(subtask, r4) := optional_segment "S" r3 in
      if String.eqb r4 "" then
        let file := specId +:+ ".spec.md" in
        let specPath :=
          match feature, task, subtask with
          | Some feature, Some task, Some subtask =>
              path_join [specsDir; epic; feature; task; subtask; file]
          | Some feature, Some task, None =>
              path_join [specsDir; epic; feature; task; file]
          | Some feature, _, _ => path_join [specsDir; epic; feature; file]
          | None, _, _ => path_join [specsDir; epic; file]
          end in
        if existsSync f specPath then Some specPath else None
      else None
  end.

(** [s.includes(needle)] *)
Fixpoint includes (s needle : string) : bool :=
  String.prefix needle s
  || match s with
     | String _ s' => includes s' needle
     | EmptyString => false
     end.

(** [s] around the leftmost occurrence of [needle]. *)
Fixpoint cut_at (needle s : string) : option (string * string) :=
  match strip_prefix needle s with
  | Some rest => Some (EmptyString, rest)
  | None =>
      match s with
      | EmptyString => None
      | String c s' =>
          match cut_at needle s' with
          | Some (a, b) => Some (String c a, b)
          | None => None
          end
      end
  end.

(** [content.match(/^---\n([\s\S]*?)\n---/)]: the captured group and the
    text after the match. *)
Definition frontmatter (content : string) : option (string * string) :=
  match strip_prefix ("---" +:+ String "010" "") content with
  | Some body => cut_at (String "010" "---") body
  | None => None
  end.

(** The line terminators among the code units below 256: what [.] does
    not match, and what [^] and [$] look at under the [m] flag. *)
Definition is_line_terminator (c : ascii) : bool :=
  bool_decide (c = "010"%char) || bool_decide (c = "013"%char).

(** The longest run of white space at the start of [s], and the rest. *)
Fixpoint take_spaces (s : string) : string * string :=
  match s with
  | EmptyString => (EmptyString, EmptyString)
  | String c s' =>
      if is_space c
      then let '(ws, rest) := take_spaces s' in (String c ws, rest)
      else (EmptyString, s)
  end.

(** The longest run of characters that [.] matches, and the rest. *)
Fixpoint take_line (s : string) : string * string :=
  match s with
  | EmptyString => (EmptyString, EmptyString)
  | String c s' =>
      if is_line_terminator c then (EmptyString, s)
      else let '(line, rest) := take_line s' in (String c line, rest)
  end.

(** [s] up to and including its last character that is no line
    terminator, and the rest. *)
Fixpoint last_inline (s : string) : option (string * string) :=
  match s with
  | EmptyString => None
  | String c s' =>
      match last_inline s' with
      | Some (a, b) => Some (String c a, b)
      | None => if is_line_terminator c then None
                else Some (String c EmptyString, s')
      end
  end.

(** A match of [id:\s+.+$] at the start of [s], under the [m] flag: the
    matched text and the rest.  The white space is matched greedily;
    when nothing is left for [.+] after it, it gives characters back up
    to the last one that [.] can match. *)
Definition match_id_field (s : string) : option (string * string) :=
  match strip_prefix "id:" s with
  | None => None
  | Some s1 =>
      match take_spaces s1 with
      | (EmptyString, _) => None
      | (ws, EmptyString) =>
          match ws with
          | String c ws' =>
              match last_inline ws' with
              | Some (a, b) => Some ("id:" +:+ String c a, b)
              | None => None
              end
          | EmptyString => None
          end
      | (ws, s2) =>
          let '(line, rest) := take_line s2 in
          Some ("id:" +:+ ws +:+ line, rest)
      end
  end.

(** The leftmost match of [/^(id:\s+.+)$/m] in [s]: the text before it,
    the match and the text after it.  [line_start] tells that [^] holds
    at the start of [s]. *)
Fixpoint find_id_field (line_start : bool) (s : string)
  : option (string * string * string) :=
  match (if line_start then match_id_field s else None) with
  | Some (m, rest) => Some (EmptyString, m, rest)
  | None =>
      match s with
      | EmptyString => None
      | String c s' =>
          match find_id_field (is_line_terminator c) s' with
          | Some (b, m, a) => Some (String c b, m, a)
          | None => None
          end
      end
  end.

(** The text a replacement template stands for, when the pattern has
    one group and the group is the whole match: [$$], [$&], [$`], [$'],
    [$1] and [$01] are patterns, every other [$] is itself. *)
Fixpoint expand (template before matched after : string) : string :=
  match template with
  | EmptyString => EmptyString
  | String c t =>
      if bool_decide (c = "$"%char) then
        match t with
        | String d t' =>
            if bool_decide (d = "$"%char)
            then String "$" (expand t' before matched after)
            else if bool_decide (d = "&"%char)
            then matched +:+ expand t' before matched after
            else if bool_decide (d = "`"%char)
            then before +:+ expand t' before matched after
            else if bool_decide (d = "'"%char)
            then after +:+ expand t' before matched after
            else if bool_decide (d = "1"%char)
            then matched +:+ expand t' before matched after
            else if bool_decide (d = "0"%char) then
              match t' with
              | String e t'' =>
                  if bool_decide (e = "1"%char)
                  then matched +:+ expand t'' before matched after
                  else String "$" (expand t before matched after)
              | EmptyString => String "$" (expand t before matched after)
              end
            else String "$" (expand t before matched after)
        | EmptyString => String "$" EmptyString
        end
      else String c (expand t before matched after)
  end.

(** No [$] in [s]: such a template stands for itself. *)
Fixpoint no_dollar (s : string) : bool :=
  match s with
  | EmptyString => true
  | String c s' => negb (bool_decide (c = "$"%char)) && no_dollar s'
  end.

(** [frontmatter.replace(/^(id:\s+.+)$/m, template)] *)
Definition replace_id_field (frontmatter template : string) : string :=
  match find_id_field true frontmatter with
  | Some (before, matched, after) =>
      before +:+ expand template before matched after +:+ after
  | None => frontmatter
  end.

Inductive Log :=
| LogAlreadyHasTaskId
| LogNoFrontmatter (specFilePath : string)
| LogErrorUpdating (specFilePath : string).

(** [updateSpecFileWithTaskId] of the migration script, lines 369-406:
    the result, the files afterwards and what is logged.  Reading a path
    that is no regular file throws inside the [try] block. *)
Definition updateSpecFileWithTaskId (specFilePath taskId : string)
    (dryRun : bool) (f : FileSystem) : bool * FileSystem * list Log :=
  match fs_files f !! specFilePath with
  | None => (false, f, [LogErrorUpdating specFilePath])
  | Some content =>
      if includes content "clickup_task_id:"
      then (false, f, [LogAlreadyHasTaskId])
      else
        match frontmatter content with
        | None | Some (EmptyString, _) =>
            (false, f, [LogNoFrontmatter specFilePath])
        | Some (frontmatter, restOfContent) =>
            let updatedFrontmatter :=
              replace_id_field frontmatter
                ("$1" +:+ String "010" "clickup_task_id: '" +:+ taskId +:+ "'") in
            let updatedContent :=
              "---" +:+ String "010" updatedFrontmatter
              +:+ String "010" "---" +:+ restOfContent in
            (true,
             if dryRun then f else writeFileSync f specFilePath updatedContent,
             [])
        end
  end.

End Migration.

(** * Theorems *)

(** ** Strings *)

Lemma app_cons_s (x : ascii) (a b : string) :
  String x a +:+ b = String x (a +:+ b).
Proof. reflexivity. Qed.

Lemma app_nil_l_s (a : string) : "" +:+ a = a.
Proof. reflexivity. Qed.

Lemma app_assoc_s (a b c : string) : (a +:+ b) +:+ c = a +:+ (b +:+ c).
Proof.
  induction a as [|x a IH]; [done |].
  by rewrite !app_cons_s, IH.
Qed.

Lemma app_nil_r_s (a : string) : a +:+ "" = a.
Proof.
  induction a as [|x a IH]; [done |].
  by rewrite app_cons_s, IH.
Qed.

Lemma prefix_app (p s : string) : String.prefix p (p +:+ s) = true.
Proof.
  induction p as [|x p IH]; [by destruct s |].
  rewrite app_cons_s. simpl.
  destruct (ascii_dec x x); [done | congruence].
Qed.

Lemma prefix_inv (p s : string) :
  String.prefix p s = true → ∃ r, s = p +:+ r.
Proof.
  revert s. induction p as [|x p IH]; intros s H.
  - by exists s.
  - destruct s as [|y s]; [done |]. simpl in H.
    destruct (ascii_dec x y) as [-> |]; [| done].
    destruct (IH _ H) as [r ->]. by exists r.
Qed.

(** ** Status reconciler *)

Lemma own_property_None {A} (o : list (string * A)) (k : string) :
  k ∉ o.*1 → own_property o k = None.
Proof.
  induction o as [| [k' v] o IH]; intros H; [done |].
  cbn [own_property]. destruct (String.eqb_spec k' k) as [-> |].
  - exfalso. apply H. left.
  - apply IH. intros Hin. apply H. by right.
Qed.

Lemma own_property_Some {A} (o : list (string * A)) (k : string) (v : A) :
  own_property o k = Some v → (k, v) ∈ o.
Proof.
  induction o as [| [k' v'] o IH]; [done |].
  cbn [own_property]. destruct (String.eqb_spec k' k) as [-> |]; intros H.
  - injection H as ->. left.
  - right. by apply IH.
Qed.

Lemma own_property_vocabulary (s : string) :
  s ∉ vocabulary → own_property statusPriority s = None.
Proof. intros H. by apply own_property_None. Qed.

Lemma getStatusPriority_range (v : indexed string) :
  match getStatusPriority v with
  | Val n => 0 <= n <= 7
  | Proto _ => True
  end.
Proof.
  unfold getStatusPriority, Js.get.
  generalize (to_property_key v). intros k.
  destruct (own_property statusPriority k) as [n |] eqn:E.
  - apply own_property_Some in E. unfold statusPriority in E.
    repeat (apply elem_of_cons in E as [E | E]; [injection E as -> ->; lia |]).
    by apply elem_of_nil in E.
  - by case_bool_decide.
Qed.

(** A status outside the table and outside the inherited names has
    priority 0. *)
Lemma getStatusPriority_unknown (s : string) :
  s ∉ vocabulary → s ∉ object_prototype_keys →
  getStatusPriority (Val s) = Val 0.
Proof.
  intros Hv Hp. unfold getStatusPriority, Js.get. cbn [to_property_key].
  rewrite own_property_vocabulary by done.
  by rewrite bool_decide_eq_false_2.
Qed.

(** A current status outside the table never counts as a downgrade:
    its priority is 0 or no number at all. *)
Lemma isStatusDowngrade_unrecognized (s : string) (next : indexed string) :
  s ∉ vocabulary → isStatusDowngrade (Val s) next = false.
Proof.
  intros Hv. unfold isStatusDowngrade.
  destruct (bool_decide _ || bool_decide _); [done |]. cbv zeta.
  pose proof (getStatusPriority_range next) as Hn.
  unfold getStatusPriority at 1. unfold Js.get. cbn [to_property_key].
  rewrite own_property_vocabulary by done.
  case_bool_decide; [done |].
  destruct (getStatusPriority next); [| done]. cbn [Js.gt]. lia.
Qed.

Lemma isStatusDowngrade_case_variant (next : indexed string) :
  isStatusDowngrade (Val "complete") next = false
  ∧ isStatusDowngrade (Val "Complete") next = false.
Proof.
  split; apply isStatusDowngrade_unrecognized; compute_done.
Qed.

(** C8: [isStatusDowngrade] is false as soon as one side is CANCELLED, in
    particular for (COMPLETE, CANCELLED) and (CANCELLED, DRAFT); on every
    pair of statuses of the vocabulary it agrees with the specification's
    guard: true exactly when both sides have an ordinal in the table
    DRAFT=1 ... COMPLETE=7 and the current one is the greater. *)
Theorem isStatusDowngrade_ordinal :
  (∀ other : indexed string,
     isStatusDowngrade (Val "CANCELLED") other = false
     ∧ isStatusDowngrade other (Val "CANCELLED") = false)
  ∧ isStatusDowngrade (Val "COMPLETE") (Val "CANCELLED") = false
  ∧ isStatusDowngrade (Val "CANCELLED") (Val "DRAFT") = false
  ∧ ∀ current next : Status,
      isStatusDowngrade (Val (status_name current)) (Val (status_name next))
      = spec_isDowngrade current next
      ∧ match spec_ordinal current, spec_ordinal next with
        | Some c, Some n =>
            isStatusDowngrade (Val (status_name current)) (Val (status_name next))
            = (c >? n)
        | _, _ =>
            isStatusDowngrade (Val (status_name current)) (Val (status_name next))
            = false
        end.
Proof.
  split; [| split; [done | split; [done |]]].
  - intros other. unfold isStatusDowngrade. split.
    + done.
    + rewrite (bool_decide_eq_true_2 (Val "CANCELLED" = Val "CANCELLED")) by done.
      by rewrite orb_true_r.
  - intros [] []; done.
Qed.

(** C10: at the status "constructor", which is none of the eight keys,
    [getStatusPriority] does not return 0: the index expression finds the
    member inherited from [Object.prototype], which is not nullish, so the
    default is not taken. *)
Theorem getStatusPriority_inherited_key :
  ("constructor" ∉ vocabulary)
  ∧ getStatusPriority (Val "constructor") = Proto "constructor"
  ∧ getStatusPriority (Val "constructor") ≠ Val 0.
Proof.
  split; [compute_done | split; [reflexivity | discriminate]].
Qed.

(** ** Item lookup *)

Lemma find_by_custom_id_Some tasks customId t :
  find_by_custom_id tasks customId = Some t →
  t ∈ tasks ∧ startsWith (task_name t) (customId +:+ ":") = true.
Proof.
  unfold find_by_custom_id. intros H.
  apply find_some in H as [Hin Hp]. split; [| done].
  by apply list_elem_of_In.
Qed.

Lemma find_by_custom_id_None tasks customId :
  find_by_custom_id tasks customId = None →
  ∀ t, t ∈ tasks → startsWith (task_name t) (customId +:+ ":") = false.
Proof.
  unfold find_by_custom_id. intros H t Hin.
  apply (find_none _ _ H). by apply list_elem_of_In.
Qed.

(** C7: the lookup of a spec id, by either method, answers with an item
    of the list whose name starts with the id followed by a colon, or with
    nothing when the list has no such item; it changes nothing.  A lookup
    of T1 among "T10: Bar" and "T1: Foo" answers "T1: Foo", and a lookup of
    T1 finds nothing when only "T10: Bar" is there. *)
Theorem findTaskByCustomId_prefix :
  (∀ listId customId w,
     ∃ found,
       findTaskByCustomId listId customId w
       = (Ok found, w, [Call (GetTasks listId)])
       ∧ findSubtaskByCustomId listId customId w
         = (Ok found, w, [Call (GetTasks listId)])
       ∧ match found with
         | Some t =>
             t ∈ tasks_of (remote w) listId
             ∧ startsWith (task_name t) (customId +:+ ":") = true
         | None =>
             Forall (λ t, startsWith (task_name t) (customId +:+ ":") = false)
                    (tasks_of (remote w) listId)
         end)
  ∧ (findTaskByCustomId "L" "T1" world_t1_t10).1.1 = Ok (Some t1_foo)
  ∧ (findSubtaskByCustomId "L" "T1" world_t1_t10).1.1 = Ok (Some t1_foo)
  ∧ find_by_custom_id [t10_bar] "T1" = None.
Proof.
  split; [| by vm_compute].
  intros listId customId w.
  exists (find_by_custom_id (tasks_of (remote w) listId) customId).
  split; [done |]. split; [done |].
  destruct (find_by_custom_id _ _) as [t |] eqn:E.
  - by apply find_by_custom_id_Some.
  - apply Forall_forall. by apply find_by_custom_id_None.
Qed.

(** ** Throttling *)

Section Throttling.
Import Client.

Lemma rate_limit_spec cfg c :
  ∃ c' es, rate_limit cfg c = (c', es) ∧ sends es = 0%nat ∧ now c <= now c'.
Proof.
  unfold rate_limit.
  destruct (now c - lastRequestTime c <? minRequestInterval cfg) eqn:E.
  - eexists _, _. split; [reflexivity |]. split; [done |].
    cbn [now sleep]. unfold timer_delay.
    destruct (_ || _); lia.
  - eexists _, _. split; [reflexivity |]. split; [done |]. cbn [now]. lia.
Qed.

Lemma sends_app es1 es2 : sends (es1 ++ es2) = (sends es1 + sends es2)%nat.
Proof. unfold sends. by rewrite filter_app, length_app. Qed.

Lemma request_cons cfg retry a server c :
  request cfg retry (a :: server) c
  = let '(c, es) := rate_limit cfg c in
    let c := {| now := now c + latency a;
                lastRequestTime := lastRequestTime c |} in
    match outcome a with
    | Success data => (Resolved data, c, es ++ [Send], server)
    | HttpError status header =>
        if retry_interceptor cfg && (status =? 429) && negb retry then
          let retryAfter := retry_after_seconds header in
          let waitTime := (λ s, s * 1000) <$> retryAfter in
          let c := sleep waitTime c in
          let '(r, c, es', server) := request cfg true server c in
          (r, c, es ++ [Send; LogRateLimit retryAfter; Sleep waitTime] ++ es',
           server)
        else (Rejected (HttpError status header), c, es ++ [Send], server)
    | NetworkError => (Rejected NetworkError, c, es ++ [Send], server)
    end.
Proof. reflexivity. Qed.

(** A response the interceptor does not retry ends the call after one
    attempt. *)
Lemma request_final cfg retry a rest c :
  retries cfg retry (outcome a) = false →
  ∃ c' before,
    request cfg retry (a :: rest) c
    = (final (outcome a), c', before ++ [Send], rest)
    ∧ sends before = 0%nat
    ∧ now c + latency a <= now c'.
Proof.
  intros H. rewrite request_cons.
  destruct (rate_limit_spec cfg c) as (c1 & es1 & -> & Hs & Hn).
  destruct a as [lat [data | status hint |]]; cbn [outcome latency] in *.
  - eexists _, _. split; [reflexivity |]. split; [done |]. cbn [now]. lia.
  - cbn [retries] in H. rewrite H.
    eexists _, _. split; [reflexivity |]. split; [done |]. cbn [now]. lia.
  - eexists _, _. split; [reflexivity |]. split; [done |]. cbn [now]. lia.
Qed.

(** A throttled first attempt: one wait, one more attempt, whose
    response is final. *)
Lemma request_throttled lat hint second rest c :
  let first := {| latency := lat; outcome := HttpError 429 hint |} in
  let retryAfter := retry_after_seconds hint in
  let waitTime := (λ s, s * 1000) <$> retryAfter in
  ∃ c' before between,
    request migration_client false (first :: second :: rest) c
    = (final (outcome second), c',
       before ++ [Send; LogRateLimit retryAfter; Sleep waitTime]
         ++ between ++ [Send],
       rest)
    ∧ sends before = 0%nat ∧ sends between = 0%nat
    ∧ now c + lat + timer_delay waitTime + latency second <= now c'.
Proof.
  intros first retryAfter waitTime.
  assert (retries migration_client true (outcome second) = false) as Hr.
  { destruct (outcome second); [done | | done]. cbn [retries].
    by rewrite andb_false_r. }
  unfold first. rewrite request_cons. cbn [outcome latency].
  destruct (rate_limit_spec migration_client c) as (c1 & es1 & -> & Hs & Hn).
  change (retry_interceptor migration_client && (429 =? 429) && negb false)
    with true.
  cbv zeta. fold retryAfter. fold waitTime.
  set (c2 := sleep waitTime _).
  destruct (request_final migration_client true second rest c2 Hr)
    as (c3 & es3 & -> & Hs3 & Hn3).
  exists c3, es1, es3. split; [done |]. split; [done |]. split; [done |].
  subst c2. cbn [now sleep] in Hn3. lia.
Qed.



End Throttling.

(** ** Write-back: lines *)

Lemma split_lines_nonempty s : split_lines s ≠ [].
Proof.
  destruct s as [|c s]; [done |]. cbn [split_lines].
  case_bool_decide; [done |]. by destruct (split_lines s).
Qed.

Lemma join_lines_cons l ls :
  ls ≠ [] → join_lines (l :: ls) = l +:+ String "010" (join_lines ls).
Proof. by destruct ls. Qed.

Lemma join_split s : join_lines (split_lines s) = s.
Proof.
  induction s as [|c s IH]; [done |]. cbn [split_lines].
  case_bool_decide as Hc.
  - rewrite join_lines_cons by apply split_lines_nonempty.
    by rewrite IH, Hc.
  - pose proof (split_lines_nonempty s) as Hne.
    destruct (split_lines s) as [|l ls]; [done |].
    destruct ls as [|l' ls].
    + cbn [join_lines] in *. by rewrite IH.
    + rewrite join_lines_cons in IH by done.
      rewrite join_lines_cons by done.
      by rewrite app_cons_s, IH.
Qed.

Lemma split_lines_no_newline s :
  Forall (λ l, has_newline l = false) (split_lines s).
Proof.
  induction s as [|c s IH]; [by repeat constructor |]. cbn [split_lines].
  case_bool_decide as Hc; [by constructor |].
  pose proof (split_lines_nonempty s) as Hne.
  destruct (split_lines s) as [|l ls]; [done |].
  inversion IH as [| ? ? Hl Hls]; subst.
  constructor; [| done]. cbn [has_newline].
  by rewrite bool_decide_eq_false_2.
Qed.

Lemma split_lines_app l s :
  has_newline l = false →
  split_lines (l +:+ String "010" s) = l :: split_lines s.
Proof.
  induction l as [|c l IH]; intros H; [done |].
  cbn [has_newline] in H. apply orb_false_iff in H as [Hc Hl].
  rewrite app_cons_s. cbn [split_lines]. rewrite Hc. by rewrite IH.
Qed.

Lemma split_lines_single l : has_newline l = false → split_lines l = [l].
Proof.
  induction l as [|c l IH]; intros H; [done |].
  cbn [has_newline] in H. apply orb_false_iff in H as [Hc Hl].
  cbn [split_lines]. rewrite Hc. by rewrite IH.
Qed.

Lemma split_join ls :
  ls ≠ [] → Forall (λ l, has_newline l = false) ls →
  split_lines (join_lines ls) = ls.
Proof.
  induction ls as [|l ls IH]; intros Hne H; [done |].
  inversion H as [| ? ? Hl Hls]; subst.
  destruct ls as [|l' ls].
  - by apply split_lines_single.
  - rewrite join_lines_cons by done.
    rewrite split_lines_app by done. by rewrite IH.
Qed.

Lemma has_newline_app a b :
  has_newline (a +:+ b) = has_newline a || has_newline b.
Proof.
  induction a as [|c a IH]; [done |].
  rewrite app_cons_s. cbn [has_newline]. by rewrite IH, orb_assoc.
Qed.

Lemma has_newline_task_id_line id :
  has_newline (task_id_line id) = has_newline id.
Proof.
  unfold task_id_line. rewrite !has_newline_app.
  change (has_newline "clickup_task_id: '") with false.
  change (has_newline "'") with false.
  by rewrite orb_false_r.
Qed.

(** ** Write-back: the function *)

Lemma list_find_bool_Some (p : string → bool) (l : list string) i x :
  list_find p l = Some (i, x) →
  l = take i l ++ x :: drop (S i) l
  ∧ p x = true
  ∧ Forall (λ y, p y = false) (take i l)
  ∧ (i < length l)%nat.
Proof.
  intros H. apply list_find_Some in H as (Hi & Hp & Hbefore).
  split; [by rewrite take_drop_middle |].
  split; [by apply Is_true_true_1 |].
  split; [| by eapply lookup_lt_Some].
  apply Forall_forall. intros y Hy.
  apply list_elem_of_lookup in Hy as [j Hj].
  pose proof (lookup_lt_Some _ _ _ Hj) as Hlt. rewrite length_take in Hlt.
  rewrite lookup_take_lt in Hj by lia.
  specialize (Hbefore j y Hj ltac:(lia)).
  by destruct (p y); [exfalso; apply Hbefore |].
Qed.

Lemma list_find_bool_None (p : string → bool) (l : list string) :
  list_find p l = None → Forall (λ y, p y = false) l.
Proof.
  intros H. apply list_find_None in H.
  eapply Forall_impl; [exact H |]. intros y Hy. cbn in Hy.
  by destruct (p y); [exfalso; apply Hy |].
Qed.

Local Ltac no_write :=
  eexists false, _, _; split; [reflexivity |];
  split; [done |]; split; [done |]; split; [done |]; eauto.

(** The outcome of a write-back, case by case. *)
Lemma updateSpecFileWithTaskId_cases specId clickupTaskId w :
  ∃ r w' es, updateSpecFileWithTaskId specId clickupTaskId w = (Ok r, w', es)
  ∧ remote w' = remote w
  ∧ fs_dirs (fs w') = fs_dirs (fs w)
  ∧ if r then
      ∃ parts content lines',
        parseSpecId specId = Some parts
        ∧ fs_files (fs w) !! spec_file_path specId parts = Some content
        ∧ existing_task_id content = None
        ∧ rewritten clickupTaskId (split_lines content) lines'
        ∧ fs_files (fs w')
          = <[spec_file_path specId parts := join_lines lines']> (fs_files (fs w))
        ∧ es = [FileWrite (spec_file_path specId parts) (join_lines lines');
                Console (MsgWroteTaskId
                           (bool_decide (¬ Forall (λ l, is_task_id_line l = false)
                                             (split_lines content)))
                           clickupTaskId specId)]
    else w' = w ∧ ∃ m, es = [Console m].
Proof.
  unfold updateSpecFileWithTaskId.
  destruct (parseSpecId specId) as [parts |]; [| no_write].
  unfold bind at 1. cbn [get_world].
  destruct (existsSync (fs w) _) eqn:Hex; cbn [negb]; [| no_write].
  destruct (fs_files (fs w) !! _) as [content |] eqn:Hfile; [| no_write].
  unfold rewrite_document.
  destruct (existing_task_id content) as [existing |] eqn:Hexisting;
    [no_write |].
  destruct (list_find is_task_id_line (split_lines content)) as [[i old] |] eqn:Hfind.
  - apply list_find_bool_Some in Hfind as (Hsplit & Hold & Hbefore & Hlt).
    eexists true, _, _. split; [reflexivity |]. split; [done |]. split; [done |].
    exists parts, content, (<[i := task_id_line clickupTaskId]> (split_lines content)).
    split; [done |]. split; [done |]. split; [done |].
    split.
    { exists (take i (split_lines content)), (drop (S i) (split_lines content)).
      left. exists old. split; [done |]. split; [done |]. split; [done |].
      by rewrite insert_take_drop. }
    split; [done |].
    rewrite bool_decide_eq_true_2; [done |].
    intros Hall. rewrite Hsplit in Hall.
    apply Forall_app in Hall as [_ Hall]. inversion Hall; congruence.
  - apply list_find_bool_None in Hfind.
    destruct (list_find is_id_line (split_lines content)) as [[i idLine] |] eqn:Hid.
    + apply list_find_bool_Some in Hid as (Hsplit & Hidl & Hbefore & Hlt).
      eexists true, _, _. split; [reflexivity |]. split; [done |]. split; [done |].
      exists parts, content,
        (splice_in (S i) (task_id_line clickupTaskId) (split_lines content)).
      split; [done |]. split; [done |]. split; [done |].
      split.
      { exists (take i (split_lines content)), (drop (S i) (split_lines content)).
        right. exists idLine. do 4 (split; [done |]).
        unfold splice_in.
        rewrite (take_S_r _ _ idLine)
          by (rewrite Hsplit at 1; rewrite lookup_app_r, length_take;
              [by replace (i - i `min` _)%nat with 0%nat by lia
              | rewrite length_take; lia]).
        by rewrite <- app_assoc. }
      split; [done |].
      rewrite bool_decide_eq_false_2; [done |]. by intros Hn.
    + no_write.
Qed.

(** ** Write-back: the check for an existing id *)

Lemma is_blank_app a b : is_blank (a +:+ b) = is_blank a && is_blank b.
Proof.
  induction a as [|c a IH]; [done |].
  rewrite app_cons_s. cbn [is_blank]. by rewrite IH, andb_assoc.
Qed.

Lemma skip_spaces_blank s : skip_spaces s = "" ↔ is_blank s = true.
Proof.
  induction s as [|c s IH]; [done |]. cbn [skip_spaces is_blank].
  destruct (is_space c); [exact IH | done].
Qed.

Lemma is_blank_skip_spaces s : is_blank (skip_spaces s) = is_blank s.
Proof.
  induction s as [|c s IH]; [done |]. cbn [skip_spaces is_blank].
  destruct (is_space c) eqn:E; [exact IH |]. cbn [is_blank]. by rewrite E.
Qed.

Lemma trim_end_blank s : trim_end s = "" ↔ is_blank s = true.
Proof.
  induction s as [|c s IH]; [done |]. cbn [trim_end is_blank].
  destruct (trim_end s) eqn:E.
  - destruct (is_space c); [| done]. cbn [andb]. by rewrite <- IH.
  - split; [done |]. intros H. apply andb_true_iff in H as [_ H].
    by apply IH in H.
Qed.

Lemma trim_blank s : trim s = "" ↔ is_blank s = true.
Proof. unfold trim. by rewrite trim_end_blank, is_blank_skip_spaces. Qed.

Lemma skip_spaces_app r x :
  skip_spaces (r +:+ x)
  = if is_blank r then skip_spaces x else skip_spaces r +:+ x.
Proof.
  induction r as [|c r IH]; [done |].
  rewrite app_cons_s. cbn [skip_spaces is_blank].
  destruct (is_space c); [exact IH | done].
Qed.

Lemma strip_prefix_app p s : strip_prefix p (p +:+ s) = Some s.
Proof.
  induction p as [|c p IH]; [done |].
  rewrite app_cons_s. cbn [strip_prefix]. by rewrite bool_decide_eq_true_2.
Qed.

Lemma strip_prefix_inv p s r : strip_prefix p s = Some r → s = p +:+ r.
Proof.
  revert s. induction p as [|c p IH]; intros s H.
  - by injection H as ->.
  - destruct s as [|d s]; [done |]. cbn [strip_prefix] in H.
    case_bool_decide as Hc; [| done]. subst d.
    by rewrite (IH _ H).
Qed.

(** Where a prefix found in [s +:+ x] lies: inside [s], or across the
    seam. *)
Lemma strip_prefix_seam p s x r :
  strip_prefix p (s +:+ x) = Some r →
  (∃ r', strip_prefix p s = Some r' ∧ r = r' +:+ x)
  ∨ (∃ d p2, p = s +:+ String d p2 ∧ strip_prefix (String d p2) x = Some r).
Proof.
  revert s. induction p as [|c p IH]; intros s H.
  - left. exists s. split; [done |]. by injection H as <-.
  - destruct s as [|d s].
    + right. by exists c, p.
    + rewrite app_cons_s in H. cbn [strip_prefix] in H |- *.
      case_bool_decide as Hc; [| done]. subst d.
      destruct (IH _ H) as [(r' & Hr' & ->) | (d & p2 & -> & Hp2)].
      * left. by exists r'.
      * right. by exists d, p2.
Qed.

Lemma take_unquoted_app a x :
  take_unquoted (a +:+ x)
  = if has_quote a then ((take_unquoted a).1, (take_unquoted a).2 +:+ x)
    else (a +:+ (take_unquoted x).1, (take_unquoted x).2).
Proof.
  induction a as [|c a IH].
  - cbn [has_quote]. rewrite !app_nil_l_s. by destruct (take_unquoted x).
  - rewrite app_cons_s. cbn [take_unquoted has_quote].
    case_bool_decide as Hc; [done |]. cbn [orb]. rewrite IH.
    destruct (has_quote a); destruct (take_unquoted a), (take_unquoted x);
      by rewrite ?app_cons_s.
Qed.

Lemma take_unquoted_rest a :
  has_quote a = true → ∃ rest, (take_unquoted a).2 = String "'" rest.
Proof.
  induction a as [|c a IH]; [done |]. cbn [has_quote take_unquoted].
  case_bool_decide as Hc.
  - subst c. intros _. by exists a.
  - cbn [orb]. intros H. destruct (IH H) as [rest Hrest].
    exists rest. by destruct (take_unquoted a).
Qed.

Lemma take_unquoted_no_quote a :
  has_quote a = false → take_unquoted a = (a, "").
Proof.
  induction a as [|c a IH]; [done |]. cbn [has_quote take_unquoted].
  case_bool_decide as Hc; [done |]. cbn [orb]. intros H. by rewrite (IH H).
Qed.

Lemma is_blank_nonempty id : is_blank id = false → id ≠ "".
Proof. by intros H ->. Qed.

Local Abbreviation field := "clickup_task_id:" (only parsing).

(** The pattern matches at the start of the line the write-back writes,
    and captures the id. *)
Lemma match_at_task_id_line id rest :
  is_blank id = false → has_quote id = false →
  match_existing_id_at (task_id_line id +:+ rest) = Some id.
Proof.
  intros Hb Hq. unfold match_existing_id_at, task_id_line.
  change "clickup_task_id: '" with (field +:+ " '").
  rewrite !app_assoc_s, strip_prefix_app.
  rewrite !app_cons_s, !app_nil_l_s. cbn [skip_spaces].
  change (is_space "'") with false. change (is_space " ") with true.
  cbn iota. rewrite bool_decide_eq_true_2 by done.
  rewrite take_unquoted_app, Hq. cbn [take_unquoted].
  rewrite bool_decide_eq_true_2 by done. cbn [fst snd]. rewrite app_nil_r_s.
  destruct id as [|c id]; [done |]. by rewrite bool_decide_eq_true_2.
Qed.

(** A match stays a match when text is appended. *)
Lemma match_at_app s x c :
  match_existing_id_at s = Some c → match_existing_id_at (s +:+ x) = Some c.
Proof.
  unfold match_existing_id_at.
  destruct (strip_prefix field s) as [r |] eqn:Hr; [| done].
  apply strip_prefix_inv in Hr as ->.
  rewrite app_assoc_s, strip_prefix_app, skip_spaces_app.
  destruct (skip_spaces r) as [|q r'] eqn:Hskip; [done |].
  assert (is_blank r = false) as ->.
  { destruct (is_blank r) eqn:E; [| done].
    apply skip_spaces_blank in E. congruence. }
  rewrite app_cons_s. case_bool_decide as Hq; [| done].
  rewrite take_unquoted_app.
  destruct (take_unquoted r') as [captured rest] eqn:Htake.
  destruct captured as [|c1 captured]; [done |].
  destruct rest as [|c2 rest]; [done |].
  case_bool_decide as Hc2; [| done]. intros [= <-].
  assert (has_quote r' = true) as ->.
  { destruct (has_quote r') eqn:E; [done |].
    rewrite take_unquoted_no_quote in Htake by done. congruence. }
  cbn [fst snd]. rewrite app_cons_s. by rewrite bool_decide_eq_true_2.
Qed.

(** A match that starts before a line the write-back wrote either ends
    before that line, or captures text that is not blank. *)
Lemma match_at_seam s id rest c :
  match_existing_id_at (s +:+ String "010" (task_id_line id +:+ rest)) = Some c →
  match_existing_id_at s = Some c ∨ is_blank c = false.
Proof.
  unfold match_existing_id_at at 1.
  destruct (strip_prefix _ _) as [r |] eqn:Hr; [| done].
  apply strip_prefix_seam in Hr as [(r' & Hr' & ->) | (d & p2 & Hp & Hp2)].
  2: { exfalso. cbn [strip_prefix] in Hp2.
       case_bool_decide as Hd; [| done]. subst d.
       assert (has_newline field = true) as Hn; [| done].
       rewrite Hp, has_newline_app. cbn [has_newline].
       rewrite bool_decide_eq_true_2 by done. by rewrite orb_true_r. }
  rewrite skip_spaces_app.
  destruct (is_blank r') eqn:Hblank.
  { unfold task_id_line. cbn [skip_spaces].
    change (is_space "010") with true. cbn iota.
    change "clickup_task_id: '" with (String "c" "lickup_task_id: '").
    rewrite !app_cons_s. cbn [skip_spaces].
    change (is_space "c") with false. cbn iota.
    by rewrite bool_decide_eq_false_2. }
  destruct (skip_spaces r') as [|q r''] eqn:Hskip.
  { apply skip_spaces_blank in Hskip. congruence. }
  rewrite app_cons_s. case_bool_decide as Hq; [| done].
  rewrite take_unquoted_app.
  destruct (has_quote r'') eqn:Hquote.
  - destruct (take_unquoted_rest _ Hquote) as [rest' Hrest].
    destruct (take_unquoted r'') as [captured rest0] eqn:Htake.
    cbn [fst snd] in *. subst rest0. rewrite app_cons_s.
    destruct captured as [|c1 captured]; [done |].
    rewrite bool_decide_eq_true_2 by done. intros [= <-].
    left. unfold match_existing_id_at. rewrite Hr', Hskip.
    rewrite bool_decide_eq_true_2 by done. rewrite Htake.
    by rewrite bool_decide_eq_true_2.
  - unfold task_id_line. intros H. right. revert H.
    change (String "010" (("clickup_task_id: '" +:+ id +:+ "'") +:+ rest))
      with (String "010" "clickup_task_id: " +:+ String "'" ((id +:+ "'") +:+ rest)).
    rewrite take_unquoted_app.
    change (has_quote (String "010" "clickup_task_id: ")) with false. cbn iota.
    cbn [take_unquoted]. rewrite bool_decide_eq_true_2 by done.
    cbn [fst snd]. rewrite app_nil_r_s.
    destruct (r'' +:+ _) as [|c1 captured] eqn:Hcap; [done |].
    rewrite bool_decide_eq_true_2 by done. intros [= <-].
    rewrite <- Hcap, is_blank_app. by rewrite andb_false_r.
Qed.

Lemma match_existing_id_unfold s :
  match_existing_id s
  = match match_existing_id_at s with
    | Some captured => Some captured
    | None =>
        match s with
        | EmptyString => None
        | String _ rest => match_existing_id rest
        end
    end.
Proof. by destruct s. Qed.

Lemma match_existing_id_none u v :
  match_existing_id (u +:+ v) = None → match_existing_id_at v = None.
Proof.
  induction u as [|a u IH]; rewrite match_existing_id_unfold.
  - rewrite app_nil_l_s. by destruct (match_existing_id_at v).
  - rewrite app_cons_s.
    destruct (match_existing_id_at (String a (u +:+ v))); [done |]. exact IH.
Qed.

(** The leftmost match in a text that ends with a matching part. *)
Lemma match_existing_id_through p t :
  (∃ c, match_existing_id_at t = Some c ∧ is_blank c = false) →
  (∀ u v c, p = u +:+ v →
            match_existing_id_at (v +:+ String "010" t) = Some c →
            is_blank c = false) →
  ∃ c, match_existing_id (p +:+ String "010" t) = Some c ∧ is_blank c = false.
Proof.
  intros (c0 & Hc0 & Hb0). induction p as [|a p IH]; intros Hp.
  - rewrite app_nil_l_s, match_existing_id_unfold.
    destruct (match_existing_id_at (String "010" t)) as [c |] eqn:E.
    + exists c. split; [done |]. by apply (Hp "" "" c).
    + rewrite match_existing_id_unfold, Hc0. by exists c0.
  - rewrite match_existing_id_unfold.
    destruct (match_existing_id_at (String a p +:+ String "010" t))
      as [c |] eqn:E.
    + exists c. split; [done |]. by apply (Hp "" (String a p) c).
    + rewrite app_cons_s. apply IH. intros u v c -> Hc.
      by apply (Hp (String a u) v c).
Qed.

Lemma existing_task_id_nonblank content c :
  match_existing_id content = Some c → is_blank c = false →
  existing_task_id content = Some c.
Proof.
  intros Hm Hb. unfold existing_task_id. rewrite Hm.
  assert (c ≠ "") as Hne by (by intros ->).
  assert (trim c ≠ "") as Ht.
  { intros Ht. apply trim_blank in Ht. congruence. }
  apply String.eqb_neq in Hne, Ht. by rewrite Hne, Ht.
Qed.

(** After the write-back wrote its line at the start of a line of a text
    that had no match, the check finds a value. *)
Lemma existing_task_id_after_write p q id rest :
  is_blank id = false → has_quote id = false →
  match_existing_id (p +:+ q) = None →
  ∃ c, existing_task_id (p +:+ String "010" (task_id_line id +:+ rest)) = Some c.
Proof.
  intros Hb Hq Hnone.
  destruct (match_existing_id_through p (task_id_line id +:+ rest))
    as (c & Hc & Hcb).
  - exists id. split; [| done]. by apply match_at_task_id_line.
  - intros u v c -> Hc.
    destruct (match_at_seam _ _ _ _ Hc) as [Hv | Hblank]; [| done].
    apply (match_at_app _ q) in Hv.
    rewrite app_assoc_s in Hnone.
    apply match_existing_id_none in Hnone. congruence.
  - exists c. by apply existing_task_id_nonblank.
Qed.

Lemma existing_task_id_at_start id rest :
  is_blank id = false → has_quote id = false →
  existing_task_id (task_id_line id +:+ rest) = Some id.
Proof.
  intros Hb Hq. apply existing_task_id_nonblank; [| done].
  rewrite match_existing_id_unfold. by rewrite match_at_task_id_line.
Qed.

Lemma join_lines_middle before l after :
  join_lines (before ++ l :: after)
  = text_before before +:+ l +:+ text_after after.
Proof.
  induction before as [|x before IH]; cbn [app text_before].
  - rewrite app_nil_l_s. revert l.
    induction after as [|y after IHa]; intros l.
    + by rewrite app_nil_r_s.
    + rewrite join_lines_cons by done. cbn [text_after]. by rewrite IHa.
  - rewrite join_lines_cons by (by destruct before).
    by rewrite IH, app_assoc_s, app_cons_s.
Qed.

Lemma text_before_snoc xs x :
  text_before (xs ++ [x]) = (text_before xs +:+ x) +:+ String "010" "".
Proof.
  induction xs as [|y xs IH]; cbn [app text_before].
  - done.
  - by rewrite IH, !app_assoc_s, app_cons_s.
Qed.

(** In a document without a match, the lines a write-back produces make
    the check find a value. *)
Lemma existing_task_id_rewritten id content lines' :
  is_blank id = false → has_quote id = false →
  match_existing_id content = None →
  rewritten id (split_lines content) lines' →
  ∃ c, existing_task_id (join_lines lines') = Some c.
Proof.
  intros Hb Hq Hnone (before & after & H).
  rewrite <- (join_split content) in Hnone.
  destruct H as [(old & Hsplit & _ & _ & ->) | (idLine & Hsplit & _ & _ & _ & ->)].
  - rewrite Hsplit in Hnone. rewrite join_lines_middle in Hnone |- *.
    destruct before as [|x before _] using rev_ind.
    + rewrite app_nil_l_s. exists id. by apply existing_task_id_at_start.
    + rewrite text_before_snoc in Hnone |- *.
      rewrite (app_assoc_s (text_before before +:+ x)) in Hnone |- *.
      rewrite app_cons_s, app_nil_l_s.
      by eapply existing_task_id_after_write.
  - rewrite Hsplit in Hnone. rewrite join_lines_middle in Hnone.
    replace (before ++ idLine :: task_id_line id :: after)
      with ((before ++ [idLine]) ++ task_id_line id :: after)
      by (by rewrite <- app_assoc).
    rewrite join_lines_middle, text_before_snoc.
    rewrite (app_assoc_s (text_before before +:+ idLine)).
    rewrite app_cons_s, app_nil_l_s.
    rewrite <- app_assoc_s in Hnone.
    by eapply existing_task_id_after_write.
Qed.

Lemma update_reads_document specId id w content :
  document_of w specId = Some content →
  ∃ parts,
    parseSpecId specId = Some parts
    ∧ fs_files (fs w) !! spec_file_path specId parts = Some content
    ∧ updateSpecFileWithTaskId specId id w
      = rewrite_document specId id (spec_file_path specId parts) content w.
Proof.
  unfold document_of, updateSpecFileWithTaskId.
  destruct (parseSpecId specId) as [parts |]; [| done]. intros Hfile.
  exists parts. split; [done |]. split; [done |].
  unfold bind at 1. cbn [get_world]. unfold existsSync.
  rewrite Hfile. rewrite (bool_decide_eq_true_2 (is_Some (Some content))) by eauto.
  rewrite orb_true_r. cbn [negb].
  by destruct (rewrite_document _ _ _ _ w) as [[r w2] es2].
Qed.

Lemma rewrite_document_already specId id path content existing w :
  existing_task_id content = Some existing →
  rewrite_document specId id path content w
  = (Ok false, w, [Console (MsgAlreadySet existing specId)]).
Proof. intros H. unfold rewrite_document. by rewrite H. Qed.

Lemma existsb_false_Forall (p : string → bool) l :
  Forall (λ x, p x = false) l → existsb p l = false.
Proof.
  induction 1 as [| x l Hx _ IH]; [done |]. cbn [existsb]. by rewrite Hx, IH.
Qed.

Lemma rewrite_document_writes specId id path content w :
  existing_task_id content = None →
  existsb is_task_id_line (split_lines content)
  || existsb is_id_line (split_lines content) = true →
  ∃ lines',
    rewritten id (split_lines content) lines'
    ∧ rewrite_document specId id path content w
      = (Ok true,
         {| remote := remote w;
            fs := writeFileSync (fs w) path (join_lines lines') |},
         [FileWrite path (join_lines lines');
          Console (MsgWroteTaskId (existsb is_task_id_line (split_lines content))
                     id specId)]).
Proof.
  intros Hexisting Hline. unfold rewrite_document. rewrite Hexisting.
  destruct (list_find is_task_id_line (split_lines content)) as [[i old] |] eqn:Hfind.
  - apply list_find_bool_Some in Hfind as (Hsplit & Hold & Hbefore & Hlt).
    exists (<[i := task_id_line id]> (split_lines content)). split.
    + exists (take i (split_lines content)), (drop (S i) (split_lines content)).
      left. exists old. split; [done |]. split; [done |]. split; [done |].
      by rewrite insert_take_drop.
    + assert (existsb is_task_id_line (split_lines content) = true) as ->; [| done].
      apply existsb_exists. exists old. split; [| done].
      apply list_elem_of_In. rewrite Hsplit. set_solver.
  - apply list_find_bool_None in Hfind.
    rewrite (existsb_false_Forall _ _ Hfind) in Hline |- *. cbn [orb] in Hline.
    destruct (list_find is_id_line (split_lines content)) as [[i idLine] |] eqn:Hid.
    + apply list_find_bool_Some in Hid as (Hsplit & Hidl & Hbefore & Hlt).
      exists (splice_in (S i) (task_id_line id) (split_lines content)).
      split; [| done].
      exists (take i (split_lines content)), (drop (S i) (split_lines content)).
      right. exists idLine. do 4 (split; [done |]).
      unfold splice_in.
      rewrite (take_S_r _ _ idLine)
        by (rewrite Hsplit at 1; rewrite lookup_app_r, length_take;
            [by replace (i - i `min` _)%nat with 0%nat by lia
            | rewrite length_take; lia]).
      by rewrite <- app_assoc.
    + apply list_find_bool_None in Hid.
      by rewrite (existsb_false_Forall _ _ Hid) in Hline.
Qed.

Lemma rewritten_lines id lines lines' :
  rewritten id lines lines' →
  task_id_line id ∈ lines'
  ∧ (Forall (λ l, has_newline l = false) lines → has_newline id = false →
     Forall (λ l, has_newline l = false) lines').
Proof.
  intros (before & after & [(old & -> & _ & _ & ->) | (idLine & -> & _ & _ & _ & ->)]).
  - split; [set_solver |]. intros H Hid.
    apply Forall_app in H as [Hb Ha]. inversion Ha; subst.
    apply Forall_app. split; [done |]. constructor; [| done].
    by rewrite has_newline_task_id_line.
  - split; [set_solver |]. intros H Hid.
    apply Forall_app in H as [Hb Ha]. inversion Ha; subst.
    apply Forall_app. split; [done |]. constructor; [done |].
    constructor; [| done]. by rewrite has_newline_task_id_line.
Qed.

(** C9: a write-back that writes the file changes one thing in its
    lines: it replaces the first line that starts with [clickup_task_id:],
    or, when no line does, it puts the new line right after the first
    [id:] line; the lines before and after are the original ones, in
    their order.  A write-back that does not write changes nothing. *)
Theorem write_back_keeps_other_lines specId clickupTaskId w :
  ∃ r w' es,
    updateSpecFileWithTaskId specId clickupTaskId w = (Ok r, w', es)
    ∧ remote w' = remote w
    ∧ fs_dirs (fs w') = fs_dirs (fs w)
    ∧ existsb is_file_write es = r
    ∧ if existsb is_file_write es then
        ∃ content lines' written,
          document_of w specId = Some content
          ∧ document_of w' specId = Some written
          ∧ written = join_lines lines'
          ∧ rewritten clickupTaskId (split_lines content) lines'
          ∧ (if has_newline clickupTaskId then True
             else split_lines written = lines')
      else w' = w.
Proof.
  destruct (updateSpecFileWithTaskId_cases specId clickupTaskId w)
    as (r & w' & es & E & Hr & Hd & H).
  exists r, w', es. split; [done |]. split; [done |]. split; [done |].
  destruct r.
  - destruct H as (parts & content & lines' & Hp & Hf & _ & Hrw & Hfiles & ->).
    split; [done |]. cbn [existsb is_file_write orb].
    exists content, lines', (join_lines lines').
    unfold document_of. rewrite Hp, Hfiles, lookup_insert_eq.
    split; [done |]. split; [done |]. split; [done |]. split; [done |].
    destruct (has_newline clickupTaskId) eqn:Hn; [done |].
    destruct (rewritten_lines _ _ _ Hrw) as [Hin Hall].
    apply split_join; [by intros -> ; apply elem_of_nil in Hin |].
    apply Hall; [apply split_lines_no_newline | done].
  - destruct H as (-> & m & ->). done.
Qed.




(** ** The end-to-end scenario *)



(** ** The program logic *)

Section Hoare.
Context {A B : Type}.
Implicit Types (P : World → Prop) (E : Event → Prop) (R : World → Prop).

Lemma hoare_ret P E (a : A) (Q : A → World → Prop) R :
  (∀ w, P w → Q a w) → hoare P E (ret a) Q R.
Proof. intros H w Hw. cbn. split; [by apply H | constructor]. Qed.

Lemma hoare_bind P E (m : M A) (k : A → M B) (Q1 : A → World → Prop)
    (Q2 : B → World → Prop) R :
  hoare P E m Q1 R → (∀ a, hoare (Q1 a) E (k a) Q2 R) →
  hoare P E (bind m k) Q2 R.
Proof.
  intros Hm Hk w Hw. specialize (Hm w Hw). unfold bind.
  destruct (m w) as [[[a | e] w1] es1]; [| done].
  destruct Hm as [HQ1 HE1]. specialize (Hk a w1 HQ1).
  destruct (k a w1) as [[[b | e] w2] es2]; destruct Hk as [HQ2 HE2];
    (split; [done | by apply Forall_app]).
Qed.

Lemma hoare_consequence (P P' : World → Prop) E (m : M A)
    (Q Q' : A → World → Prop) R :
  hoare P' E m Q' R → (∀ w, P w → P' w) → (∀ a w, Q' a w → Q a w) →
  hoare P E m Q R.
Proof.
  intros Hm HP HQ w Hw. specialize (Hm w (HP w Hw)).
  destruct (m w) as [[[a | e] w1] es1]; [| done].
  destruct Hm. split; [by apply HQ | done].
Qed.

Lemma hoare_throw P E (e : Error) (Q : A → World → Prop) R :
  (∀ w, P w → R w) → hoare P E (throw e) Q R.
Proof. intros H w Hw. cbn. split; [by apply H | constructor]. Qed.

End Hoare.

Lemma hoare_emit P E (e : Event) (Q : unit → World → Prop) R :
  E e → (∀ w, P w → Q tt w) → hoare P E (emit e) Q R.
Proof. intros He H w Hw. cbn. split; [by apply H | by repeat constructor]. Qed.

Lemma hoare_get_world P E (Q : World → World → Prop) R :
  (∀ w, P w → Q w w) → hoare P E get_world Q R.
Proof. intros H w Hw. cbn. split; [by apply H | constructor]. Qed.

Lemma hoare_when P E (c : bool) (m : M unit) (Q : unit → World → Prop) R :
  (c = true → hoare P E m Q R) → (c = false → ∀ w, P w → Q tt w) →
  hoare P E (when c m) Q R.
Proof.
  destruct c; cbn [when]; intros Ht Hf; [by apply Ht |].
  apply hoare_ret. by apply Hf.
Qed.

Lemma hoare_for_each {A} (I : World → Prop) E (xs : list A) (body : A → M unit) R :
  (∀ x, x ∈ xs → hoare I E (body x) (λ _, I) R) →
  hoare I E (for_each xs body) (λ _, I) R.
Proof.
  induction xs as [| x xs IH]; intros H; cbn [for_each].
  - by apply hoare_ret.
  - eapply hoare_bind; [apply H; left |].
    intros []. apply IH. intros y Hy. apply H. by right.
Qed.

(** ** Dry runs change nothing *)

Lemma quiet_ret {A} (a : A) : quiet (ret a).
Proof. intros w0. by apply hoare_ret. Qed.

Lemma quiet_bind {A B} (m : M A) (k : A → M B) :
  quiet m → (∀ a, quiet (k a)) → quiet (bind m k).
Proof.
  intros Hm Hk w0. eapply hoare_bind; [apply Hm |]. intros a. apply Hk.
Qed.

Lemma quiet_throw {A} (e : Error) : quiet (@throw A e).
Proof. intros w0. by apply hoare_throw. Qed.

Lemma quiet_console (m : Message) : quiet (console m).
Proof. intros w0. by apply hoare_emit. Qed.

Lemma quiet_get_world : quiet get_world.
Proof. intros w0. by apply hoare_get_world. Qed.

Lemma quiet_when (c : bool) (m : M unit) : quiet m → quiet (when c m).
Proof. intros Hm. destruct c; [done | apply quiet_ret]. Qed.

Lemma quiet_for_each {A} (xs : list A) (body : A → M unit) :
  (∀ x, quiet (body x)) → quiet (for_each xs body).
Proof. intros H w0. apply hoare_for_each. intros x _. apply H. Qed.

Lemma quiet_getFolders spaceId : quiet (getFolders spaceId).
Proof. intros w0 w ->. cbn. by repeat constructor. Qed.

Lemma quiet_getLists folderId : quiet (getLists folderId).
Proof. intros w0 w ->. cbn. by repeat constructor. Qed.

Lemma quiet_getTasks listId : quiet (getTasks listId).
Proof. intros w0 w ->. cbn. by repeat constructor. Qed.

Lemma quiet_readdirSync dir : quiet (readdirSync dir).
Proof.
  intros w0 w ->. unfold readdirSync.
  destruct (fs_dirs (fs w0) !! dir); by repeat constructor.
Qed.

Local Ltac quiet_step :=
  first
    [ apply quiet_ret | apply quiet_console | apply quiet_get_world
    | apply quiet_throw | apply quiet_getFolders | apply quiet_getLists
    | apply quiet_getTasks | apply quiet_readdirSync
    | apply quiet_bind; [| intros ?]
    | apply quiet_for_each; intros ?
    | apply quiet_when
    | lazymatch goal with
      | |- quiet (if true then ?a else _) => change (quiet a)
      | |- quiet (match ?x with _ => _ end) => destruct x
      end ].

Lemma quiet_findFolder spaceId name : quiet (findFolder spaceId name).
Proof. unfold findFolder. repeat quiet_step. Qed.

Lemma quiet_findList folderId name : quiet (findList folderId name).
Proof. unfold findList. repeat quiet_step. Qed.

Lemma quiet_findTaskByCustomId listId customId :
  quiet (findTaskByCustomId listId customId).
Proof. unfold findTaskByCustomId. repeat quiet_step. Qed.

Lemma quiet_findSubtaskByCustomId listId customId :
  quiet (findSubtaskByCustomId listId customId).
Proof. unfold findSubtaskByCustomId. repeat quiet_step. Qed.

Lemma quiet_child_ids_if_exists letter parentId dir :
  quiet (child_ids_if_exists letter parentId dir).
Proof. unfold child_ids_if_exists. repeat quiet_step. Qed.

Lemma quiet_subtask_dirs taskId : quiet (subtask_dirs taskId).
Proof.
  unfold subtask_dirs.
  repeat first [apply quiet_child_ids_if_exists | quiet_step].
Qed.

Lemma quiet_reconcile_name lvl existing expectedName :
  quiet (reconcile_name lvl true existing expectedName).
Proof. unfold reconcile_name. repeat quiet_step. Qed.

Lemma quiet_reconcile_status lvl existing newStatus :
  quiet (reconcile_status lvl true existing newStatus).
Proof. unfold reconcile_status. repeat quiet_step. Qed.

Lemma quiet_sync_child lvl listId parentId childId allSpecs :
  quiet (sync_child lvl listId parentId childId allSpecs true).
Proof.
  unfold sync_child.
  repeat first [ apply quiet_findSubtaskByCustomId | apply quiet_reconcile_name
               | apply quiet_reconcile_status | quiet_step ].
Qed.

Lemma quiet_syncTask listId taskId allSpecs :
  quiet (syncTask listId taskId allSpecs true).
Proof.
  unfold syncTask.
  repeat first [ apply quiet_findTaskByCustomId | apply quiet_reconcile_name
               | apply quiet_reconcile_status | apply quiet_subtask_dirs
               | apply quiet_sync_child | quiet_step ].
Qed.

Lemma quiet_syncFeature folderId featureId allSpecs :
  quiet (syncFeature folderId featureId allSpecs true).
Proof.
  unfold syncFeature, feature_tasks.
  repeat first [ apply quiet_findList | apply quiet_child_ids_if_exists
               | apply quiet_syncTask | quiet_step ].
Qed.

Lemma quiet_syncEpic spaceId epicId allSpecs :
  quiet (syncEpic spaceId epicId allSpecs true).
Proof.
  unfold syncEpic.
  repeat first [ apply quiet_findFolder | apply quiet_syncFeature | quiet_step ].
Qed.

(** ** The steps on an existing item *)

Lemma reconcile_name_run lvl dryRun existing expectedName w :
  reconcile_name lvl dryRun existing expectedName w
  = if String.eqb (task_name existing) expectedName then (Ok tt, w, [])
    else if dryRun then
      (Ok tt, w,
       [Console (MsgWouldUpdateName lvl (task_name existing) expectedName)])
    else
      (Ok tt, updated (task_id existing) (update_name expectedName) w,
       [Console (MsgUpdatingName lvl (task_name existing) expectedName);
        Call (UpdateTask (task_id existing) (update_name expectedName));
        Console (MsgNameUpdated lvl)]).
Proof.
  unfold reconcile_name.
  destruct (String.eqb _ _); [done |]. by destruct dryRun.
Qed.

Lemma reconcile_status_run lvl dryRun existing newStatus w :
  reconcile_status lvl dryRun existing newStatus w
  = let current := task_status existing in
    if bool_decide (Val current = newStatus) then (Ok tt, w, [])
    else if isStatusDowngrade (Val current) newStatus then
      (Ok tt, w, [Console (MsgSkippingDowngrade lvl current newStatus)])
    else if dryRun then
      (Ok tt, w, [Console (MsgWouldUpdateStatus lvl current newStatus)])
    else
      (Ok tt, updated (task_id existing) (update_status newStatus) w,
       [Console (MsgUpdatingStatus lvl current newStatus);
        Call (UpdateTask (task_id existing) (update_status newStatus));
        Console (MsgStatusUpdated lvl newStatus)]).
Proof.
  unfold reconcile_status. cbv zeta.
  destruct (bool_decide _); [done |].
  destruct (isStatusDowngrade _ _); [done |]. by destruct dryRun.
Qed.

Lemma bind_run {A B} (m : M A) (k : A → M B) w a w1 es1 :
  m w = (Ok a, w1, es1) →
  bind m k w = let '(r, w2, es2) := k a w1 in (r, w2, es1 ++ es2).
Proof. intros H. unfold bind. by rewrite H. Qed.

Lemma sync_child_existing lvl listId parentId childId allSpecs dryRun w
    childData existing :
  allSpecs !! childId = Some childData →
  find_by_custom_id (tasks_of (remote w) listId) childId = Some existing →
  sync_child lvl listId parentId childId allSpecs dryRun w
  = let '(_, w1, es1) :=
      reconcile_name lvl dryRun existing
        (item_name childId (metadata childData)) w in
    let '(r, w2, es2) :=
      reconcile_status lvl dryRun existing
        (mapStatusToClickUp (status (metadata childData))) w1 in
    (r, w2,
     [Call (GetTasks listId);
      Console (MsgExists lvl childId (title (metadata childData)))]
       ++ es1 ++ es2).
Proof.
  intros Hspec Hfind. unfold sync_child. rewrite Hspec.
  unfold findSubtaskByCustomId.
  erewrite bind_run; [| unfold bind, getTasks; cbn; by rewrite Hfind].
  cbv zeta. unfold bind at 1. cbn [console emit].
  rewrite reconcile_name_run.
  unfold bind at 1. rewrite reconcile_name_run.
  destruct (String.eqb _ _); [| destruct dryRun];
    by destruct (reconcile_status _ _ _ _ _) as [[[] ?] ?].
Qed.

Lemma sync_child_missing lvl listId parentId childId allSpecs dryRun w :
  allSpecs !! childId = None →
  sync_child lvl listId parentId childId allSpecs dryRun w
  = (Ok tt, w, [Console (MsgSpecNotFound lvl childId)]).
Proof. intros H. unfold sync_child. by rewrite H. Qed.

Lemma sync_child_dry_absent lvl listId parentId childId allSpecs w childData :
  allSpecs !! childId = Some childData →
  find_by_custom_id (tasks_of (remote w) listId) childId = None →
  sync_child lvl listId parentId childId allSpecs true w
  = (Ok tt, w,
     [Call (GetTasks listId);
      Console (MsgWouldCreate lvl childId (title (metadata childData)))]).
Proof.
  intros Hspec Hfind. unfold sync_child. rewrite Hspec.
  unfold findSubtaskByCustomId.
  erewrite bind_run; [| unfold bind, getTasks; cbn; by rewrite Hfind].
  done.
Qed.

(** The write-back performs no remote action. *)
Lemma updateSpecFileWithTaskId_run specId id w :
  ∃ r w' es,
    updateSpecFileWithTaskId specId id w = (Ok r, w', es)
    ∧ remote w' = remote w
    ∧ fs_dirs (fs w') = fs_dirs (fs w)
    ∧ Forall (λ e, match e with Call _ => False | _ => True end) es.
Proof.
  destruct (updateSpecFileWithTaskId_cases specId id w)
    as (r & w' & es & E & Hr & Hd & H).
  exists r, w', es. split; [done |]. split; [done |]. split; [done |].
  destruct r.
  - destruct H as (? & ? & ? & _ & _ & _ & _ & _ & ->). by repeat constructor.
  - destruct H as (_ & m & ->). by repeat constructor.
Qed.

Lemma actions_no_call es :
  Forall (λ e, match e with Call _ => False | _ => True end) es →
  actions es = [].
Proof.
  induction 1 as [| e es He _ IH]; [done |].
  unfold actions in *. cbn [mbind list_bind]. change (foldr _ _ ?l) with (actions l).
  destruct e; [done | |]; by rewrite IH.
Qed.

Lemma sync_child_live_absent lvl listId parentId childId allSpecs w childData :
  allSpecs !! childId = Some childData →
  find_by_custom_id (tasks_of (remote w) listId) childId = None →
  ∃ w' es,
    sync_child lvl listId parentId childId allSpecs false w = (Ok tt, w', es)
    ∧ actions es = [ACreateItem (item_name childId (metadata childData));
                    AUpdateParent parentId].
Proof.
  intros Hspec Hfind. unfold sync_child. rewrite Hspec.
  unfold findSubtaskByCustomId.
  erewrite bind_run; [| unfold bind, getTasks; cbn; by rewrite Hfind].
  cbv zeta. cbv iota.
  unfold bind at 1. cbn [console emit].
  unfold bind at 1. cbn [createTask].
  unfold bind at 1. cbn [console emit].
  unfold bind at 1. cbn [updateTask].
  unfold bind at 1. cbn [console emit].
  unfold bind at 1.
  match goal with
  | |- context [updateSpecFileWithTaskId ?s ?i ?w0] =>
      destruct (updateSpecFileWithTaskId_run s i w0)
        as (r & w' & es & -> & _ & _ & Hes)
  end.
  cbn [ret]. eexists _, _. split; [reflexivity |].
  unfold actions. rewrite !bind_app. cbn [mbind list_bind foldr performed].
  fold (actions es). rewrite (actions_no_call es Hes). done.
Qed.

(** ** The downgrade guard in the engine *)

Lemma task_ids_updated id upd w :
  task_ids (remote (updated id upd w)) = task_ids (remote w).
Proof.
  unfold task_ids, updated. cbn. rewrite <- list_fmap_compose.
  apply list_fmap_ext. intros i [l t] _. cbn. unfold update_in. cbn.
  by destruct (String.eqb _ _).
Qed.

Lemma elem_of_updated id upd w p' :
  p' ∈ r_tasks (remote (updated id upd w)) →
  ∃ p, p ∈ r_tasks (remote w) ∧ p' = update_in id upd p.
Proof.
  unfold updated. cbn. intros H.
  apply list_elem_of_fmap in H as (p & -> & Hp). by exists p.
Qed.

Lemma fs_updated id upd w : fs (updated id upd w) = fs w.
Proof. done. Qed.

Lemma task_id_update_in id upd p : task_id (update_in id upd p).2 = task_id p.2.
Proof. unfold update_in. by destruct (String.eqb _ _). Qed.

Lemma update_in_other id upd p : task_id p.2 ≠ id → update_in id upd p = p.
Proof.
  intros H. unfold update_in.
  by destruct (String.eqb_spec (task_id p.2) id).
Qed.

(** An update of another item keeps the invariant. *)
Lemma task_inv_updated_other tid taskId id upd w :
  id ≠ tid → task_inv tid taskId w → task_inv tid taskId (updated id upd w).
Proof.
  intros Hne (Hnd & Hin & Hall). unfold task_inv.
  rewrite task_ids_updated. split; [done |]. split; [done |].
  intros p' Hp' Hid. apply elem_of_updated in Hp' as (p & Hp & ->).
  rewrite task_id_update_in in Hid.
  rewrite update_in_other by congruence. by apply Hall.
Qed.

(** An update of a parent link keeps it too, whatever the item. *)
Lemma task_inv_updated_parent tid taskId id parent w :
  task_inv tid taskId w →
  task_inv tid taskId (updated id (update_parent parent) w).
Proof.
  intros (Hnd & Hin & Hall). unfold task_inv.
  rewrite task_ids_updated. split; [done |]. split; [done |].
  intros p' Hp' Hid. apply elem_of_updated in Hp' as (p & Hp & ->).
  rewrite task_id_update_in in Hid. specialize (Hall p Hp Hid).
  unfold update_in. by destruct (String.eqb _ _).
Qed.

Lemma task_inv_created tid taskId listId data w :
  task_inv tid taskId w → task_inv tid taskId (createTask listId data w).1.2.
Proof.
  intros (Hnd & Hin & Hall). unfold task_inv, task_ids. cbn.
  rewrite fmap_app. cbn.
  pose proof (infinite_is_fresh (task_id ∘ snd <$> r_tasks (remote w))) as Hfresh.
  fold (task_ids (remote w)) in *.
  split.
  { apply NoDup_app. split; [done |]. split; [| apply NoDup_singleton].
    intros x Hx Hx'. apply list_elem_of_singleton in Hx'. by subst x. }
  split; [apply elem_of_app; by left |].
  intros p Hp Hid. apply elem_of_app in Hp as [Hp | Hp]; [by apply Hall |].
  apply list_elem_of_singleton in Hp. subst p. cbn in Hid.
  exfalso. apply Hfresh. by rewrite Hid.
Qed.

Lemma task_inv_same_remote tid taskId w w' :
  remote w' = remote w → task_inv tid taskId w → task_inv tid taskId w'.
Proof. unfold task_inv. by intros ->. Qed.

(** No name starts with both [a:] and [a-n:]. *)
Lemma prefix_conflict a n name :
  startsWith name (a +:+ ":") = true →
  startsWith name ((a +:+ "-" +:+ n) +:+ ":") = true → False.
Proof.
  unfold startsWith. intros H1 H2.
  apply prefix_inv in H1 as [r1 ->]. apply prefix_inv in H2 as [r2 H2].
  rewrite !app_assoc_s in H2. apply String.app_inj in H2.
  by rewrite !app_cons_s in H2.
Qed.

Lemma elem_of_tasks_of r listId t :
  t ∈ tasks_of r listId → ∃ p, p ∈ r_tasks r ∧ p.2 = t ∧ p.1 = listId.
Proof.
  unfold tasks_of. intros H.
  apply list_elem_of_fmap in H as (p & -> & Hp).
  apply list_elem_of_filter in Hp as [Hl Hp]. by exists p.
Qed.

(** Under the invariant, the item found for a subtask id is not the
    task's item. *)
Lemma found_child_is_other tid taskId n listId w child :
  task_inv tid taskId w →
  find_by_custom_id (tasks_of (remote w) listId) (taskId +:+ "-" +:+ n)
  = Some child →
  task_id child ≠ tid.
Proof.
  intros (_ & _ & Hall) Hfind Hid.
  apply find_by_custom_id_Some in Hfind as [Hin Hname].
  apply elem_of_tasks_of in Hin as (p & Hp & <- & _).
  destruct (Hall p Hp Hid) as [_ Hname'].
  by eapply prefix_conflict.
Qed.

Lemma spares_status_other tid id upd :
  id ≠ tid → spares_status tid (Call (UpdateTask id upd)).
Proof. intros Hne upd' [= ? ?]. congruence. Qed.

Lemma spares_status_console tid m : spares_status tid (Console m).
Proof. by intros upd. Qed.

Lemma spares_status_no_call tid es :
  Forall (λ e, match e with Call _ => False | _ => True end) es →
  Forall (spares_status tid) es.
Proof.
  intros H. eapply Forall_impl; [exact H |]. intros e He upd ->. done.
Qed.

(** One round of the subtask loop keeps the invariant and sends no
    status update to the task's item. *)
Lemma sync_child_keeps_task lvl tid taskId n listId parentId allSpecs dryRun :
  hoare (task_inv tid taskId) (spares_status tid)
        (sync_child lvl listId parentId (taskId +:+ "-" +:+ n) allSpecs dryRun)
        (λ _, task_inv tid taskId) (λ _, False).
Proof.
  intros w Hinv.
  destruct (allSpecs !! (taskId +:+ "-" +:+ n)) as [childData |] eqn:Hspec.
  2: { rewrite sync_child_missing by done. split; [done |].
       repeat constructor. apply spares_status_console. }
  destruct (find_by_custom_id (tasks_of (remote w) listId) (taskId +:+ "-" +:+ n))
    as [child |] eqn:Hfind.
  - pose proof (found_child_is_other _ _ _ _ _ _ Hinv Hfind) as Hne.
    rewrite (sync_child_existing _ _ _ _ _ _ _ _ _ Hspec Hfind).
    rewrite reconcile_name_run.
    set (w1 := updated (task_id child) (update_name _) w).
    assert (task_inv tid taskId w1) as Hinv1 by by apply task_inv_updated_other.
    assert (∀ w0 es0, task_inv tid taskId w0 → Forall (spares_status tid) es0 →
              match
                (let '(r, w2, es2) :=
                   reconcile_status lvl dryRun child
                     (mapStatusToClickUp (status (metadata childData))) w0 in
                 (r, w2,
                  [Call (GetTasks listId);
                   Console (MsgExists lvl (taskId +:+ "-" +:+ n)
                              (title (metadata childData)))]
                    ++ es0 ++ es2))
              with
              | (Ok _, w', es) => task_inv tid taskId w'
                                  ∧ Forall (spares_status tid) es
              | (Throw _, w', es) => False ∧ Forall (spares_status tid) es
              end) as Hstatus.
    { intros w0 es0 Hw0 Hes0. rewrite reconcile_status_run. cbv zeta.
      assert (Forall (spares_status tid)
                [Call (GetTasks listId);
                 Console (MsgExists lvl (taskId +:+ "-" +:+ n)
                            (title (metadata childData)))]) as Hhead.
      { repeat constructor; by intros upd. }
      destruct (bool_decide _); [| destruct (isStatusDowngrade _ _);
                                   [| destruct dryRun]];
        (split; [try done; by apply task_inv_updated_other |]);
        apply Forall_app; (split; [done |]); apply Forall_app;
        (split; [done |]); repeat constructor;
        try apply spares_status_console; by apply spares_status_other. }
    destruct (String.eqb _ _); [| destruct dryRun]; apply Hstatus; try done;
      repeat constructor; try apply spares_status_console;
      by apply spares_status_other.
  - destruct dryRun.
    + rewrite (sync_child_dry_absent _ _ _ _ _ _ _ Hspec Hfind).
      split; [done |]. repeat constructor; by intros upd.
    + unfold sync_child. rewrite Hspec. unfold findSubtaskByCustomId.
      erewrite bind_run; [| unfold bind, getTasks; cbn; by rewrite Hfind].
      cbv zeta. cbv iota.
      unfold bind at 1. cbn [console emit].
      unfold bind at 1.
      destruct (createTask listId _ w) as [[r1 w1] es1] eqn:Hcreate.
      pose proof (task_inv_created tid taskId listId
                    (task_data (taskId +:+ "-" +:+ n) childData) w Hinv) as Hinv1.
      rewrite Hcreate in Hinv1. cbn [fst snd] in Hinv1.
      unfold createTask in Hcreate. injection Hcreate as <- <- <-.
      unfold bind at 1. cbn [console emit].
      unfold bind at 1. cbn [updateTask].
      unfold bind at 1. cbn [console emit].
      unfold bind at 1.
      match goal with
      | |- context [updateSpecFileWithTaskId ?s ?i ?w0] =>
          pose proof (task_inv_updated_parent tid taskId
                        (task_id (new_task
                           (fresh (task_id ∘ snd <$> r_tasks (remote w)))
                           (r_default_status (remote w))
                           (task_data (taskId +:+ "-" +:+ n) childData)))
                        parentId _ Hinv1) as Hinv2;
          destruct (updateSpecFileWithTaskId_run s i w0)
            as (r & w' & es & -> & Hrem & _ & Hes)
      end.
      cbn [ret]. split.
      * eapply task_inv_same_remote; [exact Hrem |]. exact Hinv2.
      * repeat (apply Forall_cons; split; [by intros upd |]).
        apply Forall_cons. split.
        { intros upd [= Hid <-]. done. }
        apply Forall_cons. split; [by intros upd |].
        rewrite app_nil_r. by apply spares_status_no_call.
Qed.

(** ** Subtask directories *)

Lemma child_ids_form letter parentId entries :
  Forall (λ x, ∃ n, x = parentId +:+ "-" +:+ n) (child_ids letter parentId entries).
Proof.
  unfold child_ids, sort_strings. apply Forall_forall. intros x Hx.
  rewrite merge_sort_Permutation in Hx.
  apply list_elem_of_fmap in Hx as (entry & -> & _). by eexists.
Qed.

Lemma child_ids_if_exists_run letter parentId dir w :
  ∃ r, child_ids_if_exists letter parentId dir w = (r, w, [])
       ∧ ∀ dirs, r = Ok dirs →
                 Forall (λ x, ∃ n, x = parentId +:+ "-" +:+ n) dirs.
Proof.
  unfold child_ids_if_exists, bind, get_world, readdirSync.
  destruct (existsSync (fs w) dir) eqn:Hex.
  - rewrite Hex. destruct (fs_dirs (fs w) !! dir) as [entries |].
    + eexists. split; [reflexivity |]. intros dirs [= <-]. apply child_ids_form.
    + by eexists.
  - eexists. split; [reflexivity |]. by intros dirs [= <-].
Qed.

Lemma subtask_dirs_run taskId w :
  ∃ r, subtask_dirs taskId w = (r, w, [])
       ∧ ∀ dirs, r = Ok dirs → Forall (λ x, ∃ n, x = taskId +:+ "-" +:+ n) dirs.
Proof.
  unfold subtask_dirs.
  destruct (parseSpecId taskId) as [parts |].
  - destruct (task parts) as [t |]; [apply child_ids_if_exists_run |].
    eexists. split; [reflexivity |]. by intros dirs [= <-].
  - eexists. split; [reflexivity |]. by intros dirs [= <-].
Qed.

Lemma subtask_dirs_fs taskId w w' :
  fs w' = fs w → (subtask_dirs taskId w').1.1 = (subtask_dirs taskId w).1.1.
Proof.
  intros Hfs. unfold subtask_dirs.
  destruct (parseSpecId taskId) as [parts |]; [| done].
  destruct (task parts) as [t |]; [| done].
  destruct w as [r f], w' as [r' f']. cbn [fs] in Hfs. subst f'.
  unfold child_ids_if_exists, bind, get_world, readdirSync. cbn [fs].
  set (dir := path_join _).
  destruct (existsSync f dir); [| done]. cbn [fs].
  destruct (fs_dirs f !! dir); [done |]. cbn [fs].
  by destruct (existsSync f dir).
Qed.

(** ** Computations that never throw *)

Lemma safe_ret {A} (a : A) : safe (ret a).
Proof. by apply hoare_ret. Qed.

Lemma safe_bind {A B} (m : M A) (k : A → M B) :
  safe m → (∀ a, safe (k a)) → safe (bind m k).
Proof.
  intros Hm Hk. eapply hoare_bind; [apply Hm |].
  intros a. eapply hoare_consequence; [apply (Hk a) | done | done].
Qed.

Lemma safe_console m : safe (console m).
Proof. by apply hoare_emit. Qed.

Lemma safe_when c m : safe m → safe (when c m).
Proof. intros H. destruct c; [done | apply safe_ret]. Qed.

Lemma safe_for_each {A} (xs : list A) (body : A → M unit) :
  (∀ x, safe (body x)) → safe (for_each xs body).
Proof.
  intros H. eapply hoare_consequence;
    [apply (hoare_for_each (λ _, True)); intros x _; apply H | done | done].
Qed.

Lemma safe_run {A} (m : M A) w : safe m → ∃ a w' es, m w = (Ok a, w', es).
Proof.
  intros H. specialize (H w I).
  destruct (m w) as [[[a | e] w'] es]; [by eexists _, _, _ | by destruct H].
Qed.

Lemma safe_of_run {A} (m : M A) :
  (∀ w, ∃ a w' es, m w = (Ok a, w', es)) → safe m.
Proof.
  intros H w _. destruct (H w) as (a & w' & es & ->). split; [done |].
  by apply Forall_true.
Qed.

Lemma safe_sync_child lvl listId parentId childId allSpecs dryRun :
  safe (sync_child lvl listId parentId childId allSpecs dryRun).
Proof.
  apply safe_of_run. intros w.
  destruct (allSpecs !! childId) as [childData |] eqn:Hspec.
  2: { rewrite sync_child_missing by done. by eexists _, _, _. }
  destruct (find_by_custom_id (tasks_of (remote w) listId) childId)
    as [child |] eqn:Hfind.
  - rewrite (sync_child_existing _ _ _ _ _ _ _ _ _ Hspec Hfind).
    rewrite reconcile_name_run.
    destruct (String.eqb _ _); [| destruct dryRun];
      rewrite reconcile_status_run; cbv zeta;
      destruct (bool_decide _); try destruct (isStatusDowngrade _ _);
      try destruct dryRun; by eexists _, _, _.
  - destruct dryRun.
    + rewrite (sync_child_dry_absent _ _ _ _ _ _ _ Hspec Hfind).
      by eexists _, _, _.
    + destruct (sync_child_live_absent lvl listId parentId childId allSpecs w
                  childData Hspec Hfind) as (w' & es & -> & _).
      by eexists _, _, _.
Qed.

(** ** A task that exists remotely *)

Lemma reconcile_name_effect lvl dryRun existing expectedName w :
  ∃ w1 es1,
    reconcile_name lvl dryRun existing expectedName w = (Ok tt, w1, es1)
    ∧ fs w1 = fs w
    ∧ (w1 = w ∨ w1 = updated (task_id existing) (update_name expectedName) w)
    ∧ Forall (λ e, ∀ i u, e = Call (UpdateTask i u) →
                          i = task_id existing ∧ u = update_name expectedName)
             es1.
Proof.
  rewrite reconcile_name_run.
  destruct (String.eqb _ _); [| destruct dryRun]; eexists _, _;
    (split; [reflexivity |]); (split; [done |]); (split; [by auto |]);
    repeat constructor; try done; congruence.
Qed.

Lemma syncTask_existing listId taskId allSpecs dryRun w taskData existing :
  allSpecs !! taskId = Some taskData →
  find_by_custom_id (tasks_of (remote w) listId) taskId = Some existing →
  let head := [Call (GetTasks listId);
               Console (MsgExists ITask taskId (title (metadata taskData)))] in
  let newStatus := mapStatusToClickUp (status (metadata taskData)) in
  ∃ w1 es1,
    reconcile_name ITask dryRun existing (item_name taskId (metadata taskData)) w
    = (Ok tt, w1, es1)
    ∧ syncTask listId taskId allSpecs dryRun w
      = match (subtask_dirs taskId w).1.1 with
        | Throw e => (Throw e, w1, head ++ es1)
        | Ok dirs =>
            match for_each dirs
                    (λ subtaskId,
                       syncSubtask listId (task_id existing) subtaskId
                         allSpecs dryRun) w1
            with
            | (Ok _, w2, es2) =>
                let '(r, w3, es3) :=
                  reconcile_status ITask dryRun existing
                    (target_status allSpecs dirs newStatus) w2 in
                (r, w3,
                 head ++ es1 ++ es2
                   ++ (if promotes allSpecs dirs newStatus
                       then [Console (MsgPromoting (length dirs))] else [])
                   ++ es3)
            | (Throw e, w2, es2) => (Throw e, w2, head ++ es1 ++ es2)
            end
        end.
Proof.
  intros Hspec Hfind head newStatus.
  destruct (reconcile_name_effect ITask dryRun existing
              (item_name taskId (metadata taskData)) w)
    as (w1 & es1 & Hname & Hfs & _ & _).
  exists w1, es1. split; [done |].
  unfold syncTask. rewrite Hspec. unfold findTaskByCustomId.
  erewrite bind_run; [| unfold bind, getTasks; cbn; by rewrite Hfind].
  cbv zeta. unfold bind at 1. cbn [console emit].
  unfold bind at 1. rewrite Hname.
  unfold bind at 1.
  destruct (subtask_dirs_run taskId w1) as (r & Hdirs & _).
  rewrite <- (subtask_dirs_fs taskId w w1 Hfs). rewrite Hdirs. cbn [fst].
  destruct r as [dirs | e]; [| by rewrite app_nil_r].
  unfold bind at 1.
  destruct (for_each dirs _ w1) as [[[[] | e] w2] es2]; [| done].
  unfold bind at 1. fold newStatus.
  destruct (promotes allSpecs dirs newStatus); cbn [when console emit ret];
    destruct (reconcile_status _ _ _ _ w2) as [[r3 w3] es3]; done.
Qed.

Lemma isStatusDowngrade_to_complete (current : indexed string) :
  isStatusDowngrade current (Val "COMPLETE") = false.
Proof.
  unfold isStatusDowngrade.
  destruct (bool_decide _ || bool_decide _); [done |]. cbv zeta.
  pose proof (getStatusPriority_range current) as H.
  destruct (getStatusPriority current); [| done].
  change (getStatusPriority (Val "COMPLETE")) with (@Val Z 7).
  cbn [Js.gt]. lia.
Qed.

Lemma isStatusDowngrade_same (s : indexed string) : isStatusDowngrade s s = false.
Proof.
  unfold isStatusDowngrade.
  destruct (bool_decide _ || bool_decide _); [done |]. cbv zeta.
  destruct (getStatusPriority s); [| done]. cbn [Js.gt]. lia.
Qed.

Lemma allChildrenComplete_Forall allSpecs dirs :
  Forall (λ subtaskId,
            ∃ d, allSpecs !! subtaskId = Some d
                 ∧ mapStatusToClickUp (status (metadata d)) = Val "COMPLETE") dirs →
  allChildrenComplete allSpecs dirs = true.
Proof.
  induction 1 as [| x xs (d & Hd & Hst) _ IH]; [done |].
  cbn [allChildrenComplete forallb]. rewrite Hd, Hst.
  by rewrite bool_decide_eq_true_2.
Qed.

(** C2: when a task exists remotely, has at least one subtask directory,
    every subtask's spec is loaded with a mapped status of COMPLETE, and
    the task's own mapped status is not COMPLETE, the engine replaces the
    target status by COMPLETE, says so, and only then runs the guarded
    status step, with COMPLETE as the new status.  The guard never stands
    in the way of a target of COMPLETE, and the override is one-way: the
    target is the task's own mapped status or COMPLETE, never a status
    that would be a downgrade of the task's own. *)
Theorem all_children_complete_promotes_task :
  (∀ listId taskId allSpecs dryRun w taskData existingTask subtaskDirs,
     allSpecs !! taskId = Some taskData →
     find_by_custom_id (tasks_of (remote w) listId) taskId = Some existingTask →
     (subtask_dirs taskId w).1.1 = Ok subtaskDirs →
     subtaskDirs ≠ [] →
     Forall (λ subtaskId,
               ∃ d, allSpecs !! subtaskId = Some d
                    ∧ mapStatusToClickUp (status (metadata d)) = Val "COMPLETE")
            subtaskDirs →
     mapStatusToClickUp (status (metadata taskData)) ≠ Val "COMPLETE" →
     target_status allSpecs subtaskDirs
       (mapStatusToClickUp (status (metadata taskData))) = Val "COMPLETE"
     ∧ ∃ w2 es,
         syncTask listId taskId allSpecs dryRun w
         = (let '(r, w3, es3) :=
              reconcile_status ITask dryRun existingTask (Val "COMPLETE") w2 in
            (r, w3, es ++ Console (MsgPromoting (length subtaskDirs)) :: es3)))
  ∧ (∀ current, isStatusDowngrade current (Val "COMPLETE") = false)
  ∧ (∀ allSpecs subtaskDirs newStatus,
       (target_status allSpecs subtaskDirs newStatus = newStatus
        ∨ target_status allSpecs subtaskDirs newStatus = Val "COMPLETE")
       ∧ isStatusDowngrade newStatus
           (target_status allSpecs subtaskDirs newStatus) = false).
Proof.
  split; [| split; [exact isStatusDowngrade_to_complete |]].
  - intros listId taskId allSpecs dryRun w taskData existingTask subtaskDirs
      Hspec Hfind Hdirs Hne Hall Hown.
    assert (promotes allSpecs subtaskDirs
              (mapStatusToClickUp (status (metadata taskData))) = true) as Hp.
    { unfold promotes. rewrite allChildrenComplete_Forall by done.
      rewrite bool_decide_eq_false_2 by done.
      destruct subtaskDirs; [done |]. done. }
    assert (target_status allSpecs subtaskDirs
              (mapStatusToClickUp (status (metadata taskData))) = Val "COMPLETE")
      as Ht by (unfold target_status; by rewrite Hp).
    split; [done |].
    destruct (syncTask_existing listId taskId allSpecs dryRun w taskData
                existingTask Hspec Hfind) as (w1 & es1 & _ & ->).
    rewrite Hdirs, Hp, Ht.
    destruct (safe_run (for_each subtaskDirs
                (λ subtaskId, syncSubtask listId (task_id existingTask)
                                subtaskId allSpecs dryRun)) w1)
      as ([] & w2 & es2 & ->).
    { apply safe_for_each. intros x. apply safe_sync_child. }
    exists w2, ([Call (GetTasks listId);
                 Console (MsgExists ITask taskId (title (metadata taskData)))]
                  ++ es1 ++ es2).
    destruct (reconcile_status _ _ _ _ w2) as [[r3 w3] es3].
    by rewrite <- !app_assoc.
  - intros allSpecs subtaskDirs newStatus. unfold target_status.
    destruct (promotes _ _ _).
    + split; [by right | apply isStatusDowngrade_to_complete].
    + split; [by left | apply isStatusDowngrade_same].
Qed.

Lemma all_children_complete_promotes_task_witness :
  specs_e02 !! "E02-F01-T01" = Some (spec_data "Task" "in_progress")
  ∧ target_status specs_e02 ["E02-F01-T01-S01"; "E02-F01-T01-S02"]
      (mapStatusToClickUp "in_progress") = Val "COMPLETE"
  ∧ ∃ w2 es,
      syncTask "0" "E02-F01-T01" specs_e02 false world_e02_synced
      = (let '(r, w3, es3) :=
           reconcile_status ITask false
             (item "0" "E02-F01-T01: Task" "IN PROGRESS") (Val "COMPLETE") w2 in
         (r, w3, es ++ Console (MsgPromoting 2) :: es3)).
Proof.
  split; [reflexivity |].
  pose proof (proj1 all_children_complete_promotes_task
                "0" "E02-F01-T01" specs_e02 false world_e02_synced
                (spec_data "Task" "in_progress")
                {| task_id := "0"; task_name := "E02-F01-T01: Task";
                   task_description := "body"; task_status := "IN PROGRESS";
                   task_priority := Some 2; task_parent := None;
                   task_tags := [] |}
                ["E02-F01-T01-S01"; "E02-F01-T01-S02"]) as H.
  destruct H as [Ht (w2 & es & Hrun)].
  - reflexivity.
  - vm_compute. reflexivity.
  - vm_compute. reflexivity.
  - discriminate.
  - repeat constructor; eexists; (split; [reflexivity | vm_compute; reflexivity]).
  - vm_compute. discriminate.
  - split; [exact Ht |]. exists w2, es. rewrite Hrun.
    rewrite !reconcile_status_run. reflexivity.
Defined.

(** ** A COMPLETE item keeps its status *)

Lemma below_complete_guard next :
  next ∈ below_complete →
  next ≠ "COMPLETE" ∧ isStatusDowngrade (Val "COMPLETE") (Val next) = true.
Proof.
  unfold below_complete. intros H.
  repeat (apply elem_of_cons in H as [-> | H]; [by split |]).
  by apply elem_of_nil in H.
Qed.

Lemma reconcile_status_complete lvl dryRun existing next w :
  task_status existing = "COMPLETE" → next ∈ below_complete →
  reconcile_status lvl dryRun existing (Val next) w
  = (Ok tt, w, [Console (MsgSkippingDowngrade lvl "COMPLETE" (Val next))]).
Proof.
  intros Hst Hnext. destruct (below_complete_guard next Hnext) as [Hne Hguard].
  rewrite reconcile_status_run, Hst. cbv zeta.
  rewrite bool_decide_eq_false_2 by congruence. by rewrite Hguard.
Qed.

Lemma reconcile_status_same lvl dryRun existing w :
  reconcile_status lvl dryRun existing (Val (task_status existing)) w
  = (Ok tt, w, []).
Proof.
  rewrite reconcile_status_run. cbv zeta. by rewrite bool_decide_eq_true_2.
Qed.

Lemma status_of_updated_name id name w i :
  status_of (remote (updated id (update_name name) w)) i
  = status_of (remote w) i.
Proof.
  unfold status_of, updated. cbn.
  induction (r_tasks (remote w)) as [| p l IH]; [done |].
  cbn [fmap list_fmap List.find]. rewrite task_id_update_in.
  destruct (String.eqb (task_id p.2) i); [| exact IH].
  cbn. unfold update_in. by destruct (String.eqb _ _).
Qed.

Lemma NoDup_fmap_eq {A B} (f : A → B) (l : list A) x y :
  NoDup (f <$> l) → x ∈ l → y ∈ l → f x = f y → x = y.
Proof.
  induction l as [| a l IH]; intros Hnd Hx Hy Hf; [by apply elem_of_nil in Hx |].
  rewrite fmap_cons in Hnd. apply NoDup_cons in Hnd as [Ha Hnd].
  apply elem_of_cons in Hx as [-> | Hx]; apply elem_of_cons in Hy as [-> | Hy].
  - done.
  - exfalso. apply Ha. rewrite Hf. by apply list_elem_of_fmap_2.
  - exfalso. apply Ha. rewrite <- Hf. by apply list_elem_of_fmap_2.
  - by apply IH.
Qed.

Lemma task_inv_found listId taskId w existing :
  NoDup (task_ids (remote w)) →
  find_by_custom_id (tasks_of (remote w) listId) taskId = Some existing →
  task_status existing = "COMPLETE" →
  task_inv (task_id existing) taskId w.
Proof.
  intros Hnd Hfind Hst.
  apply find_by_custom_id_Some in Hfind as [Hin Hname].
  apply elem_of_tasks_of in Hin as (p & Hp & <- & _).
  split; [done |]. split.
  - unfold task_ids. by apply (list_elem_of_fmap_2 (task_id ∘ snd)).
  - intros p' Hp' Hid.
    assert (p' = p) as ->; [| done].
    by apply (NoDup_fmap_eq (task_id ∘ snd) (r_tasks (remote w))).
Qed.

Lemma item_name_prefix id spec : startsWith (item_name id spec) (id +:+ ":") = true.
Proof.
  unfold startsWith, item_name.
  change ": " with (":" +:+ " "). rewrite <- !app_assoc_s, (app_assoc_s id).
  rewrite <- (app_assoc_s id ":"). rewrite app_assoc_s. apply prefix_app.
Qed.

Lemma task_inv_renamed tid taskId spec w :
  task_inv tid taskId w →
  task_inv tid taskId (updated tid (update_name (item_name taskId spec)) w).
Proof.
  intros (Hnd & Hin & Hall). unfold task_inv.
  rewrite task_ids_updated. split; [done |]. split; [done |].
  intros p' Hp' Hid. apply elem_of_updated in Hp' as (p & Hp & ->).
  rewrite task_id_update_in in Hid. destruct (Hall p Hp Hid) as [Hst Hname].
  unfold update_in. destruct (String.eqb _ _); [| done]. cbn.
  split; [done | apply item_name_prefix].
Qed.

Lemma task_inv_status tid taskId w :
  task_inv tid taskId w → status_of (remote w) tid = Some "COMPLETE".
Proof.
  intros (_ & Hin & Hall). unfold status_of.
  destruct (List.find _ _) as [p |] eqn:Hfind.
  - apply find_some in Hfind as [Hp Hid].
    apply String.eqb_eq in Hid. apply list_elem_of_In in Hp.
    cbn. by destruct (Hall p Hp Hid) as [-> _].
  - exfalso. unfold task_ids in Hin.
    apply list_elem_of_fmap in Hin as (p & Hid & Hp).
    apply list_elem_of_In in Hp.
    pose proof (find_none _ _ Hfind p Hp) as Hneq. cbn in Hneq, Hid.
    apply String.eqb_neq in Hneq. congruence.
Qed.

Lemma syncTask_keeps_complete listId taskId allSpecs dryRun w taskData
    existing next :
  NoDup (task_ids (remote w)) →
  allSpecs !! taskId = Some taskData →
  find_by_custom_id (tasks_of (remote w) listId) taskId = Some existing →
  task_status existing = "COMPLETE" →
  mapStatusToClickUp (status (metadata taskData)) = Val next →
  next ∈ below_complete →
  ∃ r w' es,
    syncTask listId taskId allSpecs dryRun w = (r, w', es)
    ∧ Forall (spares_status (task_id existing)) es
    ∧ status_of (remote w') (task_id existing) = Some "COMPLETE".
Proof.
  intros Hnd Hspec Hfind Hst Hmap Hnext.
  pose proof (task_inv_found _ _ _ _ Hnd Hfind Hst) as Hinv.
  destruct (syncTask_existing listId taskId allSpecs dryRun w taskData existing
              Hspec Hfind) as (w1 & es1 & Hname & ->).
  destruct (reconcile_name_effect ITask dryRun existing
              (item_name taskId (metadata taskData)) w)
    as (w1' & es1' & Hname' & _ & Hw1 & Hes1).
  rewrite Hname in Hname'. injection Hname' as <- <-.
  assert (task_inv (task_id existing) taskId w1) as Hinv1.
  { destruct Hw1 as [-> | ->]; [done | by apply task_inv_renamed]. }
  assert (Forall (spares_status (task_id existing))
            ([Call (GetTasks listId);
              Console (MsgExists ITask taskId (title (metadata taskData)))]
               ++ es1)) as Hhead.
  { apply Forall_app. split; [repeat constructor; by intros upd |].
    eapply Forall_impl; [exact Hes1 |]. intros e He upd ->.
    by destruct (He _ _ eq_refl) as [_ ->]. }
  destruct (subtask_dirs_run taskId w) as (r & Hdirs & Hform).
  rewrite Hdirs. cbn [fst].
  destruct r as [dirs | e].
  2: { eexists _, _, _. split; [reflexivity |]. split; [done |].
       by eapply task_inv_status. }
  specialize (Hform dirs eq_refl).
  pose proof (hoare_for_each (task_inv (task_id existing) taskId)
                (spares_status (task_id existing)) dirs
                (λ subtaskId, syncSubtask listId (task_id existing) subtaskId
                                allSpecs dryRun) (λ _, False)) as Hloop.
  specialize (Hloop ltac:(intros x Hx;
    destruct (proj1 (Forall_forall _ _) Hform x Hx) as [n ->];
    apply sync_child_keeps_task) w1 Hinv1).
  destruct (for_each dirs _ w1) as [[[[] | e] w2] es2]; [| by destruct Hloop].
  destruct Hloop as [Hinv2 Hes2]. rewrite Hmap.
  assert (∃ es3, reconcile_status ITask dryRun existing
                   (target_status allSpecs dirs (Val next)) w2 = (Ok tt, w2, es3)
                 ∧ Forall (spares_status (task_id existing)) es3)
    as (es3 & -> & Hes3).
  { unfold target_status. destruct (promotes _ _ _).
    - rewrite <- Hst, reconcile_status_same. by eexists.
    - rewrite reconcile_status_complete by done.
      eexists. split; [done |]. repeat constructor. by intros upd. }
  eexists _, _, _. split; [reflexivity |]. split; [| by eapply task_inv_status].
  rewrite app_assoc. apply Forall_app. split; [done |].
  apply Forall_app. split; [done |].
  apply Forall_app. split; [| done].
  destruct (promotes _ _ _); repeat constructor. by intros upd.
Qed.

(** C1: for each mapped status below COMPLETE the guard reports a
    downgrade from COMPLETE.  When the item found for a subtask or an
    extension is COMPLETE and the mapped source status is one of them,
    the sync of that item logs that it skips the downgrade, sends no
    status update at all, and leaves the status of every item as it was.
    When the item found for a task is COMPLETE, its own mapped status is
    one of them and remote ids are unique, no status update is ever sent
    for that item during the sync of the task (the subtask recursion
    included, promoted or not), and the item is COMPLETE at the end. *)
Theorem complete_item_is_not_downgraded :
  Forall (λ next, isStatusDowngrade (Val "COMPLETE") (Val next) = true)
         below_complete
  ∧ (∀ sync listId parentId childId allSpecs dryRun w childData existing next,
       sync = syncSubtask ∨ sync = syncExtension →
       allSpecs !! childId = Some childData →
       find_by_custom_id (tasks_of (remote w) listId) childId = Some existing →
       task_status existing = "COMPLETE" →
       mapStatusToClickUp (status (metadata childData)) = Val next →
       next ∈ below_complete →
       ∃ lvl w' es,
         sync listId parentId childId allSpecs dryRun w = (Ok tt, w', es)
         ∧ existsb is_status_update es = false
         ∧ (Console (MsgSkippingDowngrade lvl "COMPLETE" (Val next)) ∈ es)
         ∧ ∀ id, status_of (remote w') id = status_of (remote w) id)
  ∧ (∀ listId taskId allSpecs dryRun w taskData existing next,
       NoDup (task_ids (remote w)) →
       allSpecs !! taskId = Some taskData →
       find_by_custom_id (tasks_of (remote w) listId) taskId = Some existing →
       task_status existing = "COMPLETE" →
       mapStatusToClickUp (status (metadata taskData)) = Val next →
       next ∈ below_complete →
       ∃ r w' es,
         syncTask listId taskId allSpecs dryRun w = (r, w', es)
         ∧ no_status_update (task_id existing) es
         ∧ status_of (remote w') (task_id existing) = Some "COMPLETE").
Proof.
  split; [by repeat constructor |]. split.
  - intros sync listId parentId childId allSpecs dryRun w childData existing next
      Hsync Hspec Hfind Hst Hmap Hnext.
    assert (∃ lvl, sync = sync_child lvl) as [lvl ->].
    { destruct Hsync as [-> | ->]; by eexists. }
    exists lvl.
    rewrite (sync_child_existing _ _ _ _ _ _ _ _ _ Hspec Hfind).
    rewrite reconcile_name_run, Hmap.
    destruct (String.eqb _ _); [| destruct dryRun];
      rewrite reconcile_status_complete by done;
      eexists _, _; (split; [reflexivity |]); (split; [done |]);
      (split; [cbn [app]; repeat first [apply list_elem_of_here
                                       | apply list_elem_of_further] |]);
      try done.
    intros id. apply status_of_updated_name.
  - intros listId taskId allSpecs dryRun w taskData existing next
      Hnd Hspec Hfind Hst Hmap Hnext.
    destruct (syncTask_keeps_complete listId taskId allSpecs dryRun w taskData
                existing next Hnd Hspec Hfind Hst Hmap Hnext)
      as (r & w' & es & Hrun & Hes & Hstatus).
    exists r, w', es. split; [done |]. split; [| done].
    intros upd Hin. by apply (proj1 (Forall_forall _ _) Hes _ Hin upd).
Qed.

Lemma complete_item_is_not_downgraded_witness :
  (∃ lvl w' es,
     syncSubtask "0" "0" "E02-F01-T01-S01" specs_e02_regressed false
       world_e02_synced = (Ok tt, w', es)
     ∧ existsb is_status_update es = false
     ∧ (Console (MsgSkippingDowngrade lvl "COMPLETE" (Val "PLANNED")) ∈ es)
     ∧ ∀ id, status_of (remote w') id = status_of (remote world_e02_synced) id)
  ∧ ∃ r w' es,
      syncTask "0" "E02-F01-T01" specs_e02 false world_e02_synced_twice
      = (r, w', es)
      ∧ no_status_update "0" es
      ∧ status_of (remote w') "0" = Some "COMPLETE".
Proof.
  destruct complete_item_is_not_downgraded as (_ & Hchild & Htask). split.
  - apply (Hchild syncSubtask "0" "0" "E02-F01-T01-S01" specs_e02_regressed
             false world_e02_synced (spec_data "First" "planned") item_s01
             "PLANNED").
    + by left.
    + reflexivity.
    + vm_compute. reflexivity.
    + reflexivity.
    + vm_compute. reflexivity.
    + compute_done.
  - apply (Htask "0" "E02-F01-T01" specs_e02 false world_e02_synced_twice
             (spec_data "Task" "in_progress") (item_t01 "COMPLETE")
             "IN PROGRESS").
    + compute_done.
    + reflexivity.
    + vm_compute. reflexivity.
    + reflexivity.
    + vm_compute. reflexivity.
    + compute_done.
Defined.

(** ** Dry run and live run *)

Lemma quiet_run {A} (m : M A) w :
  quiet m → (m w).1.2 = w ∧ mutations (m w).2 = [].
Proof.
  intros H. specialize (H w w eq_refl).
  destruct (m w) as [[[a | e] w'] es]; destruct H as [-> Hes]; cbn [fst snd];
    (split; [done |]);
    unfold mutations; induction Hes as [| x l Hx _ IH]; try done;
    cbn [List.filter]; by rewrite Hx.
Qed.

(** What a dry run and a live run do for a subtask or an extension. *)
Lemma sync_child_plan lvl : child_plan_agrees (sync_child lvl).
Proof.
  intros listId parentId childId allSpecs w. cbv zeta.
  destruct (allSpecs !! childId) as [childData |] eqn:Hspec.
  2: { by rewrite !sync_child_missing. }
  destruct (find_by_custom_id _ _) as [existing |] eqn:Hfind.
  - rewrite !(sync_child_existing _ _ _ _ _ _ _ _ _ Hspec Hfind).
    rewrite !reconcile_name_run.
    destruct (String.eqb _ _); rewrite !reconcile_status_run; cbv zeta;
      destruct (bool_decide _); try done;
      destruct (isStatusDowngrade _ _); done.
  - rewrite (sync_child_dry_absent _ _ _ _ _ _ _ Hspec Hfind).
    destruct (sync_child_live_absent lvl listId parentId childId allSpecs w
                childData Hspec Hfind) as (w' & es & -> & Hes).
    cbn [snd]. by rewrite Hes.
Qed.

(** ** Dry run against live run *)

Lemma prefix_app_inv (a x s : string) :
  String.prefix (a +:+ x) (a +:+ s) = String.prefix x s.
Proof.
  induction a as [| c a IH]; [done |].
  rewrite !app_cons_s. cbn [String.prefix].
  destruct (ascii_dec c c); [done | congruence].
Qed.

Lemma prefix_colon_eq (a b r : string) :
  has_colon a = false → has_colon b = false →
  String.prefix (a +:+ ":") r = true → String.prefix (b +:+ ":") r = true →
  a = b.
Proof.
  revert b r. induction a as [| x a IH]; intros [| y b] [| z r] Ha Hb H1 H2;
    try done.
  - rewrite app_nil_l_s in H1. rewrite app_cons_s in H2.
    cbn [String.prefix] in H1, H2. cbn [has_colon] in Hb.
    destruct (ascii_dec ":" z) as [<- |]; [| done].
    destruct (ascii_dec y ":") as [-> |]; [| done].
    by rewrite bool_decide_eq_true_2 in Hb.
  - rewrite app_nil_l_s in H2. rewrite app_cons_s in H1.
    cbn [String.prefix] in H1, H2. cbn [has_colon] in Ha.
    destruct (ascii_dec ":" z) as [<- |]; [| done].
    destruct (ascii_dec x ":") as [-> |]; [| done].
    by rewrite bool_decide_eq_true_2 in Ha.
  - rewrite app_cons_s in H1, H2. cbn [String.prefix] in H1, H2.
    cbn [has_colon] in Ha, Hb.
    apply orb_false_iff in Ha as [_ Ha]. apply orb_false_iff in Hb as [_ Hb].
    destruct (ascii_dec x z) as [-> |]; [| done].
    destruct (ascii_dec y z) as [-> |]; [| done].
    f_equal. by eapply IH.
Qed.

(** Two ids that differ only in a suffix without a colon. *)
Lemma apart_suffixes (a n1 n2 : string) :
  has_colon n1 = false → has_colon n2 = false → n1 ≠ n2 →
  apart (a +:+ n1) (a +:+ n2).
Proof.
  intros H1 H2 Hne name Hname.
  destruct (startsWith name ((a +:+ n2) +:+ ":")) eqn:E; [| done].
  exfalso. apply Hne. unfold startsWith in *.
  apply prefix_inv in Hname as [r ->].
  rewrite !app_assoc_s, prefix_app_inv in E.
  apply (prefix_colon_eq n1 n2 (n1 +:+ ":" +:+ r)); try done.
  rewrite <- app_assoc_s. apply prefix_app.
Qed.

Lemma has_colon_app (a b : string) :
  has_colon (a +:+ b) = has_colon a || has_colon b.
Proof.
  induction a as [| c a IH]; [done |].
  rewrite app_cons_s. cbn [has_colon]. by rewrite IH, orb_assoc.
Qed.

Lemma take_digits_no_colon (s ds rest : string) :
  take_digits s = (ds, rest) → has_colon ds = false.
Proof.
  revert ds rest. induction s as [| c s IH]; intros ds rest H.
  - by injection H as <- <-.
  - cbn [take_digits] in H. destruct (is_digit c) eqn:Hc.
    + destruct (take_digits s) as [ds' rest']. injection H as <- <-.
      cbn [has_colon]. rewrite (IH _ _ eq_refl), orb_false_r.
      apply bool_decide_eq_false_2. by intros ->.
    + by injection H as <- <-.
Qed.

Lemma take_digits_all (s ds : string) : take_digits s = (ds, "") → s = ds.
Proof.
  revert ds. induction s as [| c s IH]; intros ds E.
  - by injection E as <-.
  - cbn [take_digits] in E. destruct (is_digit c).
    + destruct (take_digits s) as [ds' rest'] eqn:E'. injection E as <- ->.
      f_equal. by apply IH.
    + by injection E as <- ?.
Qed.

Lemma is_segment_no_colon (letter : ascii) (n : string) :
  letter ≠ ":"%char → is_segment letter n = true → has_colon n = false.
Proof.
  intros Hl. unfold is_segment, segment.
  destruct n as [| c s]; [done |].
  case_bool_decide as Hc; [| done].
  destruct (take_digits s) as [ds rest] eqn:E.
  destruct ds as [| d ds]; [done |]. destruct rest; [| done]. intros _.
  cbn [has_colon]. rewrite bool_decide_eq_false_2 by congruence.
  rewrite (take_digits_all _ _ E). apply (take_digits_no_colon _ _ _ E).
Qed.

(** *** Lookups in a store that changes *)

Lemma look_find w listId c :
  look w listId c
  = (view ∘ snd) <$> List.find (matches listId c) (r_tasks (remote w)).
Proof.
  unfold look, find_by_custom_id, tasks_of.
  induction (r_tasks (remote w)) as [| p ps IH]; [done |].
  rewrite filter_cons. cbn [List.find]. unfold matches at 1.
  destruct (decide (p.1 = listId)) as [Hp | Hp].
  - rewrite bool_decide_eq_true_2 by done. cbn [andb fmap list_fmap List.find].
    destruct (startsWith _ _); [done | exact IH].
  - rewrite bool_decide_eq_false_2 by done. exact IH.
Qed.

Lemma find_fmap_agree {A B} (g : A → bool) (h : A → B) (f : A → A) ps :
  (∀ p, p ∈ ps → g (f p) = g p ∧ (g p = true → h (f p) = h p)) →
  h <$> List.find g (f <$> ps) = h <$> List.find g ps.
Proof.
  induction ps as [| p ps IH]; intros H; [done |].
  destruct (H p) as [Hg Hh]; [left |].
  cbn [fmap list_fmap List.find]. rewrite Hg.
  destruct (g p).
  - cbn. f_equal. by apply Hh.
  - apply IH. intros q Hq. apply H. by right.
Qed.

Lemma find_snoc {A} (g : A → bool) ps p :
  g p = false → List.find g (ps ++ [p]) = List.find g ps.
Proof.
  intros Hp. induction ps as [| q ps IH]; cbn [app List.find].
  - by rewrite Hp.
  - by destruct (g q).
Qed.

(** An update of items that a lookup passes over, before and after. *)
Lemma look_updated id upd w listId c :
  (∀ p, p ∈ r_tasks (remote w) → task_id p.2 = id →
        startsWith (task_name p.2) (c +:+ ":") = false
        ∧ startsWith (task_name (apply_update upd p.2)) (c +:+ ":") = false) →
  look (updated id upd w) listId c = look w listId c.
Proof.
  intros H. rewrite !look_find. unfold updated, updateTask. cbn [fst snd remote r_tasks].
  apply find_fmap_agree. intros p Hp. unfold update_in.
  destruct (String.eqb_spec (task_id p.2) id) as [Hid |]; [| done].
  destruct (H p Hp Hid) as [H1 H2]. unfold matches. cbn [fst snd].
  rewrite H1, H2, !andb_false_r. done.
Qed.

(** An update that changes neither a name nor a status. *)
Lemma look_updated_parent id parent w listId c :
  look (updated id (update_parent parent) w) listId c = look w listId c.
Proof.
  rewrite !look_find. unfold updated, updateTask. cbn [fst snd remote r_tasks].
  apply find_fmap_agree. intros p Hp. unfold update_in.
  by destruct (String.eqb _ _).
Qed.

Lemma look_created listId0 data w listId c :
  startsWith (td_name data) (c +:+ ":") = false →
  look (createTask listId0 data w).1.2 listId c = look w listId c.
Proof.
  intros H. rewrite !look_find. cbn [createTask fst snd remote r_tasks].
  rewrite find_snoc; [done |].
  unfold matches. cbn [snd new_task task_name]. by rewrite H, andb_false_r.
Qed.

Lemma look_same_remote w w' listId c :
  remote w' = remote w → look w' listId c = look w listId c.
Proof. unfold look. by intros ->. Qed.

(** *** What a live run leaves alone *)

Lemma same_dirs_refl w : same_dirs w w.
Proof. by split. Qed.

Lemma same_dirs_fs w w' : fs w' = fs w → same_dirs w' w.
Proof. intros H. unfold same_dirs. by rewrite H. Qed.

Lemma same_dirs_trans w1 w2 w3 :
  same_dirs w1 w2 → same_dirs w2 w3 → same_dirs w1 w3.
Proof.
  intros [H1 H1'] [H2 H2']. split; [congruence |].
  intros p. by rewrite H1', H2'.
Qed.

Lemma same_dirs_sym w1 w2 : same_dirs w1 w2 → same_dirs w2 w1.
Proof. intros [H1 H2]. by split. Qed.

Lemma same_dirs_write_back specId id w :
  same_dirs (updateSpecFileWithTaskId specId id w).1.2 w.
Proof.
  destruct (updateSpecFileWithTaskId_cases specId id w)
    as (r & w' & es & E & Hr & Hd & H).
  rewrite E. cbn [fst snd]. split; [done |].
  intros p. unfold existsSync. rewrite Hd. f_equal.
  destruct r.
  - destruct H as (parts & content & lines' & _ & Hfile & _ & _ & Hfs & _).
    rewrite Hfs.
    destruct (decide (p = spec_file_path specId parts)) as [-> | Hne].
    + rewrite lookup_insert_eq, Hfile.
      by rewrite !bool_decide_eq_true_2 by by eexists.
    + by rewrite lookup_insert_ne.
  - by destruct H as [-> _].
Qed.

Lemma frame_refl mine w : frame mine w w.
Proof. by repeat split. Qed.

Lemma frame_trans mine w1 w2 w3 :
  frame mine w1 w2 → frame mine w2 w3 → frame mine w1 w3.
Proof.
  intros (Hn1 & Hd1 & Hl1 & Hk1 & Ho1) (Hn2 & Hd2 & Hl2 & Hk2 & Ho2).
  split; [tauto |]. split; [by eapply same_dirs_trans |]. split; [| split].
  - intros folderId name Hc. by rewrite Hl2, Hl1.
  - intros listId c Hc. by rewrite Hk2, Hk1.
  - intros id c Hc Hin Hown.
    destruct (Ho1 id c Hc Hin Hown) as [Hin2 Hown2]. by apply Ho2.
Qed.

Lemma frame_mono (mine mine' : string → Prop) w w' :
  (∀ j, mine j → mine' j) → frame mine w w' → frame mine' w w'.
Proof.
  intros Hm (Hn & Hd & Hl & Hk & Ho).
  split; [done |]. split; [done |]. split; [| split].
  - intros folderId name Hc. apply Hl. intros j Hj. by apply Hc, Hm.
  - intros listId c Hc. apply Hk. intros j Hj. by apply Hc, Hm.
  - intros id c Hc. apply Ho. intros j Hj. by apply Hc, Hm.
Qed.

Lemma NoDup_created listId data w :
  NoDup (task_ids (remote w)) →
  NoDup (task_ids (remote (createTask listId data w).1.2)).
Proof.
  intros Hnd. unfold task_ids. cbn. rewrite fmap_app. cbn.
  pose proof (infinite_is_fresh (task_id ∘ snd <$> r_tasks (remote w))) as Hfresh.
  apply NoDup_app. split; [done |]. split; [| apply NoDup_singleton].
  intros x Hx Hx'. apply list_elem_of_singleton in Hx'. by subst x.
Qed.

Lemma owned_found listId j w e :
  NoDup (task_ids (remote w)) →
  find_by_custom_id (tasks_of (remote w) listId) j = Some e →
  (task_id e ∈ task_ids (remote w)) ∧ owned w (task_id e) j.
Proof.
  intros Hnd Hfind. apply find_by_custom_id_Some in Hfind as [Hin Hname].
  apply elem_of_tasks_of in Hin as (p0 & Hp0 & <- & _). split.
  - unfold task_ids. apply list_elem_of_fmap. by exists p0.
  - intros p Hp Hid.
    by rewrite (NoDup_fmap_eq (task_id ∘ snd) _ p p0 Hnd Hp Hp0 Hid).
Qed.

(** An update of the item of one of the ids in [mine] that leaves it a
    name of that id. *)
Lemma frame_update (mine : string → Prop) id upd j w :
  mine j → id ∈ task_ids (remote w) → owned w id j →
  (∀ n, ud_name upd = Some n → startsWith n (j +:+ ":") = true) →
  frame mine w (updated id upd w) ∧ owned (updated id upd w) id j.
Proof.
  intros Hj Hin Hown Hname.
  assert (owned (updated id upd w) id j) as Hown'.
  { intros p' Hp' Hid. apply elem_of_updated in Hp' as (p & Hp & ->).
    rewrite task_id_update_in in Hid. unfold update_in.
    rewrite (proj2 (String.eqb_eq _ _) Hid). cbn [snd apply_update task_name].
    destruct (ud_name upd) as [n |]; cbn [default]; [by apply Hname |].
    by apply Hown. }
  split; [| done].
  split; [by rewrite task_ids_updated |]. split; [by apply same_dirs_fs |].
  split; [done |]. split.
  - intros listId c Hc. apply look_updated. intros p Hp Hid. split.
    + by apply (Hc j Hj), Hown.
    + apply (Hc j Hj). cbn [apply_update task_name].
      destruct (ud_name upd) as [n |]; cbn [default]; [by apply Hname |].
      by apply Hown.
  - intros id' c Hc Hin' Hown''. rewrite task_ids_updated. split; [done |].
    destruct (decide (id' = id)) as [-> | Hne].
    + exfalso. unfold task_ids in Hin.
      apply list_elem_of_fmap in Hin as (p & Hid & Hp). symmetry in Hid.
      pose proof (Hc j Hj _ (Hown p Hp Hid)) as H1.
      by rewrite (Hown'' p Hp Hid) in H1.
    + intros p' Hp' Hid. apply elem_of_updated in Hp' as (p & Hp & ->).
      rewrite task_id_update_in in Hid.
      rewrite update_in_other by congruence. by apply Hown''.
Qed.

Lemma frame_parent mine id parent w :
  frame mine w (updated id (update_parent parent) w).
Proof.
  split; [by rewrite task_ids_updated |]. split; [by apply same_dirs_fs |].
  split; [done |]. split.
  - intros listId c _. apply look_updated_parent.
  - intros id' c _ Hin Hown. rewrite task_ids_updated. split; [done |].
    intros p' Hp' Hid. apply elem_of_updated in Hp' as (p & Hp & ->).
    rewrite task_id_update_in in Hid. unfold update_in.
    destruct (String.eqb _ _); cbn [snd apply_update task_name update_parent
                                    ud_name default]; by apply Hown.
Qed.

Lemma frame_create (mine : string → Prop) listId data j w :
  mine j → startsWith (td_name data) (j +:+ ":") = true →
  frame mine w (createTask listId data w).1.2.
Proof.
  intros Hj Hname.
  split; [apply NoDup_created |]. split; [by apply same_dirs_fs |].
  split; [done |]. split.
  - intros listId' c Hc. apply look_created. by apply (Hc j Hj).
  - intros id c Hc Hin Hown. unfold task_ids, owned. cbn. rewrite fmap_app.
    split; [apply elem_of_app; by left |].
    intros p Hp Hid. apply elem_of_app in Hp as [Hp | Hp]; [by apply Hown |].
    apply list_elem_of_singleton in Hp. subst p. cbn in Hid.
    exfalso.
    apply (infinite_is_fresh (task_id ∘ snd <$> r_tasks (remote w))).
    by rewrite Hid.
Qed.

Lemma frame_write_back mine specId id w :
  frame mine w (updateSpecFileWithTaskId specId id w).1.2.
Proof.
  pose proof (same_dirs_write_back specId id w) as Hd.
  destruct (updateSpecFileWithTaskId_run specId id w)
    as (r & w' & es & E & Hr & _). rewrite E in *. cbn [fst snd] in *.
  split; [by rewrite Hr |]. split; [done |].
  split; [unfold find_list; by rewrite Hr |]. split.
  - intros listId c _. by apply look_same_remote.
  - intros id' c _. unfold owned. by rewrite Hr.
Qed.

Lemma sync_child_live_frame (mine : string → Prop) lvl listId parentId j
    allSpecs w :
  mine j → NoDup (task_ids (remote w)) →
  ∃ w' es,
    sync_child lvl listId parentId j allSpecs false w = (Ok tt, w', es)
    ∧ frame mine w w'.
Proof.
  intros Hj Hnd.
  destruct (allSpecs !! j) as [childData |] eqn:Hspec.
  2: { rewrite sync_child_missing by done. eexists _, _.
       split; [done | apply frame_refl]. }
  destruct (find_by_custom_id (tasks_of (remote w) listId) j) as [e |] eqn:Hfind.
  - destruct (owned_found _ _ _ _ Hnd Hfind) as [Hin Hown].
    rewrite (sync_child_existing _ _ _ _ _ _ _ _ _ Hspec Hfind).
    rewrite reconcile_name_run.
    destruct (String.eqb _ _).
    + rewrite reconcile_status_run. cbv zeta.
      destruct (bool_decide _); [| destruct (isStatusDowngrade _ _)];
        eexists _, _; (split; [reflexivity |]); try apply frame_refl.
      by apply (frame_update mine _ _ j).
    + destruct (frame_update mine (task_id e)
                  (update_name (item_name j (metadata childData))) j w
                  Hj Hin Hown) as [Hf1 Hown1].
      { intros n [= <-]. apply item_name_prefix. }
      rewrite reconcile_status_run. cbv zeta.
      destruct (bool_decide _); [| destruct (isStatusDowngrade _ _)];
        eexists _, _; (split; [reflexivity |]); try exact Hf1.
      eapply frame_trans; [exact Hf1 |].
      apply (frame_update mine _ _ j); try done.
      by rewrite task_ids_updated.
  - unfold sync_child. rewrite Hspec. unfold findSubtaskByCustomId.
    erewrite bind_run; [| unfold bind, getTasks; cbn; by rewrite Hfind].
    cbv zeta. cbv iota.
    unfold bind at 1. cbn [console emit].
    unfold bind at 1.
    pose proof (frame_create mine listId (task_data j childData) j w Hj
                  (item_name_prefix _ _)) as Hf1.
    destruct (createTask listId (task_data j childData) w)
      as [[r1 w1] es1] eqn:Hcreate.
    cbn [fst snd] in Hf1.
    unfold createTask in Hcreate. injection Hcreate as <- Hw1 <-.
    unfold bind at 1. cbn [console emit].
    unfold bind at 1.
    match goal with
    | |- context [updateTask ?i ?u w1] =>
        pose proof (frame_parent mine i parentId w1) as Hf2;
        change (updateTask i u w1) with (Ok tt, updated i u w1, [Call (UpdateTask i u)])
    end.
    unfold bind at 1. cbn [console emit].
    unfold bind at 1.
    match goal with
    | |- context [updateSpecFileWithTaskId ?s ?i ?w0] =>
        pose proof (frame_write_back mine s i w0) as Hf3;
        destruct (updateSpecFileWithTaskId_run s i w0)
          as (r & w' & es & E & _)
    end.
    rewrite E in *. cbn [fst snd] in Hf3. cbn [ret].
    eexists _, _. split; [reflexivity |].
    eapply frame_trans; [exact Hf1 |]. eapply frame_trans; [exact Hf2 |].
    exact Hf3.
Qed.

(** The log of a dry run of a subtask or an extension depends on the
    world through the name and the status found, and on nothing else. *)
Lemma sync_child_dry_look lvl listId parent1 parent2 c allSpecs w1 w2 :
  look w1 listId c = look w2 listId c →
  plan (sync_child lvl listId parent1 c allSpecs true w1).2
  = plan (sync_child lvl listId parent2 c allSpecs true w2).2.
Proof.
  destruct (allSpecs !! c) as [childData |] eqn:Hspec.
  2: { by rewrite !sync_child_missing. }
  unfold look.
  destruct (find_by_custom_id (tasks_of (remote w1) listId) c) as [e1 |] eqn:E1;
    destruct (find_by_custom_id (tasks_of (remote w2) listId) c) as [e2 |] eqn:E2;
    intros H; try done.
  - injection H as Hn Hs.
    rewrite (sync_child_existing _ _ _ _ _ _ _ _ _ Hspec E1),
      (sync_child_existing _ _ _ _ _ _ _ _ _ Hspec E2).
    rewrite !reconcile_name_run, Hn.
    destruct (String.eqb _ _); rewrite !reconcile_status_run, Hs; cbv zeta;
      destruct (bool_decide _); try done;
      destruct (isStatusDowngrade _ _); done.
  - by rewrite (sync_child_dry_absent _ _ _ _ _ _ _ Hspec E1),
      (sync_child_dry_absent _ _ _ _ _ _ _ Hspec E2).
Qed.

Lemma sync_child_sublist lvl listId parentId c allSpecs w :
  plan (sync_child lvl listId parentId c allSpecs true w).2
    `sublist_of` actions (sync_child lvl listId parentId c allSpecs false w).2.
Proof.
  pose proof (sync_child_plan lvl listId parentId c allSpecs w) as H.
  cbv zeta in H.
  destruct (allSpecs !! c);
    [destruct (find_by_custom_id _ _) |]; try by rewrite H.
  destruct H as [_ ->]. by apply sublist_inserts_r.
Qed.

Lemma sync_child_dry_run lvl listId parentId c allSpecs w :
  ∃ es, sync_child lvl listId parentId c allSpecs true w = (Ok tt, w, es).
Proof.
  destruct (safe_run (sync_child lvl listId parentId c allSpecs true) w
              (safe_sync_child _ _ _ _ _ _)) as ([] & w' & es & E).
  pose proof (quiet_run _ w (quiet_sync_child lvl listId parentId c allSpecs))
    as [Hw _].
  rewrite E in Hw. cbn [fst snd] in Hw. subst w'. by exists es.
Qed.

Lemma plan_app es1 es2 : plan (es1 ++ es2) = plan es1 ++ plan es2.
Proof. unfold plan. apply bind_app. Qed.

Lemma actions_app es1 es2 : actions (es1 ++ es2) = actions es1 ++ actions es2.
Proof. unfold actions. apply bind_app. Qed.

Lemma plan_cons e es : plan (e :: es) = planned e ++ plan es.
Proof. done. Qed.

Lemma actions_cons e es : actions (e :: es) = performed e ++ actions es.
Proof. done. Qed.

(** The loop over the children of an item: the live loop from [wl],
    against the dry loop from a world [w] in which the lookups of the
    children show the same. *)
Lemma children_loop (mine : string → Prop) lvl listId parent1 parent2 allSpecs
    (cs : list string) w wl :
  NoDup cs →
  (∀ c c', c ∈ cs → c' ∈ cs → c ≠ c' → apart c c') →
  (∀ c, c ∈ cs → mine c) →
  NoDup (task_ids (remote wl)) →
  (∀ c, c ∈ cs → look wl listId c = look w listId c) →
  ∃ wl' es,
    for_each cs (λ c, sync_child lvl listId parent2 c allSpecs false) wl
    = (Ok tt, wl', es)
    ∧ frame mine wl wl'
    ∧ plan (for_each cs (λ c, sync_child lvl listId parent1 c allSpecs true) w).2
        `sublist_of` actions es.
Proof.
  intros Hcs. revert wl.
  induction Hcs as [| c cs Hc Hcs IH]; intros wl Hapart Hmine Hnd Hlook.
  - eexists _, _. split; [reflexivity |]. split; [apply frame_refl | done].
  - destruct (sync_child_live_frame (eq c) lvl listId parent2 c allSpecs wl
                eq_refl Hnd) as (w1 & es1 & E1 & Hf1).
    destruct (IH w1) as (w2 & es2 & E2 & Hf2 & Hsub).
    { intros x y Hx Hy. apply Hapart; by right. }
    { intros x Hx. apply Hmine. by right. }
    { by apply Hf1. }
    { intros x Hx. rewrite <- Hlook by by right.
      apply Hf1. intros j <-. apply Hapart; [left | by right |].
      intros ->. done. }
    cbn [for_each]. unfold bind at 1. rewrite E1, E2.
    eexists _, _. split; [reflexivity |]. split.
    + eapply frame_trans; [| exact Hf2].
      eapply frame_mono; [| exact Hf1]. intros j <-. apply Hmine. left.
    + destruct (sync_child_dry_run lvl listId parent1 c allSpecs w) as [esd Ed].
      unfold bind at 1. rewrite Ed.
      destruct (for_each cs _ w) as [[rd wd] esd'].
      cbn [snd] in *. rewrite plan_app, actions_app.
      apply sublist_app; [| done].
      replace (plan esd)
        with (plan (sync_child lvl listId parent2 c allSpecs true wl).2).
      * replace es1 with (sync_child lvl listId parent2 c allSpecs false wl).2
          by by rewrite E1.
        apply sync_child_sublist.
      * replace esd with (sync_child lvl listId parent1 c allSpecs true w).2
          by by rewrite Ed.
        apply sync_child_dry_look, Hlook. left.
Qed.

(** *** Directories *)

Lemma child_ids_wf letter parentId entries :
  NoDup (d_name <$> entries) →
  NoDup (child_ids letter parentId entries)
  ∧ Forall (λ c, ∃ n, is_segment letter n = true ∧ c = parentId +:+ "-" +:+ n)
           (child_ids letter parentId entries).
Proof.
  intros Hnd. unfold child_ids, sort_strings. split.
  - rewrite merge_sort_Permutation.
    rewrite (list_fmap_compose d_name (λ n, parentId +:+ "-" +:+ n)).
    apply NoDup_fmap_2.
    + intros x y H. by apply String.app_inj, String.app_inj in H.
    + eapply sublist_NoDup; [exact Hnd |]. apply fmap_sublist, sublist_filter.
  - apply Forall_forall. intros x Hx. rewrite merge_sort_Permutation in Hx.
    apply list_elem_of_fmap in Hx as (entry & -> & Hentry).
    apply list_elem_of_filter in Hentry as [Hp _].
    apply andb_prop_elim in Hp as [_ Hseg].
    exists (d_name entry). split; [by apply Is_true_true_1 | done].
Qed.

Lemma child_ids_if_exists_same letter parentId dir w w' :
  same_dirs w' w →
  (child_ids_if_exists letter parentId dir w').1.1
  = (child_ids_if_exists letter parentId dir w).1.1.
Proof.
  intros [Hd He]. unfold child_ids_if_exists, bind, get_world, readdirSync.
  rewrite He. destruct (existsSync (fs w) dir) eqn:Hex; [| done].
  rewrite Hd. destruct (fs_dirs (fs w) !! dir); [done |]. by rewrite He, Hex.
Qed.

Lemma child_ids_if_exists_wf letter parentId dir w cs :
  distinct_entries (fs w) →
  (child_ids_if_exists letter parentId dir w).1.1 = Ok cs →
  NoDup cs
  ∧ Forall (λ c, ∃ n, is_segment letter n = true ∧ c = parentId +:+ "-" +:+ n) cs.
Proof.
  intros Hde. unfold child_ids_if_exists, bind, get_world, readdirSync.
  destruct (existsSync (fs w) dir) eqn:Hex.
  - destruct (fs_dirs (fs w) !! dir) as [entries |] eqn:Hdir; [| done].
    intros [= <-]. apply child_ids_wf. by eapply Hde.
  - intros [= <-]. split; constructor.
Qed.

Lemma subtask_dirs_same taskId w w' :
  same_dirs w' w → (subtask_dirs taskId w').1.1 = (subtask_dirs taskId w).1.1.
Proof.
  intros H. unfold subtask_dirs.
  destruct (parseSpecId taskId) as [parts |]; [| done].
  destruct (task parts) as [t |]; [| done].
  by apply child_ids_if_exists_same.
Qed.

Lemma subtask_dirs_wf taskId w cs :
  distinct_entries (fs w) →
  (subtask_dirs taskId w).1.1 = Ok cs →
  NoDup cs
  ∧ Forall (λ c, ∃ n, is_segment "S" n = true ∧ c = taskId +:+ "-" +:+ n) cs.
Proof.
  intros Hde. unfold subtask_dirs.
  destruct (parseSpecId taskId) as [parts |].
  - destruct (task parts) as [t |]; [by apply child_ids_if_exists_wf |].
    intros [= <-]. split; constructor.
  - intros [= <-]. split; constructor.
Qed.

Lemma distinct_entries_same w w' :
  same_dirs w' w → distinct_entries (fs w) → distinct_entries (fs w').
Proof. intros [Hd _] H dir entries. rewrite Hd. apply H. Qed.

(** The ids of the children of one item are apart from each other and
    from the id of the item. *)
Lemma children_apart letter parentId n1 n2 :
  letter ≠ ":"%char →
  is_segment letter n1 = true → is_segment letter n2 = true → n1 ≠ n2 →
  apart (parentId +:+ "-" +:+ n1) (parentId +:+ "-" +:+ n2).
Proof.
  intros Hl H1 H2 Hne. apply apart_suffixes.
  - rewrite app_cons_s, app_nil_l_s. cbn [has_colon].
    by rewrite (is_segment_no_colon letter).
  - rewrite app_cons_s, app_nil_l_s. cbn [has_colon].
    by rewrite (is_segment_no_colon letter).
  - intros H. by apply String.app_inj in H.
Qed.

Lemma child_apart_parent parentId n : apart (parentId +:+ "-" +:+ n) parentId.
Proof.
  intros name H. destruct (startsWith name (parentId +:+ ":")) eqn:E; [| done].
  destruct (prefix_conflict _ _ _ E H).
Qed.

Lemma parent_apart_child parentId n : apart parentId (parentId +:+ "-" +:+ n).
Proof.
  intros name H.
  destruct (startsWith name ((parentId +:+ "-" +:+ n) +:+ ":")) eqn:E; [| done].
  destruct (prefix_conflict _ _ _ H E).
Qed.

(** *** The sync of a task *)

Lemma syncTask_dry_absent listId taskId allSpecs w taskData :
  allSpecs !! taskId = Some taskData →
  find_by_custom_id (tasks_of (remote w) listId) taskId = None →
  syncTask listId taskId allSpecs true w
  = (Ok tt, w,
     [Call (GetTasks listId);
      Console (MsgWouldCreate ITask taskId (title (metadata taskData)))]).
Proof.
  intros Hspec Hfind. unfold syncTask. rewrite Hspec.
  unfold findTaskByCustomId.
  erewrite bind_run; [| unfold bind, getTasks; cbn; by rewrite Hfind].
  done.
Qed.

Lemma under_children taskId cs :
  Forall (λ c, ∃ n, is_segment "S" n = true ∧ c = taskId +:+ "-" +:+ n) cs →
  NoDup cs →
  (∀ c c', c ∈ cs → c' ∈ cs → c ≠ c' → apart c c')
  ∧ (∀ c, c ∈ cs → under taskId c)
  ∧ (∀ c, c ∈ cs → apart c taskId ∧ apart taskId c).
Proof.
  intros Hform Hnd. rewrite Forall_forall in Hform. split; [| split].
  - intros c c' Hc Hc' Hne.
    destruct (Hform c Hc) as (n & Hn & ->), (Hform c' Hc') as (n' & Hn' & ->).
    apply (children_apart "S"); try done. congruence.
  - intros c Hc. right. by apply Hform.
  - intros c Hc. destruct (Hform c Hc) as (n & Hn & ->).
    split; [apply child_apart_parent | apply parent_apart_child].
Qed.

(** The loop over the subtasks of a task in a live run. *)
Lemma subtasks_live listId parentId taskId allSpecs cs wl :
  Forall (λ c, ∃ n, is_segment "S" n = true ∧ c = taskId +:+ "-" +:+ n) cs →
  NoDup cs → NoDup (task_ids (remote wl)) →
  ∃ wl' es,
    for_each cs (λ c, syncSubtask listId parentId c allSpecs false) wl
    = (Ok tt, wl', es)
    ∧ frame (.∈ cs) wl wl'.
Proof.
  intros Hform Hcs Hnd.
  destruct (under_children taskId cs Hform Hcs) as (Hapart & _ & _).
  destruct (children_loop (.∈ cs) ISubtask listId parentId parentId allSpecs
              cs wl wl Hcs Hapart) as (wl' & es & E & Hf & _); try done.
  by exists wl', es.
Qed.

Lemma create_sublist lvl listId id ttl data rest :
  td_name data = id +:+ ": " +:+ ttl →
  plan [Call (GetTasks listId); Console (MsgWouldCreate lvl id ttl)]
    `sublist_of`
    actions ([Call (GetTasks listId)] ++ [Console (MsgCreating lvl id ttl)]
             ++ [Call (CreateTask listId data)] ++ rest).
Proof.
  intros H. rewrite !actions_app. cbn. rewrite H.
  apply sublist_skip, sublist_nil_l.
Qed.

(** The live sync of a task from [wl], against the dry sync from a world
    [w] in which the lookups of the task and of its subtasks show the
    same and the directories are the same. *)
Lemma syncTask_sim listId taskId allSpecs w wl :
  NoDup (task_ids (remote wl)) → distinct_entries (fs w) → same_dirs wl w →
  (∀ c, under taskId c → look wl listId c = look w listId c) →
  ∃ r wl' es,
    syncTask listId taskId allSpecs false wl = (r, wl', es)
    ∧ frame (under taskId) wl wl'
    ∧ plan (syncTask listId taskId allSpecs true w).2 `sublist_of` actions es.
Proof.
  intros Hnd Hde Hsd Hlook.
  destruct (allSpecs !! taskId) as [taskData |] eqn:Hspec.
  2: { unfold syncTask. rewrite Hspec. eexists _, _, _.
       split; [reflexivity |]. split; [apply frame_refl | done]. }
  pose proof (Hlook taskId (or_introl eq_refl)) as Ht. unfold look in Ht.
  destruct (find_by_custom_id (tasks_of (remote wl) listId) taskId)
    as [el |] eqn:El;
    destruct (find_by_custom_id (tasks_of (remote w) listId) taskId)
    as [e |] eqn:E; try done.
  - injection Ht as Hn Hs.
    destruct (syncTask_existing listId taskId allSpecs true w taskData e Hspec E)
      as (wd1 & esd1 & Ed1 & ->).
    destruct (syncTask_existing listId taskId allSpecs false wl taskData el
                Hspec El) as (w1 & es1 & E1 & ->).
    rewrite reconcile_name_run in Ed1, E1. rewrite Hn in E1.
    destruct (owned_found _ _ _ _ Hnd El) as [Hin Hown].
    assert (wd1 = w ∧ plan esd1 = actions es1 ∧ frame (eq taskId) wl w1
            ∧ (task_id el ∈ task_ids (remote w1))
            ∧ owned w1 (task_id el) taskId) as (-> & Hp1 & Hf1 & Hin1 & Hown1).
    { destruct (String.eqb _ _).
      - injection Ed1 as <- <-. injection E1 as <- <-.
        split; [done |]. split; [done |]. split; [apply frame_refl | done].
      - injection Ed1 as <- <-. injection E1 as <- <-.
        destruct (frame_update (eq taskId) (task_id el)
                    (update_name (item_name taskId (metadata taskData)))
                    taskId wl eq_refl Hin Hown) as [Hf Ho].
        { intros n [= <-]. apply item_name_prefix. }
        split; [done |]. split; [done |]. split; [done |]. split; [| done].
        by rewrite task_ids_updated. }
    rewrite (subtask_dirs_same taskId w wl Hsd).
    destruct ((subtask_dirs taskId w).1.1) as [cs | err] eqn:Hdirs.
    2: { eexists _, _, _. split; [reflexivity |]. split.
         - eapply frame_mono; [| exact Hf1]. intros j <-. by left.
         - cbn [snd]. rewrite !plan_app, !actions_app, Hp1. done. }
    destruct (subtask_dirs_wf taskId w cs Hde Hdirs) as [Hcs Hform].
    destruct (under_children taskId cs Hform Hcs) as (Hapart & Hunder & Hpar).
    destruct (children_loop (.∈ cs) ISubtask listId (task_id e) (task_id el)
                allSpecs cs w w1 Hcs Hapart) as (w2 & es2 & E2 & Hf2 & Hsub).
    { done. }
    { by apply Hf1. }
    { intros c Hc. rewrite <- Hlook by by apply Hunder.
      apply Hf1. intros j <-. by apply Hpar. }
    destruct (safe_run (for_each cs
                (λ c, syncSubtask listId (task_id e) c allSpecs true)) w)
      as ([] & wd2 & esd2 & Ed2).
    { apply safe_for_each. intros x. apply safe_sync_child. }
    unfold syncSubtask in *. rewrite Ed2, E2. rewrite Ed2 in Hsub.
    cbn [snd] in Hsub.
    destruct (proj2 (proj2 (proj2 (proj2 Hf2))) (task_id el) taskId)
      as [Hin2 Hown2]; try done.
    { intros j Hj. by apply Hpar. }
    assert (frame (under taskId) wl w2) as Hf12.
    { eapply frame_trans.
      - eapply frame_mono; [| exact Hf1]. intros j <-. by left.
      - eapply frame_mono; [| exact Hf2]. exact Hunder. }
    rewrite !reconcile_status_run. cbv zeta. rewrite Hs.
    destruct (bool_decide _); [| destruct (isStatusDowngrade _ _)];
      eexists _, _, _; (split; [reflexivity |]); (split; [try exact Hf12 |]).
    3: { eapply frame_trans; [exact Hf12 |].
         apply (frame_update (under taskId) _ _ taskId); try done. by left. }
    all: cbn [snd]; rewrite !plan_app, !actions_app, Hp1;
      apply sublist_app; [done |]; apply sublist_app; [done |];
      apply sublist_app; [done |]; apply sublist_app;
      [by destruct (promotes _ _ _) | done].
  - rewrite (syncTask_dry_absent _ _ _ _ _ Hspec E).
    unfold syncTask. rewrite Hspec. unfold findTaskByCustomId.
    erewrite bind_run; [| unfold bind, getTasks; cbn; by rewrite El].
    cbv zeta. cbv iota.
    unfold bind at 1. cbn [console emit].
    unfold bind at 1.
    pose proof (frame_create (under taskId) listId (task_data taskId taskData)
                  taskId wl (or_introl eq_refl) (item_name_prefix _ _)) as Hf1.
    destruct (createTask listId (task_data taskId taskData) wl)
      as [[r1 w1] es1] eqn:Hcreate.
    cbn [fst snd] in Hf1.
    unfold createTask in Hcreate. injection Hcreate as <- Hw1 <-.
    unfold bind at 1. cbn [console emit].
    unfold bind at 1. cbn [console emit].
    unfold bind at 1.
    match goal with
    | |- context [updateSpecFileWithTaskId ?s ?i ?w0] =>
        pose proof (frame_write_back (under taskId) s i w0) as Hf2;
        destruct (updateSpecFileWithTaskId_run s i w0)
          as (r & w2 & es2 & E2 & _)
    end.
    rewrite E2 in *. cbn [fst snd] in Hf2.
    assert (frame (under taskId) wl w2) as Hf12 by by eapply frame_trans.
    unfold bind at 1.
    destruct (subtask_dirs_run taskId w2) as (rd & Erd & _).
    pose proof (subtask_dirs_same taskId w w2) as Hsame.
    rewrite Erd in *. cbn [fst snd] in Hsame.
    assert (same_dirs w2 w) as Hsd2.
    { eapply same_dirs_trans; [| exact Hsd]. apply Hf12. }
    specialize (Hsame Hsd2).
    destruct rd as [cs | err].
    2: { eexists _, _, _. split; [reflexivity |]. split; [done |].
         by apply create_sublist. }
    destruct (subtask_dirs_wf taskId w cs Hde (eq_sym Hsame)) as [Hcs Hform].
    destruct (under_children taskId cs Hform Hcs) as (_ & Hunder & _).
    unfold when. destruct (0 <? length cs)%nat.
    + unfold bind at 1. cbn [console emit].
      match goal with
      | |- context [for_each cs (λ s, syncSubtask listId ?p s allSpecs false)] =>
          destruct (subtasks_live listId p taskId allSpecs cs w2 Hform Hcs)
            as (w3 & es3 & E3 & Hf3); [by apply Hf12 |]
      end.
      rewrite E3. eexists _, _, _. split; [reflexivity |]. split.
      * eapply frame_trans; [exact Hf12 |].
        eapply frame_mono; [| exact Hf3]. exact Hunder.
      * by apply create_sublist.
    + eexists _, _, _. split; [reflexivity |]. split; [done |].
      by apply create_sublist.
Qed.

Lemma syncTask_plan_sublist listId taskId allSpecs w :
  NoDup (task_ids (remote w)) → distinct_entries (fs w) →
  plan (syncTask listId taskId allSpecs true w).2
    `sublist_of` actions (syncTask listId taskId allSpecs false w).2.
Proof.
  intros Hnd Hde.
  destruct (syncTask_sim listId taskId allSpecs w w Hnd Hde (same_dirs_refl w))
    as (r & w' & es & E & _ & Hsub); [done |].
  by rewrite E.
Qed.

(** *** Ids of different branches *)

Lemma prefix_plain_eq (a b x y : string) :
  plain a = true → plain b = true → starts_sep x → starts_sep y →
  String.prefix (b +:+ y) (a +:+ x) = true → a = b.
Proof.
  intros Ha Hb (c & x' & -> & Hc) (d & y' & -> & Hd). revert b Hb.
  induction a as [| u a IH]; intros [| v b] Hb H; [done | | |].
  - rewrite app_nil_l_s, app_cons_s in H. cbn [String.prefix] in H.
    destruct (ascii_dec v c) as [-> |]; [| done].
    cbn [plain] in Hb. destruct Hc as [-> | ->]; by vm_compute in Hb.
  - rewrite app_nil_l_s, app_cons_s in H. cbn [String.prefix] in H.
    destruct (ascii_dec d u) as [-> |]; [| done].
    cbn [plain] in Ha. destruct Hd as [-> | ->]; by vm_compute in Ha.
  - rewrite !app_cons_s in H. cbn [String.prefix] in H.
    destruct (ascii_dec v u) as [-> |]; [| done].
    cbn [plain] in Ha, Hb.
    apply andb_prop in Ha as [_ Ha]. apply andb_prop in Hb as [_ Hb].
    f_equal. by apply IH.
Qed.

Lemma tail_colon_sep x : id_tail x → starts_sep (x +:+ ":").
Proof.
  intros [_ [-> | [x' ->]]].
  - exists ":"%char, "". split; [done | by left].
  - exists "-"%char, (x' +:+ ":"). split; [done | by right].
Qed.

(** Two ids that part at a segment. *)
Lemma apart_segments (p a b x y : string) :
  plain a = true → plain b = true → a ≠ b → id_tail x → id_tail y →
  apart (p +:+ "-" +:+ a +:+ x) (p +:+ "-" +:+ b +:+ y).
Proof.
  intros Ha Hb Hne Hx Hy name Hname.
  destruct (startsWith name ((p +:+ "-" +:+ b +:+ y) +:+ ":")) eqn:E; [| done].
  exfalso. apply Hne. unfold startsWith in *.
  apply prefix_inv in Hname as [r ->].
  rewrite !app_assoc_s in E. rewrite !prefix_app_inv in E.
  apply (prefix_plain_eq a b (x +:+ ":" +:+ r) (y +:+ ":")); try done.
  - rewrite <- app_assoc_s. destruct (tail_colon_sep x Hx) as (c & x' & -> & Hc).
    exists c, (x' +:+ r). by rewrite app_cons_s.
  - by apply tail_colon_sep.
Qed.

Lemma take_digits_plain (s ds rest : string) :
  take_digits s = (ds, rest) → plain ds = true.
Proof.
  revert ds rest. induction s as [| c s IH]; intros ds rest H.
  - by injection H as <- <-.
  - cbn [take_digits] in H. destruct (is_digit c) eqn:Hc.
    + destruct (take_digits s) as [ds' rest']. injection H as <- <-.
      cbn [plain]. rewrite (IH _ _ eq_refl), andb_true_r.
      rewrite !bool_decide_eq_false_2; [done | |]; by intros ->.
    + by injection H as <- <-.
Qed.

Lemma is_segment_plain (letter : ascii) (n : string) :
  letter ≠ ":"%char → letter ≠ "-"%char →
  is_segment letter n = true → plain n = true.
Proof.
  intros Hl Hl'. unfold is_segment, segment.
  destruct n as [| c s]; [done |].
  case_bool_decide as Hc; [| done].
  destruct (take_digits s) as [ds rest] eqn:E.
  destruct ds as [| d ds]; [done |]. destruct rest; [| done]. intros _.
  cbn [plain]. rewrite !bool_decide_eq_false_2 by congruence.
  rewrite (take_digits_all _ _ E). apply (take_digits_plain _ _ _ E).
Qed.

Lemma under_tail taskId c : under taskId c → ∃ x, id_tail x ∧ c = taskId +:+ x.
Proof.
  intros [-> | (n & Hn & ->)].
  - exists "". rewrite app_nil_r_s. split; [| done]. split; [done | by left].
  - exists ("-" +:+ n). split; [| done]. split; [| right; by exists n].
    rewrite app_cons_s, app_nil_l_s. cbn [has_colon].
    by rewrite (is_segment_no_colon "S").
Qed.

Lemma under_feature_tail featureId c :
  under_feature featureId c → ∃ x, id_tail x ∧ c = featureId +:+ x.
Proof.
  intros [-> | (n & Hn & Hc)].
  - exists "". rewrite app_nil_r_s. split; [| done]. split; [done | by left].
  - apply under_tail in Hc as (x & [Hx _] & ->).
    exists ("-" +:+ n +:+ x). rewrite !app_assoc_s. split; [| done].
    split; [| right; by exists (n +:+ x)].
    rewrite app_cons_s, app_nil_l_s. cbn [has_colon].
    by rewrite has_colon_app, (is_segment_no_colon "T"), Hx.
Qed.

Lemma tasks_apart featureId n n' j c :
  is_segment "T" n = true → is_segment "T" n' = true → n ≠ n' →
  under (featureId +:+ "-" +:+ n) j → under (featureId +:+ "-" +:+ n') c →
  apart j c.
Proof.
  intros Hn Hn' Hne Hj Hc.
  apply under_tail in Hj as (x & Hx & ->). apply under_tail in Hc as (y & Hy & ->).
  rewrite !app_assoc_s.
  apply apart_segments; try done; by apply (is_segment_plain "T").
Qed.

Lemma features_apart epicId a b j c :
  is_segment "F" a = true → is_segment "F" b = true → a ≠ b →
  under_feature (epicId +:+ "-" +:+ a) j →
  under_feature (epicId +:+ "-" +:+ b) c →
  apart j c.
Proof.
  intros Ha Hb Hne Hj Hc.
  apply under_feature_tail in Hj as (x & Hx & ->).
  apply under_feature_tail in Hc as (y & Hy & ->).
  rewrite !app_assoc_s.
  apply apart_segments; try done; by apply (is_segment_plain "F").
Qed.

(** *** A loop of syncs *)

Lemma quiet_world {A} (m : M A) w : quiet m → ∃ r es, m w = (r, w, es).
Proof.
  intros H. destruct (quiet_run m w H) as [Hw _].
  destruct (m w) as [[r w'] es]. cbn [fst snd] in Hw. subst w'. by eexists _, _.
Qed.

Section Loop.
Variables dry live : string → M unit.
Variable mine : string → string → Prop.
Variable agree : string → World → Prop.
Variable good : string → Prop.
Variable w : World.

Hypothesis dry_quiet : ∀ x, quiet (dry x).
Hypothesis sim : ∀ x wl,
  good x → NoDup (task_ids (remote wl)) → same_dirs wl w → agree x wl →
  ∃ r wl' es,
    live x wl = (r, wl', es)
    ∧ frame (mine x) wl wl'
    ∧ (r = Ok tt → plan (dry x w).2 `sublist_of` actions es).
Hypothesis step : ∀ x y wl wl',
  good x → good y → x ≠ y → frame (mine x) wl wl' → agree y wl → agree y wl'.

(** The live loop from [wl] against the dry loop from [w], when every
    element reads the same in both worlds. *)
Lemma loop_sim xs wl :
  NoDup xs → Forall good xs →
  NoDup (task_ids (remote wl)) → same_dirs wl w →
  (∀ x, x ∈ xs → agree x wl) →
  ∃ r wl' es,
    for_each xs live wl = (r, wl', es)
    ∧ frame (λ c, ∃ x, x ∈ xs ∧ mine x c) wl wl'
    ∧ (r = Ok tt → plan (for_each xs dry w).2 `sublist_of` actions es).
Proof.
  intros Hxs. revert wl.
  induction Hxs as [| x xs Hx Hxs IH]; intros wl Hgood Hnd Hsd Hag.
  - eexists _, _, _. split; [reflexivity |]. split; [apply frame_refl | done].
  - apply Forall_cons in Hgood as [Hgx Hgood].
    destruct (sim x wl Hgx Hnd Hsd) as (r1 & w1 & es1 & E1 & Hf1 & Hsub1).
    { apply Hag. left. }
    assert (frame (λ c, ∃ y, y ∈ x :: xs ∧ mine y c) wl w1) as Hf1'.
    { eapply frame_mono; [| exact Hf1]. intros j Hj. exists x. split; [left | done]. }
    cbn [for_each]. unfold bind at 1. rewrite E1.
    destruct r1 as [[] | err].
    2: { eexists _, _, _. split; [reflexivity |]. split; [done | by intros [=]]. }
    destruct (IH w1) as (r2 & w2 & es2 & E2 & Hf2 & Hsub2); try done.
    { by apply Hf1. }
    { eapply same_dirs_trans; [| exact Hsd]. apply Hf1. }
    { intros y Hy. apply (step x y wl w1); try done.
      - rewrite Forall_forall in Hgood. by apply Hgood.
      - by intros ->.
      - apply Hag. by right. }
    rewrite E2. eexists _, _, _. split; [reflexivity |]. split.
    + eapply frame_trans; [exact Hf1' |].
      eapply frame_mono; [| exact Hf2].
      intros j (y & Hy & Hj). exists y. split; [by right | done].
    + intros ->. unfold bind at 1.
      destruct (quiet_world (dry x) w (dry_quiet x)) as (rd & esd & Ed).
      rewrite Ed in *. cbn [snd] in Hsub1. rewrite actions_app.
      destruct rd as [[] | errd].
      * destruct (for_each xs dry w) as [[r' w'] es']. cbn [snd] in *.
        rewrite plan_app. apply sublist_app; auto.
      * cbn [snd]. apply sublist_inserts_r. auto.
Qed.

End Loop.

(** *** The sync of a feature *)

(** The loop over the tasks of a feature. *)
Lemma tasks_loop listId featureId allSpecs ts w wl :
  distinct_entries (fs w) →
  NoDup ts →
  Forall (λ t, ∃ n, is_segment "T" n = true ∧ t = featureId +:+ "-" +:+ n) ts →
  NoDup (task_ids (remote wl)) → same_dirs wl w →
  (∀ c, under_feature featureId c → look wl listId c = look w listId c) →
  ∃ r wl' es,
    for_each ts (λ t, syncTask listId t allSpecs false) wl = (r, wl', es)
    ∧ frame (under_feature featureId) wl wl'
    ∧ (r = Ok tt →
       plan (for_each ts (λ t, syncTask listId t allSpecs true) w).2
         `sublist_of` actions es).
Proof.
  intros Hde Hts Hform Hnd Hsd Hlook.
  destruct (loop_sim (λ t, syncTask listId t allSpecs true)
              (λ t, syncTask listId t allSpecs false) under
              (λ t wl, ∀ c, under t c → look wl listId c = look w listId c)
              (λ t, ∃ n, is_segment "T" n = true ∧ t = featureId +:+ "-" +:+ n)
              w) with (xs := ts) (wl := wl)
    as (r & wl' & es & E & Hf & Hsub); try done.
  - intros t. apply quiet_syncTask.
  - intros t wl0 _ Hnd0 Hsd0 Hag.
    destruct (syncTask_sim listId t allSpecs w wl0 Hnd0 Hde Hsd0 Hag)
      as (r & wl' & es & E & Hf & Hsub).
    exists r, wl', es. split; [done |]. split; [done |]. by intros _.
  - intros x y wl0 wl1 (n & Hn & ->) (n' & Hn' & ->) Hne Hf Hag c Hc.
    rewrite <- (Hag c Hc). apply Hf. intros j Hj.
    apply (tasks_apart featureId n n'); try done. congruence.
  - intros t Ht c Hc. apply Hlook. right.
    rewrite Forall_forall in Hform. destruct (Hform t Ht) as (n & Hn & ->).
    by exists n.
  - exists r, wl', es. split; [done |]. split; [| done].
    eapply frame_mono; [| exact Hf]. intros j (t & Ht & Hj). right.
    rewrite Forall_forall in Hform. destruct (Hform t Ht) as (n & Hn & ->).
    by exists n.
Qed.

Lemma item_name_prefix' id ttl :
  startsWith (id +:+ ": " +:+ ttl) (id +:+ ":") = true.
Proof.
  unfold startsWith. change ": " with (":" +:+ " ").
  rewrite (app_assoc_s ":"), <- app_assoc_s. apply prefix_app.
Qed.

Lemma bind_eq {A B} (m : M A) (k : A → M B) w r w1 es1 :
  m w = (r, w1, es1) →
  bind m k w
  = match r with
    | Ok a => let '(r2, w2, es2) := k a w1 in (r2, w2, es1 ++ es2)
    | Throw e => (Throw e, w1, es1)
    end.
Proof. intros H. unfold bind. rewrite H. by destruct r. Qed.

Lemma bind_console {B} msg (k : M B) w :
  bind (console msg) (λ _, k) w
  = let '(r, w', es) := k w in (r, w', Console msg :: es).
Proof. done. Qed.

Lemma feature_tasks_sim listId featureId allSpecs w wl :
  NoDup (task_ids (remote wl)) → distinct_entries (fs w) → same_dirs wl w →
  (∀ c, under_feature featureId c → look wl listId c = look w listId c) →
  ∃ r wl' es,
    feature_tasks listId featureId allSpecs false wl = (r, wl', es)
    ∧ frame (under_feature featureId) wl wl'
    ∧ (r = Ok tt →
       plan (feature_tasks listId featureId allSpecs true w).2
         `sublist_of` actions es).
Proof.
  intros Hnd Hde Hsd Hlook. unfold feature_tasks.
  destruct (parseSpecId featureId) as [[e [f |] ? ? ? ?] |].
  2, 3: eexists _, _, _; (split; [reflexivity |]);
    (split; [apply frame_refl | done]).
  set (dir := path_join ["specs"; e; f]).
  destruct (child_ids_if_exists_run "T" featureId dir wl) as (rl & El & _).
  destruct (child_ids_if_exists_run "T" featureId dir w) as (rd & Ed & _).
  pose proof (child_ids_if_exists_same "T" featureId dir w wl Hsd) as Hsame.
  pose proof (child_ids_if_exists_wf "T" featureId dir w) as Hwf.
  rewrite (bind_eq _ _ _ _ _ _ El), (bind_eq _ _ _ _ _ _ Ed).
  rewrite El, Ed in *. cbn [fst snd] in Hsame, Hwf. subst rl.
  destruct rd as [ts | err].
  2: { eexists _, _, _. split; [reflexivity |].
       split; [apply frame_refl | by intros [=]]. }
  destruct (Hwf ts Hde eq_refl) as [Hts Hform].
  destruct (length ts =? 0)%nat.
  { eexists _, _, _. split; [reflexivity |]. split; [apply frame_refl | done]. }
  destruct (tasks_loop listId featureId allSpecs ts w wl Hde Hts Hform Hnd Hsd
              Hlook) as (r & wl' & es & E & Hf & Hsub).
  rewrite !bind_console, E.
  eexists _, _, _. split; [reflexivity |]. split; [done |].
  intros ->. destruct (for_each ts _ w) as [[r' w'] es']. cbn [snd] in *.
  by apply Hsub.
Qed.

Lemma findList_run folderId name w :
  findList folderId name w
  = (Ok (find_list (remote w) folderId name), w, [Call (GetLists folderId)]).
Proof. done. Qed.

Lemma syncFeature_run folderId featureId allSpecs dryRun w featureData :
  allSpecs !! featureId = Some featureData →
  syncFeature folderId featureId allSpecs dryRun w
  = let ttl := title (metadata featureData) in
    let name := featureId +:+ ": " +:+ ttl in
    let head := [Console (MsgRule 60); Console (MsgFeatureHeader featureId ttl);
                 Console (MsgRule 60); Call (GetLists folderId)] in
    match find_list (remote w) folderId name with
    | Some lst =>
        let '(r, w', es) :=
          feature_tasks (list_id lst) featureId allSpecs dryRun w in
        (r, w', head ++ Console (MsgListExists name) :: es)
    | None =>
        if dryRun then
          (Ok tt, w,
           head ++ [Console (MsgWouldCreateList name); Console MsgSkippingFeature])
        else
          let '(lst, w1, _) := createList folderId name w in
          match lst with
          | Ok lst =>
              let '(r, w', es) :=
                feature_tasks (list_id lst) featureId allSpecs false w1 in
              (r, w',
               head ++ [Console (MsgCreatingList name);
                        Call (CreateList folderId name);
                        Console (MsgCreatedList (list_id lst))] ++ es)
          | Throw e => (Throw e, w1, head)
          end
    end.
Proof.
  intros Hspec. unfold syncFeature. rewrite Hspec. cbv zeta.
  unfold bind at 1. cbn [console emit].
  unfold bind at 1. cbn [console emit].
  unfold bind at 1. cbn [console emit].
  unfold bind at 1. rewrite findList_run.
  destruct (find_list _ _ _) as [lst |].
  - unfold bind at 1. unfold bind at 1. cbn [console emit ret].
    by destruct (feature_tasks _ _ _ _ _) as [[r w'] es].
  - destruct dryRun; [done |].
    unfold bind at 1. unfold bind at 1. cbn [console emit].
    unfold bind at 1. cbn [createList].
    unfold bind at 1. cbn [console emit ret].
    by destruct (feature_tasks _ _ _ _ _) as [[r w'] es].
Qed.

Lemma frame_create_list (mine : string → Prop) folderId name j w :
  mine j → startsWith name (j +:+ ":") = true →
  frame mine w (createList folderId name w).1.2.
Proof.
  intros Hj Hname. split; [done |]. split; [by apply same_dirs_fs |].
  split; [| split; [done |]].
  - intros folderId' name' Hc. unfold find_list, lists_of.
    cbn [createList fst snd remote r_lists].
    rewrite filter_app, fmap_app, filter_cons, filter_nil. cbn [fst].
    case_decide; [| by rewrite app_nil_r].
    cbn [fmap list_fmap snd]. rewrite find_snoc; [done |].
    cbn [list_name]. apply String.eqb_neq. intros ->.
    by rewrite (Hc j Hj) in Hname.
  - intros id c _ Hin Hown. done.
Qed.

(** The live sync of a feature from [wl], against the dry sync from a
    world [w] in which the lookups of its list and of the items of its
    tasks and subtasks show the same and the directories are the same. *)
Lemma syncFeature_sim folderId featureId allSpecs w wl :
  NoDup (task_ids (remote wl)) → distinct_entries (fs w) → same_dirs wl w →
  (∀ name, startsWith name (featureId +:+ ":") = true →
           find_list (remote wl) folderId name
           = find_list (remote w) folderId name) →
  (∀ listId c, under_feature featureId c →
               look wl listId c = look w listId c) →
  ∃ r wl' es,
    syncFeature folderId featureId allSpecs false wl = (r, wl', es)
    ∧ frame (under_feature featureId) wl wl'
    ∧ (r = Ok tt →
       plan (syncFeature folderId featureId allSpecs true w).2
         `sublist_of` actions es).
Proof.
  intros Hnd Hde Hsd Hlists Hlook.
  destruct (allSpecs !! featureId) as [featureData |] eqn:Hspec.
  2: { unfold syncFeature. rewrite Hspec. eexists _, _, _.
       split; [reflexivity |]. split; [apply frame_refl | done]. }
  rewrite !(syncFeature_run _ _ _ _ _ _ Hspec). cbv zeta.
  rewrite Hlists by apply item_name_prefix'.
  destruct (find_list (remote w) folderId _) as [lst |].
  - destruct (feature_tasks_sim (list_id lst) featureId allSpecs w wl Hnd Hde
                Hsd (Hlook _)) as (r & wl' & es & E & Hf & Hsub).
    rewrite E. eexists _, _, _. split; [reflexivity |]. split; [done |].
    intros ->. destruct (feature_tasks _ _ _ true w) as [[r' w'] es'].
    cbn [snd] in *. rewrite !plan_app, !actions_app.
    apply sublist_app; [done |]. by apply Hsub.
  - pose proof (frame_create_list (under_feature featureId) folderId
                  (featureId +:+ ": " +:+ title (metadata featureData))
                  featureId wl (or_introl eq_refl) (item_name_prefix' _ _))
      as Hf1.
    destruct (createList folderId _ wl) as [[[lst | err] w1] es1] eqn:E1;
      [| done].
    cbn [fst snd] in Hf1.
    destruct (feature_tasks_sim (list_id lst) featureId allSpecs w1 w1)
      as (r & wl' & es & E & Hf & _); try done.
    { by apply Hf1. }
    { apply (distinct_entries_same w); [| done].
      eapply same_dirs_trans; [| exact Hsd]. apply Hf1. }
    rewrite E. eexists _, _, _. split; [reflexivity |]. split.
    + by eapply frame_trans.
    + intros _. cbn [snd]. rewrite !plan_app, !actions_app.
      apply sublist_app; [done |]. cbn. apply sublist_skip, sublist_nil_l.
Qed.

(** *** The sync of an epic *)

(** The loop over the features of an epic. *)
Lemma features_loop folderId epicId allSpecs fids w :
  distinct_entries (fs w) →
  NoDup fids →
  Forall (λ f, ∃ a, is_segment "F" a = true ∧ f = epicId +:+ "-" +:+ a) fids →
  NoDup (task_ids (remote w)) →
  ∃ r w' es,
    for_each fids (λ f, syncFeature folderId f allSpecs false) w = (r, w', es)
    ∧ (r = Ok tt →
       plan (for_each fids (λ f, syncFeature folderId f allSpecs true) w).2
         `sublist_of` actions es).
Proof.
  intros Hde Hfids Hform Hnd.
  destruct (loop_sim (λ f, syncFeature folderId f allSpecs true)
              (λ f, syncFeature folderId f allSpecs false) under_feature
              (λ f wl,
                 (∀ name, startsWith name (f +:+ ":") = true →
                          find_list (remote wl) folderId name
                          = find_list (remote w) folderId name)
                 ∧ ∀ listId c, under_feature f c →
                               look wl listId c = look w listId c)
              (λ f, ∃ a, is_segment "F" a = true ∧ f = epicId +:+ "-" +:+ a)
              w) with (xs := fids) (wl := w)
    as (r & w' & es & E & _ & Hsub); try done.
  - intros f. apply quiet_syncFeature.
  - intros f wl _ Hnd0 Hsd0 [Hlists Hlook].
    by apply syncFeature_sim.
  - intros x y wl0 wl1 (a & Ha & ->) (b & Hb & ->) Hne Hf [Hlists Hlook].
    destruct Hf as (_ & _ & Hl & Hk & _). split.
    + intros name Hname. rewrite <- (Hlists name Hname). apply Hl.
      intros j Hj.
      apply (features_apart epicId b a (epicId +:+ "-" +:+ b) j);
        try done; [congruence | by left].
    + intros listId c Hc. rewrite <- (Hlook listId c Hc). apply Hk.
      intros j Hj. apply (features_apart epicId a b); try done. congruence.
  - by exists r, w', es.
Qed.

Lemma syncEpic_run spaceId epicId allSpecs dryRun w epicData :
  allSpecs !! epicId = Some epicData →
  syncEpic spaceId epicId allSpecs dryRun w
  = let ttl := title (metadata epicData) in
    let name := epicId +:+ " - " +:+ ttl in
    let head := [Console (MsgRule 70); Console (MsgEpicHeader epicId ttl);
                 Console (MsgRule 70); Call (GetFolders spaceId)] in
    let features folder :=
      let! entries := readdirSync (path_join ["specs"; epicId]) in
      let featureDirs := child_ids "F" epicId entries in
      console (MsgFoundFeatures (length featureDirs)) >>
      for_each featureDirs
        (λ featureId, syncFeature (folder_id folder) featureId allSpecs dryRun) in
    match List.find (λ f, String.eqb (folder_name f) name)
                    (folders_of (remote w) spaceId) with
    | Some folder =>
        let '(r, w', es) := features folder w in
        (r, w', head ++ Console (MsgFolderExists name) :: es)
    | None =>
        if dryRun then
          (Ok tt, w,
           head ++ [Console (MsgWouldCreateFolder name); Console MsgSkippingEpic])
        else
          let '(folder, w1, _) := createFolder spaceId name w in
          match folder with
          | Ok folder =>
              let '(r, w', es) := features folder w1 in
              (r, w',
               head ++ [Console (MsgCreatingFolder name);
                        Call (CreateFolder spaceId name);
                        Console (MsgCreatedFolder (folder_id folder))] ++ es)
          | Throw e => (Throw e, w1, head)
          end
    end.
Proof.
  intros Hspec. unfold syncEpic. rewrite Hspec. cbv zeta.
  unfold bind at 1. cbn [console emit].
  unfold bind at 1. cbn [console emit].
  unfold bind at 1. cbn [console emit].
  unfold bind at 1. unfold findFolder at 1. unfold bind at 1.
  cbn [getFolders ret].
  destruct (List.find _ _) as [folder |].
  - unfold bind at 1. unfold bind at 1. cbn [console emit ret].
    match goal with
    | |- context [bind (readdirSync ?d) ?k w] =>
        by destruct (bind (readdirSync d) k w) as [[r w'] es]
    end.
  - destruct dryRun; [done |].
    unfold bind at 1. unfold bind at 1. cbn [console emit].
    unfold bind at 1. cbn [createFolder].
    unfold bind at 1. cbn [console emit ret].
    match goal with
    | |- context [bind (readdirSync ?d) ?k ?w0] =>
        by destruct (bind (readdirSync d) k w0) as [[r w'] es]
    end.
Qed.

Lemma readdirSync_run dir w :
  readdirSync dir w
  = (match fs_dirs (fs w) !! dir with
     | Some entries => Ok entries
     | None => Throw (if existsSync (fs w) dir then ENOTDIR dir else ENOENT dir)
     end, w, []).
Proof. unfold readdirSync. by destruct (fs_dirs _ !! _). Qed.

(** The log of a dry run of an epic is a subsequence of what the live
    run from the same world does, when that run ends normally. *)
Lemma syncEpic_plan_sublist spaceId epicId allSpecs w :
  NoDup (task_ids (remote w)) → distinct_entries (fs w) →
  (syncEpic spaceId epicId allSpecs false w).1.1 = Ok tt →
  plan (syncEpic spaceId epicId allSpecs true w).2
    `sublist_of` actions (syncEpic spaceId epicId allSpecs false w).2.
Proof.
  intros Hnd Hde.
  destruct (allSpecs !! epicId) as [epicData |] eqn:Hspec.
  2: { unfold syncEpic. by rewrite Hspec. }
  rewrite !(syncEpic_run _ _ _ _ _ _ Hspec). cbv zeta.
  destruct (List.find _ _) as [folder |].
  - set (dir := path_join ["specs"; epicId]).
    rewrite !(bind_eq _ _ _ _ _ _ (readdirSync_run dir w)).
    destruct (fs_dirs (fs w) !! dir) as [entries |] eqn:Hdir; [| by intros [=]].
    cbv zeta. rewrite !bind_console.
    destruct (child_ids_wf "F" epicId entries (Hde dir entries Hdir))
      as [Hfids Hform].
    destruct (features_loop (folder_id folder) epicId allSpecs
                (child_ids "F" epicId entries) w Hde Hfids Hform Hnd)
      as (r & w' & es & E & Hsub).
    rewrite E.
    destruct (for_each _ (λ f, syncFeature _ f _ true) w) as [[rd wd] esd].
    cbn [fst snd app] in *.
    intros ->. rewrite !plan_cons, !actions_cons. cbn [planned performed app].
    by apply Hsub.
  - destruct (createFolder spaceId _ w) as [[[folder | err] w1] es1]; [| done].
    match goal with
    | |- context [bind (readdirSync ?d) ?k w1] =>
        destruct (bind (readdirSync d) k w1) as [[r w'] es]
    end.
    intros _. cbn [snd]. rewrite !plan_app, !actions_app.
    apply sublist_app; [done |]. cbn. apply sublist_skip, sublist_nil_l.
Qed.

(** The same for a feature. *)
Lemma syncFeature_plan_sublist folderId featureId allSpecs w :
  NoDup (task_ids (remote w)) → distinct_entries (fs w) →
  (syncFeature folderId featureId allSpecs false w).1.1 = Ok tt →
  plan (syncFeature folderId featureId allSpecs true w).2
    `sublist_of` actions (syncFeature folderId featureId allSpecs false w).2.
Proof.
  intros Hnd Hde.
  destruct (syncFeature_sim folderId featureId allSpecs w w Hnd Hde
              (same_dirs_refl w)) as (r & w' & es & E & _ & Hsub); try done.
  rewrite E. exact Hsub.
Qed.




(** * Further properties of the code *)

(** ** Spec ids *)

Lemma optional_segment_unfold letter s :
  optional_segment letter s
  = match s with
    | String c s' =>
        if bool_decide (c = "-"%char) then
          match segment letter s' with
          | Some (seg, rest) => (Some seg, rest)
          | None => (None, s)
          end
        else (None, s)
    | EmptyString => (None, s)
    end.
Proof.
  destruct s as [| c s']; [done |].
  destruct (decide (c = "-"%char)) as [-> | Hne].
  - by rewrite bool_decide_eq_true_2.
  - rewrite bool_decide_eq_false_2 by done.
    destruct c as [[] [] [] [] [] [] [] []]; try reflexivity.
    by destruct Hne.
Qed.

Lemma take_digits_split s ds rest :
  take_digits s = (ds, rest) →
  s = ds +:+ rest ∧ no_digit_head rest = true.
Proof.
  revert ds rest. induction s as [| c s IH]; intros ds rest H.
  - by injection H as <- <-.
  - cbn [take_digits] in H. destruct (is_digit c) eqn:Hc.
    + destruct (take_digits s) as [ds' rest'] eqn:E. injection H as <- <-.
      destruct (IH _ _ eq_refl) as [-> Hrest]. by rewrite app_cons_s.
    + injection H as <- <-. rewrite app_nil_l_s. split; [done |].
      cbn [no_digit_head]. by rewrite Hc.
Qed.

Lemma take_digits_app ds rest :
  take_digits ds = (ds, "") → no_digit_head rest = true →
  take_digits (ds +:+ rest) = (ds, rest).
Proof.
  revert rest. induction ds as [| c ds IH]; intros rest Hds Hrest.
  - rewrite app_nil_l_s. destruct rest as [| c r]; [done |].
    cbn [take_digits no_digit_head] in *. by destruct (is_digit c).
  - rewrite app_cons_s. cbn [take_digits] in *.
    destruct (is_digit c); [| done].
    destruct (take_digits ds) as [ds' rest'] eqn:E. injection Hds as -> ->.
    by rewrite (IH rest eq_refl Hrest).
Qed.

Lemma segment_split letter s seg rest :
  segment letter s = Some (seg, rest) →
  is_segment letter seg = true ∧ s = seg +:+ rest ∧ no_digit_head rest = true.
Proof.
  unfold is_segment, segment. destruct s as [| c s']; [done |].
  case_bool_decide as Hc; [subst c | done].
  destruct (take_digits s') as [ds r] eqn:E.
  destruct ds as [| d ds]; [done |]. intros [= <- <-].
  destruct (take_digits_split _ _ _ E) as [-> Hr].
  rewrite bool_decide_eq_true_2 by done.
  assert (take_digits (String d ds) = (String d ds, "")) as ->.
  { clear Hr. revert E. generalize (String d ds). clear d ds.
    intros ds. revert r. induction ds as [| x ds IH]; intros r E; [done |].
    rewrite app_cons_s in E. cbn [take_digits] in *.
    destruct (is_digit x); [| done].
    destruct (take_digits (ds +:+ r)) as [ds' r'] eqn:E'.
    injection E as -> ->. by rewrite (IH _ E'). }
  by rewrite app_cons_s.
Qed.

Lemma is_segment_head letter seg :
  is_segment letter seg = true →
  ∃ ds, seg = String letter ds ∧ take_digits ds = (ds, "") ∧ ds ≠ "".
Proof.
  unfold is_segment, segment. destruct seg as [| c s']; [done |].
  case_bool_decide as Hc; [subst c | done].
  destruct (take_digits s') as [ds r] eqn:E.
  destruct ds as [| d ds]; [done |]. destruct r; [| done]. intros _.
  pose proof (take_digits_all _ _ E) as ->.
  exists (String d ds). split; [done |]. split; [exact E | done].
Qed.

Lemma segment_app letter seg rest :
  is_segment letter seg = true → no_digit_head rest = true →
  segment letter (seg +:+ rest) = Some (seg, rest).
Proof.
  intros Hseg Hrest. apply is_segment_head in Hseg as (ds & -> & Hds & Hne).
  rewrite app_cons_s. unfold segment. rewrite bool_decide_eq_true_2 by done.
  rewrite (take_digits_app _ _ Hds Hrest). by destruct ds.
Qed.

Lemma segment_other letter c s :
  c ≠ letter → segment letter (String c s) = None.
Proof. intros H. unfold segment. by rewrite bool_decide_eq_false_2. Qed.

Lemma optional_segment_split letter s part rest :
  optional_segment letter s = (part, rest) →
  is_part letter part = true ∧ s = dash part +:+ rest.
Proof.
  rewrite optional_segment_unfold. destruct s as [| c s'].
  { by intros [= <- <-]. }
  case_bool_decide as Hc; [subst c | by intros [= <- <-]].
  destruct (segment letter s') as [[seg r] |] eqn:E; [| by intros [= <- <-]].
  intros [= <- <-]. destruct (segment_split _ _ _ _ E) as (Hseg & -> & _).
  split; [done |]. cbn [dash]. by rewrite !app_cons_s, app_nil_l_s.
Qed.

Lemma optional_segment_some letter seg rest :
  is_segment letter seg = true → no_digit_head rest = true →
  optional_segment letter (dash (Some seg) +:+ rest) = (Some seg, rest).
Proof.
  intros Hseg Hrest. rewrite optional_segment_unfold. cbn [dash].
  rewrite !app_cons_s, app_nil_l_s, bool_decide_eq_true_2 by done.
  by rewrite segment_app.
Qed.

(** The rest of an id after a part that is absent: nothing, or a dash
    and a segment of another letter. *)
Lemma optional_segment_none letter letter' part rest :
  letter' ≠ letter → is_part letter' part = true →
  (part = None → optional_segment letter rest = (None, rest)) →
  optional_segment letter (dash part +:+ rest) = (None, dash part +:+ rest).
Proof.
  intros Hne Hpart Hrest. destruct part as [seg |]; [| by apply Hrest].
  apply is_segment_head in Hpart as (ds & -> & _).
  rewrite optional_segment_unfold. cbn [dash].
  rewrite !app_cons_s, app_nil_l_s, bool_decide_eq_true_2 by done.
  by rewrite app_cons_s, segment_other.
Qed.

Lemma no_digit_head_dash part rest :
  no_digit_head rest = true → no_digit_head (dash part +:+ rest) = true.
Proof. by destruct part. Qed.

Lemma optional_segment_colon letter ttl :
  optional_segment letter (": " +:+ ttl) = (None, ": " +:+ ttl).
Proof. by rewrite optional_segment_unfold. Qed.

Lemma dash_none rest : dash None +:+ rest = rest.
Proof. done. Qed.

Lemma parseSpecId_inv specId parts :
  parseSpecId specId = Some parts →
  is_segment "E" (epic parts) = true
  ∧ is_part "F" (feature parts) = true
  ∧ is_part "T" (task parts) = true
  ∧ is_part "S" (subtask parts) = true
  ∧ is_part "X" (extension parts) = true
  ∧ specId = epic parts +:+ dash (feature parts) +:+ dash (task parts)
             +:+ dash (subtask parts) +:+ dash (extension parts)
  ∧ level parts = deepest (feature parts) (task parts) (subtask parts)
                          (extension parts).
Proof.
  unfold parseSpecId.
  destruct (segment "E" specId) as [[e r1] |] eqn:E; [| done].
  destruct (optional_segment "F" r1) as [f r2] eqn:F.
  destruct (optional_segment "T" r2) as [t r3] eqn:T.
  destruct (optional_segment "S" r3) as [s r4] eqn:S.
  destruct (optional_segment "X" r4) as [x r5] eqn:X.
  destruct (String.eqb_spec r5 "") as [-> |]; [| done].
  intros [= <-]. cbn [epic feature task subtask extension level].
  destruct (segment_split _ _ _ _ E) as (He & -> & _).
  destruct (optional_segment_split _ _ _ _ F) as (Hf & ->).
  destruct (optional_segment_split _ _ _ _ T) as (Ht & ->).
  destruct (optional_segment_split _ _ _ _ S) as (Hs & ->).
  destruct (optional_segment_split _ _ _ _ X) as (Hx & ->).
  rewrite app_nil_r_s. repeat (split; [done |]).
  by destruct x, s, t, f.
Qed.

Local Ltac skip_part :=
  first
    [ rewrite optional_segment_some by (first [done | reflexivity])
    | rewrite dash_none
    | rewrite (optional_segment_none "F" "T") by done
    | rewrite (optional_segment_none "F" "S") by done
    | rewrite (optional_segment_none "F" "X") by done
    | rewrite (optional_segment_none "T" "S") by done
    | rewrite (optional_segment_none "T" "X") by done
    | rewrite (optional_segment_none "S" "X") by done
    | rewrite optional_segment_colon ].

Lemma parseSpecId_build e f t s x :
  is_segment "E" e = true → is_part "F" f = true → is_part "T" t = true →
  is_part "S" s = true → is_part "X" x = true →
  parseSpecId (e +:+ dash f +:+ dash t +:+ dash s +:+ dash x)
  = Some {| epic := e; feature := f; task := t; subtask := s; extension := x;
            level := deepest f t s x |}.
Proof.
  intros He Hf Ht Hs Hx. unfold parseSpecId.
  rewrite <- (app_nil_r_s (dash x)).
  destruct f as [f |], t as [t |], s as [s |], x as [x |];
    cbn [is_part deepest] in *;
    rewrite segment_app by (first [done | reflexivity]);
    repeat skip_part; reflexivity.
Qed.

Lemma has_colon_dash letter part :
  letter ≠ ":"%char → is_part letter part = true → has_colon (dash part) = false.
Proof.
  intros Hl. destruct part as [seg |]; [| done]. cbn [is_part dash]. intros H.
  rewrite app_cons_s, app_nil_l_s. cbn [has_colon].
  by rewrite (is_segment_no_colon letter).
Qed.

Lemma parseSpecId_no_colon specId parts :
  parseSpecId specId = Some parts → has_colon specId = false.
Proof.
  intros H. apply parseSpecId_inv in H as (He & Hf & Ht & Hs & Hx & -> & _).
  rewrite !has_colon_app, (is_segment_no_colon "E") by done.
  by rewrite (has_colon_dash "F"), (has_colon_dash "T"), (has_colon_dash "S"),
    (has_colon_dash "X").
Qed.

Lemma extractSpecIdFromTitle_build e f t s x ttl :
  is_segment "E" e = true → is_part "F" f = true → is_part "T" t = true →
  is_part "S" s = true → is_part "X" x = true →
  extractSpecIdFromTitle
    ((e +:+ dash f +:+ dash t +:+ dash s +:+ dash x) +:+ ": " +:+ ttl)
  = Some (e +:+ dash f +:+ dash t +:+ dash s).
Proof.
  intros He Hf Ht Hs Hx. unfold extractSpecIdFromTitle.
  rewrite !app_assoc_s.
  destruct f as [f |], t as [t |], s as [s |], x as [x |];
    cbn [is_part] in *;
    rewrite segment_app by (first [done | reflexivity]);
    repeat skip_part; reflexivity.
Qed.

(** X1: [parseSpecId] accepts exactly the ids made of an epic segment
    and, after it, optional feature, task, subtask and extension segments
    in this order, each introduced by a dash; a level may be left out
    (E1-T2 is accepted).  It returns these segments, and as level the
    deepest one that is present. *)
Theorem parseSpecId_characterised :
  (∀ specId parts,
     parseSpecId specId = Some parts →
     is_segment "E" (epic parts) = true
     ∧ is_part "F" (feature parts) = true
     ∧ is_part "T" (task parts) = true
     ∧ is_part "S" (subtask parts) = true
     ∧ is_part "X" (extension parts) = true
     ∧ specId = epic parts +:+ dash (feature parts) +:+ dash (task parts)
                +:+ dash (subtask parts) +:+ dash (extension parts)
     ∧ level parts = deepest (feature parts) (task parts) (subtask parts)
                             (extension parts))
  ∧ (∀ e f t s x,
       is_segment "E" e = true → is_part "F" f = true → is_part "T" t = true →
       is_part "S" s = true → is_part "X" x = true →
       parseSpecId (e +:+ dash f +:+ dash t +:+ dash s +:+ dash x)
       = Some {| epic := e; feature := f; task := t; subtask := s;
                 extension := x; level := deepest f t s x |}).
Proof. split; [exact parseSpecId_inv | exact parseSpecId_build]. Qed.

Lemma parseSpecId_characterised_witness :
  (is_segment "E" "E1" = true
   ∧ is_part "T" (Some "T2") = true
   ∧ "E1-T2" = "E1" +:+ dash None +:+ dash (Some "T2") +:+ dash None +:+ dash None
   ∧ level {| epic := "E1"; feature := None; task := Some "T2";
              subtask := None; extension := None; level := LTask |}
     = deepest None (Some "T2") None None)
  ∧ parseSpecId ("E02" +:+ dash (Some "F01") +:+ dash None +:+ dash (Some "S3")
                 +:+ dash None)
    = Some {| epic := "E02"; feature := Some "F01"; task := None;
              subtask := Some "S3"; extension := None; level := LSubtask |}.
Proof.
  destruct parseSpecId_characterised as [Hinv Hbuild]. split.
  - destruct (Hinv "E1-T2" {| epic := "E1"; feature := None; task := Some "T2";
                              subtask := None; extension := None;
                              level := LTask |} eq_refl)
      as (He & _ & Ht & _ & _ & Hid & Hl).
    by repeat split.
  - by apply Hbuild.
Defined.

(** X2: the name the engine gives to the item of an id leads back to
    the id: from [id: title], for an id that [parseSpecId] accepts,
    [extractSpecIdFromTitle] returns the id up to its subtask, whatever
    the title; this is the id itself when it has no extension, and the id
    of the subtask, task, feature or epic above when it has one. *)
Theorem extractSpecIdFromTitle_item_name specId parts spec :
  parseSpecId specId = Some parts →
  extractSpecIdFromTitle (item_name specId spec)
  = Some (epic parts +:+ dash (feature parts) +:+ dash (task parts)
          +:+ dash (subtask parts))
  ∧ (extension parts = None →
     extractSpecIdFromTitle (item_name specId spec) = Some specId).
Proof.
  intros H. apply parseSpecId_inv in H as (He & Hf & Ht & Hs & Hx & Hid & _).
  assert (extractSpecIdFromTitle (item_name specId spec)
          = Some (epic parts +:+ dash (feature parts) +:+ dash (task parts)
                  +:+ dash (subtask parts))) as Hextract.
  { unfold item_name. rewrite Hid. by apply extractSpecIdFromTitle_build. }
  split; [done |]. intros Hnone. rewrite Hextract, Hid, Hnone. cbn [dash].
  by rewrite app_nil_r_s.
Qed.

Lemma extractSpecIdFromTitle_item_name_witness :
  extractSpecIdFromTitle
    (item_name "E02-F01-T01-S01-X2" (metadata (spec_data "First" "planned")))
  = Some ("E02" +:+ dash (Some "F01") +:+ dash (Some "T01") +:+ dash (Some "S01"))
  ∧ extractSpecIdFromTitle
      (item_name "E02-F01" (metadata (spec_data "Feature" "planned")))
    = Some "E02-F01".
Proof.
  split.
  - exact (proj1 (extractSpecIdFromTitle_item_name "E02-F01-T01-S01-X2"
                    _ _ eq_refl)).
  - exact (proj2 (extractSpecIdFromTitle_item_name "E02-F01" _ _ eq_refl)
             eq_refl).
Defined.

(** X3: what [extractSpecIdFromTitle] returns is a prefix of the title
    and an id that [parseSpecId] accepts, without an extension. *)
Theorem extractSpecIdFromTitle_sound title specId :
  extractSpecIdFromTitle title = Some specId →
  String.prefix specId title = true
  ∧ ∃ parts, parseSpecId specId = Some parts ∧ extension parts = None.
Proof.
  unfold extractSpecIdFromTitle.
  destruct (segment "E" title) as [[e r1] |] eqn:E; [| done].
  destruct (optional_segment "F" r1) as [f r2] eqn:F.
  destruct (optional_segment "T" r2) as [t r3] eqn:T.
  destruct (optional_segment "S" r3) as [s r4] eqn:S.
  intros [= <-].
  destruct (segment_split _ _ _ _ E) as (He & -> & _).
  destruct (optional_segment_split _ _ _ _ F) as (Hf & ->).
  destruct (optional_segment_split _ _ _ _ T) as (Ht & ->).
  destruct (optional_segment_split _ _ _ _ S) as (Hs & ->).
  split.
  - rewrite <- !app_assoc_s. apply prefix_app.
  - exists {| epic := e; feature := f; task := t; subtask := s;
              extension := None; level := deepest f t s None |}.
    split; [| done]. rewrite <- (app_nil_r_s (dash s)).
    by apply (parseSpecId_build e f t s None).
Qed.

Lemma extractSpecIdFromTitle_sound_witness :
  String.prefix "E3-F1" "E3-F1-t7 rest" = true
  ∧ ∃ parts, parseSpecId "E3-F1" = Some parts ∧ extension parts = None.
Proof. exact (extractSpecIdFromTitle_sound "E3-F1-t7 rest" "E3-F1" eq_refl). Defined.

(** X4: on a name that the engine made for an id, the prefix test of the
    item lookups is the equality of ids: for ids [a] and [b] that
    [parseSpecId] accepts, the name [b: title] starts with [a:] exactly
    when [a = b], whatever the title. *)
Theorem lookup_prefix_is_id_equality a b pa pb spec :
  parseSpecId a = Some pa → parseSpecId b = Some pb →
  startsWith (item_name b spec) (a +:+ ":") = bool_decide (a = b).
Proof.
  intros Ha Hb. case_bool_decide as Hab.
  - subst b. apply item_name_prefix.
  - destruct (startsWith _ _) eqn:E; [| done]. destruct Hab.
    apply (prefix_colon_eq a b (item_name b spec)).
    + by eapply parseSpecId_no_colon.
    + by eapply parseSpecId_no_colon.
    + exact E.
    + apply item_name_prefix.
Qed.

Lemma lookup_prefix_is_id_equality_witness :
  startsWith (item_name "E1-F1-T10" (metadata (spec_data "Bar" "planned")))
             ("E1-F1-T1" +:+ ":")
  = bool_decide ("E1-F1-T1" = "E1-F1-T10").
Proof.
  exact (lookup_prefix_is_id_equality "E1-F1-T1" "E1-F1-T10" _ _ _
           eq_refl eq_refl).
Defined.

(** ** Branch names *)

Lemma alnum_not_dash c : is_alnum c = true → c ≠ "-"%char.
Proof. by intros H ->. Qed.

Lemma dash_runs_loose p t : loose_slug p (dash_runs p t) = true.
Proof.
  revert p. induction t as [| c t IH]; intros p; [done |].
  cbn [dash_runs]. destruct (is_alnum c) eqn:Hc.
  - cbn [loose_slug]. by rewrite Hc.
  - destruct p; [done |]. cbn [loose_slug]. by rewrite IH.
Qed.

Lemma strip_leading_loose p s :
  loose_slug p s = true → loose_slug true (strip_leading_dashes s) = true.
Proof.
  revert p. induction s as [| c s IH]; intros p H; [done |].
  cbn [strip_leading_dashes loose_slug] in *. case_bool_decide as Hc.
  - subst c. cbn in H. apply andb_prop in H as [_ H]. by eapply IH.
  - cbn [loose_slug]. by destruct (is_alnum c).
Qed.

Lemma strip_trailing_slug p s :
  loose_slug p s = true →
  strip_trailing_dashes s = "" ∨ slug_from p (strip_trailing_dashes s) = true.
Proof.
  revert p. induction s as [| c s IH]; intros p H; [by left |].
  cbn [strip_trailing_dashes loose_slug] in *.
  destruct (is_alnum c) eqn:Hc.
  - rewrite bool_decide_eq_false_2 by by apply alnum_not_dash.
    right. cbn [andb slug_from]. rewrite Hc.
    destruct (IH _ H) as [-> | Hr]; done.
  - apply andb_prop in H as [H Hs]. apply andb_prop in H as [Hd Hp].
    apply bool_decide_eq_true_1 in Hd as ->.
    rewrite bool_decide_eq_true_2 by done. cbn [andb].
    destruct (String.eqb_spec (strip_trailing_dashes s) "") as [| Hne];
      [by left |].
    right. cbn [slug_from]. rewrite Hc, bool_decide_eq_true_2, Hp by done.
    destruct (IH _ Hs) as [| Hr]; done.
Qed.

Lemma sanitizeTitle_is_slug t : is_slug (sanitizeTitle t) = true.
Proof.
  unfold sanitizeTitle, is_slug.
  destruct (strip_trailing_slug true (strip_leading_dashes (dash_runs false t)))
    as [-> | H]; [| done |].
  - eapply strip_leading_loose, dash_runs_loose.
  - by destruct (strip_trailing_dashes _).
Qed.

Lemma slug_from_alphabet p s :
  slug_from p s = true →
  Forall (λ c, is_alnum c = true ∨ c = "-"%char) (String.list_ascii_of_string s).
Proof.
  revert p. induction s as [| c s IH]; intros p H; [constructor |].
  cbn [slug_from String.list_ascii_of_string] in *. destruct (is_alnum c) eqn:Hc.
  - constructor; [by left | by eapply IH].
  - apply andb_prop in H as [H Hs]. apply andb_prop in H as [Hd _].
    apply bool_decide_eq_true_1 in Hd. constructor; [by right | by eapply IH].
Qed.

Lemma slug_from_no_trailing_dash p r : slug_from p (r +:+ "-") = false.
Proof.
  revert p. induction r as [| c r IH]; intros p.
  - rewrite app_nil_l_s. cbn. by destruct p.
  - rewrite app_cons_s. cbn [slug_from]. rewrite !IH.
    destruct (is_alnum c); [done |]. by rewrite andb_false_r.
Qed.

Lemma slug_from_no_double_dash p a b : slug_from p (a +:+ "--" +:+ b) = false.
Proof.
  revert p. induction a as [| c a IH]; intros p.
  - rewrite app_nil_l_s, !app_cons_s, app_nil_l_s. cbn [slug_from].
    change (is_alnum "-") with false. cbv iota.
    rewrite bool_decide_eq_true_2 by done. cbn [negb andb]. by destruct p.
  - rewrite app_cons_s. cbn [slug_from]. rewrite !IH.
    destruct (is_alnum c); [done |]. by rewrite andb_false_r.
Qed.

(** X5: the branch name [sanitizeTitle] makes of a title consists of
    letters, digits and dashes only, does not start or end with a dash
    and has no two dashes in a row, whatever the title. *)
Theorem sanitizeTitle_shape title :
  let name := sanitizeTitle title in
  Forall (λ c, is_alnum c = true ∨ c = "-"%char) (String.list_ascii_of_string name)
  ∧ String.prefix "-" name = false
  ∧ (∀ r, name ≠ r +:+ "-")
  ∧ (∀ a b, name ≠ a +:+ "--" +:+ b).
Proof.
  cbv zeta. pose proof (sanitizeTitle_is_slug title) as H.
  destruct (sanitizeTitle title) as [| c s] eqn:E.
  - split; [constructor |]. split; [done |]. split.
    + by intros [| ? ?].
    + by intros [| ? ?] ?.
  - cbn [is_slug] in H. split; [by eapply slug_from_alphabet |]. split; [| split].
    + cbn [slug_from] in H. cbn [String.prefix].
      destruct (ascii_dec "-" c) as [<- |]; [| done]. done.
    + intros r Hr. by rewrite Hr, slug_from_no_trailing_dash in H.
    + intros a b Hab. by rewrite Hab, slug_from_no_double_dash in H.
Qed.

Lemma alnum_dash_runs p t :
  List.filter is_alnum (String.list_ascii_of_string (dash_runs p t))
  = List.filter is_alnum (String.list_ascii_of_string t).
Proof.
  revert p. induction t as [| c t IH]; intros p; [done |].
  cbn [dash_runs String.list_ascii_of_string List.filter].
  destruct (is_alnum c) eqn:Hc.
  - cbn [String.list_ascii_of_string List.filter]. by rewrite Hc, IH.
  - destruct p; [apply IH |].
    cbn [String.list_ascii_of_string List.filter].
    change (is_alnum "-") with false. cbv iota. apply IH.
Qed.

Lemma alnum_strip_leading s :
  List.filter is_alnum (String.list_ascii_of_string (strip_leading_dashes s))
  = List.filter is_alnum (String.list_ascii_of_string s).
Proof.
  induction s as [| c s IH]; [done |].
  cbn [strip_leading_dashes]. case_bool_decide as Hc; [| done].
  subst c. cbn [String.list_ascii_of_string List.filter].
  change (is_alnum "-") with false. by cbv iota.
Qed.

Lemma alnum_strip_trailing s :
  List.filter is_alnum (String.list_ascii_of_string (strip_trailing_dashes s))
  = List.filter is_alnum (String.list_ascii_of_string s).
Proof.
  induction s as [| c s IH]; [done |].
  cbn [strip_trailing_dashes String.list_ascii_of_string List.filter].
  case_bool_decide as Hc.
  - subst c. change (is_alnum "-") with false. cbv iota. cbn [andb].
    destruct (String.eqb_spec (strip_trailing_dashes s) "") as [E |].
    + by rewrite <- IH, E.
    + cbn [String.list_ascii_of_string List.filter].
      change (is_alnum "-") with false. by cbv iota.
  - cbn [andb String.list_ascii_of_string List.filter]. by rewrite IH.
Qed.

Lemma sanitizeTitle_alnum t :
  List.filter is_alnum (String.list_ascii_of_string (sanitizeTitle t))
  = List.filter is_alnum (String.list_ascii_of_string t).
Proof.
  unfold sanitizeTitle.
  by rewrite alnum_strip_trailing, alnum_strip_leading, alnum_dash_runs.
Qed.

(** X6: [sanitizeTitle] keeps the letters and digits of the title, all
    of them and in their order; so the branch name is empty exactly when
    the title has no letter and no digit. *)
Theorem sanitizeTitle_keeps_letters_and_digits title :
  List.filter is_alnum (String.list_ascii_of_string (sanitizeTitle title))
  = List.filter is_alnum (String.list_ascii_of_string title)
  ∧ (sanitizeTitle title = ""
     ↔ Forall (λ c, is_alnum c = false) (String.list_ascii_of_string title)).
Proof.
  pose proof (sanitizeTitle_alnum title) as H. split; [done |].
  assert (∀ l, List.filter is_alnum l = [] ↔ Forall (λ c, is_alnum c = false) l)
    as Hnil.
  { induction l as [| c l IH]; [by split |]. cbn [List.filter].
    destruct (is_alnum c) eqn:Hc.
    - split; [done |]. intros Hall. apply Forall_cons in Hall as [Hall _].
      congruence.
    - rewrite IH. split; [by constructor |]. intros Hall.
      by apply Forall_cons in Hall as [_ Hall]. }
  rewrite <- Hnil, <- H. split; [by intros -> |].
  pose proof (sanitizeTitle_is_slug title) as Hslug.
  destruct (sanitizeTitle title) as [| c s]; [done |].
  cbn [is_slug slug_from String.list_ascii_of_string List.filter] in *.
  destruct (is_alnum c); [done |]. by rewrite andb_false_r in Hslug.
Qed.

Lemma slug_from_weaken s : slug_from true s = true → slug_from false s = true.
Proof.
  destruct s as [| c s]; [done |]. cbn [slug_from].
  destruct (is_alnum c); [done |]. by rewrite andb_false_r.
Qed.

Lemma dash_runs_slug p s : slug_from p s = true → dash_runs p s = s.
Proof.
  revert p. induction s as [| c s IH]; intros p H; [done |].
  cbn [slug_from dash_runs] in *. destruct (is_alnum c).
  - by rewrite (IH _ H).
  - apply andb_prop in H as [H Hs]. apply andb_prop in H as [Hd Hp].
    apply bool_decide_eq_true_1 in Hd as ->. destruct p; [done |].
    by rewrite (IH _ Hs).
Qed.

Lemma strip_trailing_slug_id p s :
  slug_from p s = true → strip_trailing_dashes s = s.
Proof.
  revert p. induction s as [| c s IH]; intros p H; [done |].
  cbn [slug_from strip_trailing_dashes] in *. destruct (is_alnum c) eqn:Hc.
  - rewrite (IH _ H), bool_decide_eq_false_2; [done |].
    by apply alnum_not_dash.
  - apply andb_prop in H as [H Hs]. rewrite (IH _ Hs).
    destruct s as [| d s]; [done |]. by rewrite andb_false_r.
Qed.

Lemma sanitizeTitle_slug s : is_slug s = true → sanitizeTitle s = s.
Proof.
  unfold is_slug, sanitizeTitle. destruct s as [| c s]; [done |]. intros H.
  rewrite (dash_runs_slug false) by by apply slug_from_weaken.
  assert (strip_leading_dashes (String c s) = String c s) as ->.
  { cbn [slug_from strip_leading_dashes] in *.
    destruct (is_alnum c) eqn:Hc; [| by rewrite andb_false_r in H].
    rewrite bool_decide_eq_false_2; [done |]. by apply alnum_not_dash. }
  by eapply strip_trailing_slug_id.
Qed.

(** X7: the titles that [sanitizeTitle] leaves as they are, are the
    texts of letters and digits with single dashes between them, and a
    branch name is one of them: sanitizing twice is sanitizing once. *)
Theorem sanitizeTitle_idempotent :
  (∀ s, sanitizeTitle s = s ↔ is_slug s = true)
  ∧ ∀ title, sanitizeTitle (sanitizeTitle title) = sanitizeTitle title.
Proof.
  split.
  - intros s. split; [| apply sanitizeTitle_slug].
    intros <-. apply sanitizeTitle_is_slug.
  - intros title. apply sanitizeTitle_slug, sanitizeTitle_is_slug.
Qed.

(** ** The status and priority tables *)

Lemma lower_char_idempotent c : lower_char (lower_char c) = lower_char c.
Proof. by destruct c as [[] [] [] [] [] [] [] []]. Qed.

Lemma toLowerCase_idempotent s : toLowerCase (toLowerCase s) = toLowerCase s.
Proof.
  induction s as [| c s IH]; [done |].
  cbn [toLowerCase]. by rewrite lower_char_idempotent, IH.
Qed.

(** X8: whatever the status text of a source document, the status the
    engine sends is one of the eight statuses of the workspace, DRAFT when
    the text is none of the twelve spellings the table knows; only the
    name of a member that every object inherits is answered by that
    member.  Letter case does not matter.  Each status of the workspace
    but IN PROGRESS is a spelling of itself; IN PROGRESS, written with a
    space, is not in the table and becomes DRAFT. *)
Theorem mapStatusToClickUp_range :
  (∀ status,
     match mapStatusToClickUp status with
     | Val v => v ∈ vocabulary
     | Proto k => k ∈ object_prototype_keys ∧ k = toLowerCase status
     end)
  ∧ (∀ status,
       match own_property statusMap (toLowerCase status) with
       | Some v => mapStatusToClickUp status = Val v
       | None =>
           if bool_decide (toLowerCase status ∈ object_prototype_keys)
           then mapStatusToClickUp status = Proto (toLowerCase status)
           else mapStatusToClickUp status = Val "DRAFT"
       end)
  ∧ (∀ status,
       mapStatusToClickUp (toLowerCase status) = mapStatusToClickUp status)
  ∧ (∀ st : Status,
       mapStatusToClickUp (status_name st)
       = Val (match st with
              | IN_PROGRESS => "DRAFT"
              | _ => status_name st
              end)).
Proof.
  assert (∀ k v, own_property statusMap k = Some v →
                 v ∈ vocabulary ∧ String.eqb v "" = false) as Htable.
  { intros k v E. apply own_property_Some in E. unfold statusMap in E.
    repeat (apply elem_of_cons in E as [E | E];
            [injection E as -> ->; split; [compute_done | done] |]).
    by apply elem_of_nil in E. }
  split; [| split; [| split]].
  - intros status. unfold mapStatusToClickUp, Js.get.
    destruct (own_property statusMap _) as [v |] eqn:E.
    + destruct (Htable _ _ E) as [Hv ->]. done.
    + case_bool_decide; [done | compute_done].
  - intros status. unfold mapStatusToClickUp, Js.get.
    destruct (own_property statusMap _) as [v |] eqn:E.
    + destruct (Htable _ _ E) as [_ ->]. done.
    + by case_bool_decide.
  - intros status. unfold mapStatusToClickUp.
    by rewrite toLowerCase_idempotent.
  - by intros [].
Qed.

(** X9: the priority the engine sends is a number from 1 (urgent) to 4
    (low), 3 when the text is none of the six names the table knows, in
    any letter case; only the name of a member that every object
    inherits is answered by that member. *)
Theorem mapPriorityToClickUp_range :
  (∀ priority,
     match mapPriorityToClickUp priority with
     | Val n => 1 <= n <= 4
     | Proto k => k ∈ object_prototype_keys ∧ k = toLowerCase priority
     end)
  ∧ (∀ priority,
       match own_property priorityMap (toLowerCase priority) with
       | Some n => mapPriorityToClickUp priority = Val n
       | None =>
           if bool_decide (toLowerCase priority ∈ object_prototype_keys)
           then mapPriorityToClickUp priority = Proto (toLowerCase priority)
           else mapPriorityToClickUp priority = Val 3
       end)
  ∧ (∀ priority,
       mapPriorityToClickUp (toLowerCase priority)
       = mapPriorityToClickUp priority).
Proof.
  assert (∀ k n, own_property priorityMap k = Some n →
                 1 <= n <= 4 ∧ (n =? 0) = false) as Htable.
  { intros k n E. apply own_property_Some in E. unfold priorityMap in E.
    repeat (apply elem_of_cons in E as [E | E];
            [injection E as -> ->; split; [lia | done] |]).
    by apply elem_of_nil in E. }
  split; [| split].
  - intros priority. unfold mapPriorityToClickUp, Js.get.
    destruct (own_property priorityMap _) as [n |] eqn:E.
    + destruct (Htable _ _ E) as [Hn ->]. done.
    + case_bool_decide; [done | lia].
  - intros priority. unfold mapPriorityToClickUp, Js.get.
    destruct (own_property priorityMap _) as [n |] eqn:E.
    + destruct (Htable _ _ E) as [_ ->]. done.
    + by case_bool_decide.
  - intros priority. unfold mapPriorityToClickUp.
    by rewrite toLowerCase_idempotent.
Qed.

(** ** The spacing of requests *)

Section Spacing.
Import Client.

Lemma timer_delay_pos ms : 1 <= timer_delay ms.
Proof.
  unfold timer_delay. destruct ms as [n |]; [| lia].
  destruct (n <? 1) eqn:E1; [cbn; lia |].
  destruct (n >? 2147483647) eqn:E2; [cbn; lia |]. cbn. lia.
Qed.

Lemma rate_limit_spacing cfg c :
  0 < minRequestInterval cfg <= 2147483647 →
  lastRequestTime c <= now c →
  let c' := (rate_limit cfg c).1 in
  lastRequestTime c + minRequestInterval cfg <= lastRequestTime c'
  ∧ lastRequestTime c' = now c'
  ∧ now c <= now c'.
Proof.
  intros HI Hc. unfold rate_limit.
  destruct (now c - lastRequestTime c <? minRequestInterval cfg) eqn:E;
    cbn [fst now lastRequestTime sleep].
  - unfold timer_delay.
    destruct (_ <? 1) eqn:E1; [lia |].
    destruct (_ >? 2147483647) eqn:E2; [lia |]. cbn [orb]. lia.
  - lia.
Qed.

Lemma request_spacing cfg retry server c :
  0 < minRequestInterval cfg <= 2147483647 →
  lastRequestTime c <= now c →
  Forall (λ a, 0 <= latency a) server →
  let c' := (request cfg retry server c).1.1.2 in
  lastRequestTime c + minRequestInterval cfg <= lastRequestTime c'
  ∧ lastRequestTime c' <= now c'.
Proof.
  intros HI Hc Hserver. revert retry c Hc.
  induction Hserver as [| a server Ha Hserver IH]; intros retry c Hc; cbv zeta.
  - pose proof (rate_limit_spacing cfg c HI Hc) as H. cbv zeta in H.
    cbn [request]. destruct (rate_limit cfg c) as [c1 es1].
    cbn [fst snd] in *. lia.
  - pose proof (rate_limit_spacing cfg c HI Hc) as H. cbv zeta in H.
    rewrite request_cons. destruct (rate_limit cfg c) as [c1 es1].
    cbn [fst snd] in H.
    destruct (outcome a) as [data | status header |];
      [cbn [fst snd now lastRequestTime]; lia | |
       cbn [fst snd now lastRequestTime]; lia].
    destruct (retry_interceptor cfg && (status =? 429) && negb retry);
      [| cbn [fst snd now lastRequestTime]; lia].
    cbv zeta.
    match goal with
    | |- context [request cfg true server ?c3] =>
        pose proof (IH true c3) as H3
    end.
    cbv zeta in H3.
    pose proof (timer_delay_pos
                  ((λ s, s * 1000) <$> retry_after_seconds header)) as Ht.
    cbn [sleep now lastRequestTime] in H3.
    destruct (request cfg true server _) as [[[r c'] es'] server'].
    cbn [fst snd] in *. lia.
Qed.

(** X10: every call through either client leaves its time stamp at
    least one request interval after the stamp it found, and never in the
    future; so two consecutive attempts, of one call or of two, are
    stamped at least 200 ms (1000 ms for the migration script) apart.
    This needs a clock that does not run backwards. *)
Theorem requests_are_spaced cfg retry server c :
  cfg = sync_client ∨ cfg = migration_client →
  lastRequestTime c <= now c →
  Forall (λ a, 0 <= latency a) server →
  let c' := (request cfg retry server c).1.1.2 in
  lastRequestTime c + minRequestInterval cfg <= lastRequestTime c'
  ∧ lastRequestTime c' <= now c'.
Proof.
  intros Hcfg Hc Hserver. apply request_spacing; try done.
  destruct Hcfg as [-> | ->]; cbn; lia.
Qed.

Lemma requests_are_spaced_witness :
  lastRequestTime clock0 + minRequestInterval migration_client
  <= lastRequestTime (request migration_client false throttled_then_ok clock0).1.1.2
  ∧ lastRequestTime (request migration_client false throttled_then_ok clock0).1.1.2
    <= now (request migration_client false throttled_then_ok clock0).1.1.2.
Proof.
  apply (requests_are_spaced migration_client false throttled_then_ok clock0).
  - by right.
  - cbn. lia.
  - repeat constructor; cbn; lia.
Defined.

End Spacing.

(** ** A second sync *)

Lemma find_tasks_of r listId c :
  find_by_custom_id (tasks_of r listId) c
  = snd <$> List.find (matches listId c) (r_tasks r).
Proof.
  unfold find_by_custom_id, tasks_of.
  induction (r_tasks r) as [| p ps IH]; [done |].
  rewrite filter_cons. cbn [List.find]. unfold matches at 1.
  destruct (decide (p.1 = listId)) as [Hp | Hp].
  - rewrite bool_decide_eq_true_2 by done. cbn [andb fmap list_fmap List.find].
    destruct (startsWith _ _); [done | exact IH].
  - rewrite bool_decide_eq_false_2 by done. exact IH.
Qed.

Lemma find_fmap_own {A} (g : A → bool) (f : A → A) ps p0 :
  List.find g ps = Some p0 →
  g (f p0) = true → (∀ p, p ∈ ps → p ≠ p0 → f p = p) →
  List.find g (f <$> ps) = Some (f p0).
Proof.
  intros Hfind Hg Hf. induction ps as [| p ps IH]; [done |].
  cbn [List.find fmap list_fmap] in *. destruct (g p) eqn:Hp.
  - injection Hfind as ->. by rewrite Hg.
  - assert (p ≠ p0) as Hne.
    { intros ->. apply find_some in Hfind as [_ Hg0]. congruence. }
    rewrite (Hf p) by (done || left). rewrite Hp. apply IH; [done |].
    intros q Hq. apply Hf. by right.
Qed.

(** After an update of the item a lookup finds, the lookup finds the
    updated item, when it still has a name of the id. *)
Lemma found_after_update listId c w e upd :
  NoDup (task_ids (remote w)) →
  find_by_custom_id (tasks_of (remote w) listId) c = Some e →
  startsWith (task_name (apply_update upd e)) (c +:+ ":") = true →
  find_by_custom_id (tasks_of (remote (updated (task_id e) upd w)) listId) c
  = Some (apply_update upd e).
Proof.
  intros Hnd Hfind Hname. rewrite find_tasks_of in Hfind |- *.
  destruct (List.find _ _) as [p0 |] eqn:E; [| done]. injection Hfind as <-.
  unfold updated, updateTask. cbn [fst snd remote r_tasks].
  pose proof (find_some _ _ E) as [Hin Hm]. apply list_elem_of_In in Hin.
  assert (update_in (task_id p0.2) upd p0 = (p0.1, apply_update upd p0.2)) as Hp0.
  { unfold update_in. by rewrite String.eqb_refl. }
  rewrite (find_fmap_own _ _ _ p0 E); [by rewrite Hp0 | |].
  - rewrite Hp0. unfold matches in *. cbn [fst snd].
    apply andb_prop in Hm as [-> _]. by rewrite Hname.
  - intros p Hp Hne. apply update_in_other. intros Hid. apply Hne.
    by apply (NoDup_fmap_eq (task_id ∘ snd) _ p p0 Hnd).
Qed.

Lemma find_snoc_found {A} (g : A → bool) ps p :
  List.find g ps = None → g p = true → List.find g (ps ++ [p]) = Some p.
Proof.
  intros Hnone Hp. induction ps as [| q ps IH]; cbn [app List.find] in *.
  - by rewrite Hp.
  - destruct (g q); [done |]. by apply IH.
Qed.

Lemma found_after_create listId c w data :
  find_by_custom_id (tasks_of (remote w) listId) c = None →
  startsWith (td_name data) (c +:+ ":") = true →
  find_by_custom_id (tasks_of (remote (createTask listId data w).1.2) listId) c
  = Some (new_task (fresh (task_ids (remote w))) (r_default_status (remote w))
                   data).
Proof.
  intros Hfind Hname. rewrite find_tasks_of in Hfind |- *.
  destruct (List.find _ (r_tasks (remote w))) as [p0 |] eqn:E; [done |].
  cbn [createTask fst snd remote r_tasks].
  rewrite (find_snoc_found _ _ _ E); [done |].
  unfold matches. cbn [fst snd new_task task_name].
  by rewrite bool_decide_eq_true_2, Hname.
Qed.

Lemma found_same_remote listId c w w' :
  remote w' = remote w →
  find_by_custom_id (tasks_of (remote w') listId) c
  = find_by_custom_id (tasks_of (remote w) listId) c.
Proof. by intros ->. Qed.

(** The second of two live syncs of a subtask or an extension. *)
Lemma sync_child_settled lvl listId parentId c allSpecs w childData e s :
  allSpecs !! c = Some childData →
  mapStatusToClickUp (status (metadata childData)) = Val s →
  find_by_custom_id (tasks_of (remote w) listId) c = Some e →
  task_name e = item_name c (metadata childData) →
  task_status e = s ∨ isStatusDowngrade (Val (task_status e)) (Val s) = true →
  ∃ es, sync_child lvl listId parentId c allSpecs false w = (Ok tt, w, es)
        ∧ mutations es = [].
Proof.
  intros Hspec Hs Hfind Hname Hst.
  rewrite (sync_child_existing _ _ _ _ _ _ _ _ _ Hspec Hfind).
  rewrite reconcile_name_run, Hname, String.eqb_refl, Hs.
  rewrite reconcile_status_run. cbv zeta.
  case_bool_decide as Heq; [by eexists |].
  destruct Hst as [<- | ->]; [done |]. by eexists.
Qed.

Lemma sync_child_live_absent_world lvl listId parentId c allSpecs w childData :
  allSpecs !! c = Some childData →
  find_by_custom_id (tasks_of (remote w) listId) c = None →
  let t := new_task (fresh (task_ids (remote w))) (r_default_status (remote w))
                    (task_data c childData) in
  ∃ w' es,
    sync_child lvl listId parentId c allSpecs false w = (Ok tt, w', es)
    ∧ remote w'
      = remote (updated (task_id t) (update_parent parentId)
                  (createTask listId (task_data c childData) w).1.2).
Proof.
  intros Hspec Hfind t. unfold sync_child. rewrite Hspec.
  unfold findSubtaskByCustomId.
  erewrite bind_run; [| unfold bind, getTasks; cbn; by rewrite Hfind].
  cbv zeta. cbv iota.
  unfold bind at 1. cbn [console emit].
  unfold bind at 1. cbn [createTask].
  unfold bind at 1. cbn [console emit].
  unfold bind at 1. cbn [updateTask].
  unfold bind at 1. cbn [console emit].
  unfold bind at 1.
  match goal with
  | |- context [updateSpecFileWithTaskId ?s ?i ?w0] =>
      destruct (updateSpecFileWithTaskId_run s i w0)
        as (r & w' & es & -> & Hr & _)
  end.
  cbn [ret]. eexists _, _. split; [reflexivity |]. by rewrite Hr.
Qed.

(** X11: a live sync of a subtask or an extension settles the item: a
    second live sync right after it sends no create or update call and
    writes no file, and leaves the workspace as the first one left it.
    This holds from every world in which item ids are unique, for a source
    status that the table maps to a status of the workspace. *)
Theorem sync_child_converges lvl listId parentId c allSpecs w childData s :
  NoDup (task_ids (remote w)) →
  allSpecs !! c = Some childData →
  mapStatusToClickUp (status (metadata childData)) = Val s →
  ∃ w1 es1 es2,
    sync_child lvl listId parentId c allSpecs false w = (Ok tt, w1, es1)
    ∧ sync_child lvl listId parentId c allSpecs false w1 = (Ok tt, w1, es2)
    ∧ mutations es2 = [].
Proof.
  intros Hnd Hspec Hs.
  assert (∀ w1 es1,
            sync_child lvl listId parentId c allSpecs false w = (Ok tt, w1, es1) →
            (∃ e1, find_by_custom_id (tasks_of (remote w1) listId) c = Some e1
                   ∧ task_name e1 = item_name c (metadata childData)
                   ∧ (task_status e1 = s
                      ∨ isStatusDowngrade (Val (task_status e1)) (Val s) = true)) →
            ∃ w1 es1 es2,
              sync_child lvl listId parentId c allSpecs false w = (Ok tt, w1, es1)
              ∧ sync_child lvl listId parentId c allSpecs false w1
                = (Ok tt, w1, es2)
              ∧ mutations es2 = []) as Hsettle.
  { intros w1 es1 E1 (e1 & Hfind1 & Hname1 & Hst1).
    destruct (sync_child_settled lvl listId parentId c allSpecs w1 childData e1 s
                Hspec Hs Hfind1 Hname1 Hst1) as (es2 & E2 & Hes2).
    by exists w1, es1, es2. }
  destruct (find_by_custom_id (tasks_of (remote w) listId) c) as [e |] eqn:Hfind.
  - pose proof (find_by_custom_id_Some _ _ _ Hfind) as [_ Hprefix].
    assert (∀ w0 e0,
              NoDup (task_ids (remote w0)) →
              find_by_custom_id (tasks_of (remote w0) listId) c = Some e0 →
              task_name e0 = item_name c (metadata childData) →
              task_id e0 = task_id e → task_status e0 = task_status e →
              ∃ w1 es3 e1,
                reconcile_status lvl false e (Val s) w0 = (Ok tt, w1, es3)
                ∧ find_by_custom_id (tasks_of (remote w1) listId) c = Some e1
                ∧ task_name e1 = item_name c (metadata childData)
                ∧ (task_status e1 = s
                   ∨ isStatusDowngrade (Val (task_status e1)) (Val s) = true))
      as Hstatus.
    { intros w0 e0 Hnd0 Hfind0 Hname0 Hid0 Hst0.
      rewrite reconcile_status_run. cbv zeta.
      case_bool_decide as Heq.
      { exists w0, [], e0. repeat split; try done. left. congruence. }
      destruct (isStatusDowngrade _ _) eqn:Hdown.
      { eexists w0, _, e0. repeat split; try done. right. by rewrite Hst0. }
      eexists _, _, (apply_update (update_status (Val s)) e0).
      split; [reflexivity |]. rewrite <- Hid0. split; [| split; [done | by left]].
      apply found_after_update; [done | done |].
      cbn [apply_update task_name update_status ud_name default].
      rewrite Hname0. apply item_name_prefix. }
    rewrite (sync_child_existing _ _ _ _ _ _ _ _ _ Hspec Hfind) in Hsettle |- *.
    rewrite reconcile_name_run, Hs in Hsettle |- *.
    destruct (String.eqb_spec (task_name e) (item_name c (metadata childData)))
      as [Hname | Hname].
    + destruct (Hstatus w e Hnd Hfind Hname eq_refl eq_refl)
        as (w1 & es3 & e1 & E3 & Hfind1 & Hname1 & Hst1).
      rewrite E3 in Hsettle |- *. eapply Hsettle; [reflexivity |]. by exists e1.
    + set (upd := update_name (item_name c (metadata childData))) in *.
      destruct (Hstatus (updated (task_id e) upd w) (apply_update upd e))
        as (w1 & es3 & e1 & E3 & Hfind1 & Hname1 & Hst1); try done.
      { by rewrite task_ids_updated. }
      { apply found_after_update; [done | done |]. apply item_name_prefix. }
      rewrite E3 in Hsettle |- *. eapply Hsettle; [reflexivity |]. by exists e1.
  - destruct (sync_child_live_absent_world lvl listId parentId c allSpecs w
                childData Hspec Hfind) as (w1 & es1 & E1 & Hr).
    apply (Hsettle w1 es1 E1).
    set (data := task_data c childData) in *.
    set (t := new_task _ _ data) in *.
    exists (apply_update (update_parent parentId) t).
    split; [| split; [done | left]].
    + rewrite (found_same_remote _ _ _ _ Hr).
      apply found_after_update.
      * by apply NoDup_created.
      * apply found_after_create; [done |]. apply item_name_prefix.
      * apply item_name_prefix.
    + cbn. by rewrite Hs.
Qed.

Lemma sync_child_converges_witness :
  ∃ w1 es1 es2,
    sync_child ISubtask "0" "0" "E02-F01-T01-S01" specs_e02_regressed false
      world_e02_synced = (Ok tt, w1, es1)
    ∧ sync_child ISubtask "0" "0" "E02-F01-T01-S01" specs_e02_regressed false w1
      = (Ok tt, w1, es2)
    ∧ mutations es2 = [].
Proof.
  apply (sync_child_converges ISubtask "0" "0" "E02-F01-T01-S01"
           specs_e02_regressed world_e02_synced
           (spec_data "First" "planned") "PLANNED").
  - compute_done.
  - reflexivity.
  - reflexivity.
Defined.

(** ** The engine only adds *)

Section Keeps.
Context {A B : Type} (I : World → Prop).

Lemma keeps_ret (a : A) : keeps I (ret a).
Proof. by apply hoare_ret. Qed.

Lemma keeps_throw (e : Error) : keeps I (@throw A e).
Proof. by apply hoare_throw. Qed.

Lemma keeps_bind (m : M A) (k : A → M B) :
  keeps I m → (∀ a, keeps I (k a)) → keeps I (bind m k).
Proof. intros Hm Hk. eapply hoare_bind; [apply Hm |]. intros a. apply Hk. Qed.

Lemma keeps_quiet (m : M A) : quiet m → keeps I m.
Proof.
  intros Hq w Hw. specialize (Hq w w eq_refl).
  destruct (m w) as [[[a | e] w'] es]; destruct Hq as [-> _];
    (split; [done |]); by apply Forall_forall.
Qed.

End Keeps.

Lemma keeps_for_each {A} I (xs : list A) (body : A → M unit) :
  (∀ x, keeps I (body x)) → keeps I (for_each xs body).
Proof. intros H. apply hoare_for_each. intros x _. apply H. Qed.

Lemma keeps_when I (c : bool) (m : M unit) : keeps I m → keeps I (when c m).
Proof. intros H. destruct c; [done | apply keeps_ret]. Qed.

Lemma grows_refl w : grows w w.
Proof. by repeat split. Qed.

Section Grows.
Variable w0 : World.

Lemma grows_createFolder spaceId name : keeps (grows w0) (createFolder spaceId name).
Proof.
  intros w (Hf & Hl & Ht). cbn. split; [| by repeat constructor].
  split; [by apply prefix_app_r | done].
Qed.

Lemma grows_createList folderId name : keeps (grows w0) (createList folderId name).
Proof.
  intros w (Hf & Hl & Ht). cbn. split; [| by repeat constructor].
  split; [done |]. split; [by apply prefix_app_r | done].
Qed.

Lemma grows_createTask listId data : keeps (grows w0) (createTask listId data).
Proof.
  intros w (Hf & Hl & Ht). cbn [createTask]. split; [| by repeat constructor].
  unfold grows. cbn [remote r_folders r_lists r_tasks].
  split; [done |]. split; [done |]. rewrite fmap_app. by apply prefix_app_r.
Qed.

Lemma grows_updateTask id upd : keeps (grows w0) (updateTask id upd).
Proof.
  intros w (Hf & Hl & Ht). cbn [updateTask]. split; [| by repeat constructor].
  unfold grows. cbn [remote r_folders r_lists r_tasks].
  split; [done |]. split; [done |].
  rewrite <- list_fmap_compose.
  erewrite (list_fmap_ext (fixed_part ∘ update_in id upd)); [exact Ht |].
  intros i p _. unfold update_in. cbn. by destruct (String.eqb _ _).
Qed.

Lemma grows_write_back specId id :
  keeps (grows w0) (updateSpecFileWithTaskId specId id).
Proof.
  intros w Hw.
  destruct (updateSpecFileWithTaskId_run specId id w)
    as (r & w' & es & -> & Hr & _).
  split; [| by apply Forall_forall]. unfold grows. by rewrite Hr.
Qed.

Local Ltac grows_step :=
  first
    [ apply keeps_ret | apply keeps_throw
    | apply grows_createFolder | apply grows_createList
    | apply grows_createTask | apply grows_updateTask | apply grows_write_back
    | apply keeps_quiet;
      first [ apply quiet_console | apply quiet_findFolder | apply quiet_findList
            | apply quiet_findTaskByCustomId | apply quiet_findSubtaskByCustomId
            | apply quiet_readdirSync | apply quiet_child_ids_if_exists
            | apply quiet_subtask_dirs ]
    | apply keeps_bind; [| intros ?]
    | apply keeps_for_each; intros ?
    | apply keeps_when
    | lazymatch goal with
      | |- keeps _ (match ?x with _ => _ end) => destruct x
      end ].

Lemma grows_sync_child lvl listId parentId childId allSpecs dryRun :
  keeps (grows w0) (sync_child lvl listId parentId childId allSpecs dryRun).
Proof. unfold sync_child, reconcile_name, reconcile_status. repeat grows_step. Qed.

Lemma grows_syncTask listId taskId allSpecs dryRun :
  keeps (grows w0) (syncTask listId taskId allSpecs dryRun).
Proof.
  unfold syncTask, reconcile_name, reconcile_status.
  repeat first [apply grows_sync_child | grows_step].
Qed.

Lemma grows_syncFeature folderId featureId allSpecs dryRun :
  keeps (grows w0) (syncFeature folderId featureId allSpecs dryRun).
Proof.
  unfold syncFeature, feature_tasks.
  repeat first [apply grows_syncTask | grows_step].
Qed.

Lemma grows_syncEpic spaceId epicId allSpecs dryRun :
  keeps (grows w0) (syncEpic spaceId epicId allSpecs dryRun).
Proof.
  unfold syncEpic. repeat first [apply grows_syncFeature | grows_step].
Qed.

End Grows.

Lemma keeps_run {A} I (m : M A) w : keeps I m → I w → I (m w).1.2.
Proof.
  intros H Hw. specialize (H w Hw).
  by destruct (m w) as [[[a | e] w'] es]; destruct H.
Qed.


(** ** Where a document is looked for *)

(** X13: the write-back of the sync script touches one file at most,
    the document of the spec id: it never throws, changes nothing in the
    workspace and no directory, creates no file and leaves every other
    file as it is; and it writes nothing at all, and returns false, when
    the id is not a spec id or its document is not there. *)
Theorem write_back_touches_one_file specId clickupTaskId w :
  ∃ r w' es,
    updateSpecFileWithTaskId specId clickupTaskId w = (Ok r, w', es)
    ∧ remote w' = remote w
    ∧ fs_dirs (fs w') = fs_dirs (fs w)
    ∧ (∀ p, is_Some (fs_files (fs w') !! p) ↔ is_Some (fs_files (fs w) !! p))
    ∧ (∀ p, (∀ parts, parseSpecId specId = Some parts →
                      p ≠ spec_file_path specId parts) →
            fs_files (fs w') !! p = fs_files (fs w) !! p)
    ∧ (document_of w specId = None → r = false ∧ w' = w).
Proof.
  destruct (updateSpecFileWithTaskId_cases specId clickupTaskId w)
    as (r & w' & es & E & Hr & Hd & H).
  exists r, w', es. split; [done |]. split; [done |]. split; [done |].
  destruct r.
  - destruct H as (parts & content & lines' & Hparts & Hfile & _ & _ & Hfs & _).
    split; [| split].
    + intros p. rewrite Hfs.
      destruct (decide (p = spec_file_path specId parts)) as [-> | Hne].
      * rewrite lookup_insert_eq, Hfile. by split; eexists.
      * by rewrite lookup_insert_ne.
    + intros p Hp. rewrite Hfs. rewrite lookup_insert_ne; [done |].
      intros <-. by eapply Hp.
    + unfold document_of. rewrite Hparts. congruence.
  - destruct H as [-> _]. done.
Qed.

(** X14: the two scripts look for the document of a spec id at the same
    place: for an id of an epic, a feature, a task or a subtask with all
    the levels above it, [findSpecFile] returns the path the sync script
    writes the remote id to, when something is there, and nothing
    otherwise.  For an id with an extension it returns nothing. *)
Theorem findSpecFile_agrees specId parts w :
  parseSpecId specId = Some parts →
  (extension parts = None →
   (is_Some (task parts) → is_Some (feature parts)) →
   (is_Some (subtask parts) → is_Some (task parts)) →
   Migration.findSpecFile specId "specs" (fs w)
   = if existsSync (fs w) (spec_file_path specId parts)
     then Some (spec_file_path specId parts) else None)
  ∧ (is_Some (extension parts) →
     Migration.findSpecFile specId "specs" (fs w) = None).
Proof.
  unfold parseSpecId, Migration.findSpecFile.
  destruct (segment "E" specId) as [[e r1] |] eqn:E; [| done].
  destruct (optional_segment "F" r1) as [f r2] eqn:F.
  destruct (optional_segment "T" r2) as [t r3] eqn:T.
  destruct (optional_segment "S" r3) as [s r4] eqn:S.
  destruct (optional_segment "X" r4) as [x r5] eqn:X.
  destruct (String.eqb_spec r5 "") as [-> |]; [| done].
  intros [= <-]. cbn [extension feature task subtask epic]. split.
  - intros -> Ht Hs.
    rewrite optional_segment_unfold in X.
    assert (r4 = "") as ->.
    { destruct r4 as [| c r4]; [done |]. destruct (bool_decide _); [| done].
      by destruct (segment "X" r4) as [[? ?] |]. }
    cbn [String.eqb]. unfold spec_file_path.
    cbn [epic feature task subtask extension option_list app].
    destruct f as [f |], t as [t |], s as [s |]; try done.
    all: exfalso;
      first [ assert (is_Some (@None string)) as [? ?] by (apply Hs; by eexists)
            | assert (is_Some (@None string)) as [? ?] by (apply Ht; by eexists) ];
      done.
  - intros [xs ->]. apply optional_segment_split in X as [Hx ->].
    cbn [dash]. by rewrite !app_cons_s.
Qed.

Lemma findSpecFile_agrees_witness :
  Migration.findSpecFile "E02-F01-T01" "specs" (fs world_e02)
  = (if existsSync (fs world_e02)
          (spec_file_path "E02-F01-T01"
             {| epic := "E02"; feature := Some "F01"; task := Some "T01";
                subtask := None; extension := None; level := LTask |})
     then Some (spec_file_path "E02-F01-T01"
                  {| epic := "E02"; feature := Some "F01"; task := Some "T01";
                     subtask := None; extension := None; level := LTask |})
     else None)
  ∧ Migration.findSpecFile "E02-F01-T01-S01-X1" "specs" (fs world_e02) = None.
Proof.
  split.
  - apply (proj1 (findSpecFile_agrees "E02-F01-T01" _ world_e02 eq_refl));
      [done | | ]; cbn; intros; by eexists.
  - apply (proj2 (findSpecFile_agrees "E02-F01-T01-S01-X1" _ world_e02 eq_refl)).
    cbn. by eexists.
Defined.

(** ** The write-back of the migration script *)

Section MigrationWriteBack.
Import Migration.

Lemma take_spaces_split s ws rest :
  take_spaces s = (ws, rest) → s = ws +:+ rest.
Proof.
  revert ws rest. induction s as [| c s IH]; intros ws rest E; cbn in E.
  - by injection E as <- <-.
  - destruct (is_space c).
    + destruct (take_spaces s) as [ws' rest'] eqn:E'.
      injection E as <- <-. rewrite app_cons_s. f_equal. by apply IH.
    + by injection E as <- <-.
Qed.

Lemma take_line_split s line rest :
  take_line s = (line, rest) → s = line +:+ rest.
Proof.
  revert line rest. induction s as [| c s IH]; intros line rest E; cbn in E.
  - by injection E as <- <-.
  - destruct (is_line_terminator c).
    + by injection E as <- <-.
    + destruct (take_line s) as [line' rest'] eqn:E'.
      injection E as <- <-. rewrite app_cons_s. f_equal. by apply IH.
Qed.

Lemma last_inline_split s a b : last_inline s = Some (a, b) → s = a +:+ b.
Proof.
  revert a b. induction s as [| c s IH]; intros a b E; cbn in E; [done |].
  destruct (last_inline s) as [[a' b'] |] eqn:E'.
  - injection E as <- <-. rewrite app_cons_s. f_equal. by apply IH.
  - destruct (is_line_terminator c); [done |]. by injection E as <- <-.
Qed.

Lemma match_id_field_split s m rest :
  match_id_field s = Some (m, rest) →
  s = m +:+ rest ∧ String.prefix "id:" m = true.
Proof.
  unfold match_id_field. intros E.
  destruct (strip_prefix "id:" s) as [s1 |] eqn:E1; [| done].
  apply strip_prefix_inv in E1 as ->.
  destruct (take_spaces s1) as [ws s2] eqn:E2.
  apply take_spaces_split in E2 as ->.
  destruct ws as [| c ws]; [done |].
  destruct s2 as [| c2 s2].
  - destruct (last_inline ws) as [[a b] |] eqn:E3; [| done].
    apply last_inline_split in E3 as ->. injection E as <- <-.
    split; [| apply prefix_app].
    by rewrite app_nil_r_s, ?app_assoc_s, ?app_cons_s.
  - destruct (take_line (String c2 s2)) as [line r] eqn:E3.
    apply take_line_split in E3 as ->. injection E as <- <-.
    split; [| apply prefix_app].
    by rewrite !app_assoc_s.
Qed.

Lemma find_id_field_split ls s b m a :
  find_id_field ls s = Some (b, m, a) →
  s = b +:+ m +:+ a ∧ String.prefix "id:" m = true.
Proof.
  revert ls b. induction s as [| c s IH]; intros ls b E; cbn in E.
  - by destruct ls.
  - destruct (if ls then match_id_field (String c s) else None)
      as [[m' r] |] eqn:E'.
    + injection E as <- <- <-. rewrite app_nil_l_s.
      destruct ls; [| done]. by apply match_id_field_split.
    + destruct (find_id_field (is_line_terminator c) s)
        as [[[b' m'] a'] |] eqn:E''; [| done].
      injection E as <- <- <-.
      destruct (IH _ _ E'') as [-> ?]. by rewrite app_cons_s.
Qed.

Lemma cut_at_split needle s a b :
  cut_at needle s = Some (a, b) → s = a +:+ needle +:+ b.
Proof.
  revert a. induction s as [| c s IH]; intros a E; cbn in E.
  - destruct (strip_prefix needle "") as [r |] eqn:E'; [| done].
    injection E as <- <-. rewrite app_nil_l_s. by apply strip_prefix_inv.
  - destruct (strip_prefix needle (String c s)) as [r |] eqn:E'.
    + injection E as <- <-. rewrite app_nil_l_s. by apply strip_prefix_inv.
    + destruct (cut_at needle s) as [[a' b'] |] eqn:E''; [| done].
      injection E as <- <-. rewrite app_cons_s. f_equal. by apply IH.
Qed.

Lemma frontmatter_split content fm rest :
  frontmatter content = Some (fm, rest) →
  content = "---" +:+ String "010" fm +:+ String "010" "---" +:+ rest.
Proof.
  unfold frontmatter. intros E.
  destruct (strip_prefix _ content) as [body |] eqn:E1; [| done].
  apply strip_prefix_inv in E1 as ->.
  apply cut_at_split in E as ->.
  by rewrite !app_assoc_s, !app_cons_s, !app_nil_l_s.
Qed.

Lemma includes_here s needle :
  String.prefix needle s = true → includes s needle = true.
Proof. intros H. destruct s; cbn; cbn in H; by rewrite H. Qed.

Lemma includes_app_r a s needle :
  includes s needle = true → includes (a +:+ s) needle = true.
Proof.
  intros H. induction a as [| c a IH]; [done |].
  rewrite app_cons_s. cbn. rewrite IH. apply orb_true_r.
Qed.

Lemma includes_mid a b needle : includes (a +:+ needle +:+ b) needle = true.
Proof. apply includes_app_r, includes_here, prefix_app. Qed.

Lemma no_dollar_app a b : no_dollar (a +:+ b) = no_dollar a && no_dollar b.
Proof.
  induction a as [| c a IH]; [done |].
  rewrite app_cons_s. cbn. by rewrite IH, andb_assoc.
Qed.

Lemma expand_no_dollar t b m a : no_dollar t = true → expand t b m a = t.
Proof.
  induction t as [| c t IH]; [done |]. cbn. intros H.
  apply andb_true_iff in H as [Hc Ht].
  destruct (bool_decide (c = "$"%char)); [done |]. by rewrite IH.
Qed.

Lemma expand_group t b m a :
  expand (String "$" (String "1" t)) b m a = m +:+ expand t b m a.
Proof. reflexivity. Qed.

Lemma expand_template t b m a :
  no_dollar t = true → expand ("$1" +:+ t) b m a = m +:+ t.
Proof.
  intros H.
  change ("$1" +:+ t) with (String "$" (String "1" t)).
  by rewrite expand_group, expand_no_dollar.
Qed.

Lemma replace_id_field_plain fm taskId before matched after :
  find_id_field true fm = Some (before, matched, after) →
  no_dollar taskId = true →
  replace_id_field fm
    ("$1" +:+ String "010" "clickup_task_id: '" +:+ taskId +:+ "'")
  = before +:+ matched +:+ String "010" "clickup_task_id: '" +:+ taskId
    +:+ "'" +:+ after.
Proof.
  intros E H. unfold replace_id_field. rewrite E.
  rewrite expand_template.
  - by rewrite !app_assoc_s.
  - by rewrite !no_dollar_app, H.
Qed.

(** X15: the write-back of the migration script changes at most the text
    of the one file it is given: no directory changes, no file appears
    or disappears and every other file keeps its text.  It changes
    nothing at all in a dry run, when it answers [false], and it answers
    [false] for a path that is no file and for a text that holds
    [clickup_task_id:] anywhere. *)
Theorem migration_write_back_frame (specFilePath taskId : string)
    (dryRun : bool) (f : FileSystem) :
  let '(r, f', _) := updateSpecFileWithTaskId specFilePath taskId dryRun f in
  fs_dirs f' = fs_dirs f
  ∧ (∀ p, p ≠ specFilePath → fs_files f' !! p = fs_files f !! p)
  ∧ (∀ p, is_Some (fs_files f' !! p) ↔ is_Some (fs_files f !! p))
  ∧ (dryRun = true ∨ r = false → f' = f)
  ∧ (fs_files f !! specFilePath = None → r = false)
  ∧ (∀ content, fs_files f !! specFilePath = Some content →
       includes content "clickup_task_id:" = true → r = false).
Proof.
  unfold updateSpecFileWithTaskId.
  destruct (fs_files f !! specFilePath) as [content |] eqn:E.
  2: { repeat split; auto; done. }
  destruct (includes content "clickup_task_id:") eqn:Ei.
  { repeat split; auto; done. }
  assert (∀ new,
    let f' := if dryRun then f else writeFileSync f specFilePath new in
    fs_dirs f' = fs_dirs f
    ∧ (∀ p, p ≠ specFilePath → fs_files f' !! p = fs_files f !! p)
    ∧ (∀ p, is_Some (fs_files f' !! p) ↔ is_Some (fs_files f !! p))
    ∧ (dryRun = true ∨ true = false → f' = f)) as Hw.
  { intros new. destruct dryRun; cbn.
    - repeat split; auto; done.
    - split; [done |]. split; [| split].
      + intros p Hp. by rewrite lookup_insert_ne.
      + intros p. destruct (decide (p = specFilePath)) as [-> | Hp].
        * rewrite lookup_insert_eq, E. split; by eexists.
        * by rewrite lookup_insert_ne.
      + by intros [? | ?]. }
  destruct (frontmatter content) as [[fm rest] |] eqn:Ef.
  2: { repeat split; auto; done. }
  destruct fm as [| c fm].
  { repeat split; auto; done. }
  destruct (Hw ("---" +:+ String "010"
                  (replace_id_field (String c fm)
                     ("$1" +:+ String "010" "clickup_task_id: '" +:+ taskId +:+ "'"))
                +:+ String "010" "---" +:+ rest)) as (H1 & H2 & H3 & H4).
  split; [exact H1 |]. split; [exact H2 |]. split; [exact H3 |].
  split; [exact H4 |]. split; [done |].
  intros ? [= <-]. congruence.
Qed.

Local Ltac norm_app :=
  repeat first [rewrite app_assoc_s | rewrite app_cons_s | rewrite app_nil_l_s].

(** X16: for a file without [clickup_task_id:] whose front matter has a
    line that starts with [id:], white space and some text, a live call
    with a task id free of [$] writes the file back with one line
    [clickup_task_id: '<task id>'] put right after that match and
    everything else as it stood, and answers [true]; any later call on
    the result answers [false] and leaves the files alone. *)
Theorem migration_write_back_inserts (specFilePath taskId : string)
    (f : FileSystem) (content fm rest before matched after : string) :
  fs_files f !! specFilePath = Some content →
  includes content "clickup_task_id:" = false →
  frontmatter content = Some (fm, rest) →
  find_id_field true fm = Some (before, matched, after) →
  no_dollar taskId = true →
  let written :=
    "---" +:+ String "010" before +:+ matched
    +:+ String "010" "clickup_task_id: '" +:+ taskId +:+ "'"
    +:+ after +:+ String "010" "---" +:+ rest in
  content = "---" +:+ String "010" before +:+ matched +:+ after
            +:+ String "010" "---" +:+ rest
  ∧ String.prefix "id:" matched = true
  ∧ updateSpecFileWithTaskId specFilePath taskId false f
    = (true, writeFileSync f specFilePath written, [])
  ∧ ∀ taskId' dryRun,
      updateSpecFileWithTaskId specFilePath taskId' dryRun
        (writeFileSync f specFilePath written)
      = (false, writeFileSync f specFilePath written, [LogAlreadyHasTaskId]).
Proof.
  intros E Ei Ef Em Hd written.
  destruct (find_id_field_split _ _ _ _ _ Em) as [Hfm Hid].
  split; [| split; [exact Hid |]; split].
  - rewrite (frontmatter_split _ _ _ Ef), Hfm.
    by norm_app.
  - unfold updateSpecFileWithTaskId. rewrite E, Ei, Ef.
    assert (fm ≠ "") as Hne.
    { intros ->. cbn in Em. done. }
    destruct fm as [| c fm]; [done |].
    rewrite (replace_id_field_plain _ _ _ _ _ Em Hd).
    do 2 f_equal. f_equal. unfold written.
    by norm_app.
  - intros taskId' dryRun. unfold updateSpecFileWithTaskId.
    cbn [writeFileSync fs_files]. rewrite lookup_insert_eq.
    assert (includes written "clickup_task_id:" = true) as ->; [| done].
    unfold written.
    replace ("---" +:+ String "010" before +:+ matched
             +:+ String "010" "clickup_task_id: '" +:+ taskId +:+ "'"
             +:+ after +:+ String "010" "---" +:+ rest)
      with (("---" +:+ String "010" before +:+ matched +:+ String "010" "")
            +:+ "clickup_task_id:"
            +:+ (" '" +:+ taskId +:+ "'" +:+ after +:+ String "010" "---" +:+ rest)).
    + apply includes_mid.
    + by norm_app.
Qed.

Lemma migration_write_back_inserts_witness :
  let f := {| fs_dirs := ∅;
              fs_files := {[ "specs/E01/E01.spec.md" :=
                "---" +:+ String "010" "id: E01" +:+ String "010" "title: Core"
                +:+ String "010" "---" +:+ String "010" "Text" ]} |} in
  updateSpecFileWithTaskId "specs/E01/E01.spec.md" "86abc" false f
  = (true,
     writeFileSync f "specs/E01/E01.spec.md"
       ("---" +:+ String "010" "id: E01"
        +:+ String "010" "clickup_task_id: '86abc'"
        +:+ String "010" "title: Core"
        +:+ String "010" "---" +:+ String "010" "Text"), []).
Proof.
  intros f.
  pose proof (migration_write_back_inserts "specs/E01/E01.spec.md" "86abc" f
    ("---" +:+ String "010" "id: E01" +:+ String "010" "title: Core"
     +:+ String "010" "---" +:+ String "010" "Text")
    ("id: E01" +:+ String "010" "title: Core") (String "010" "Text")
    "" "id: E01" (String "010" "title: Core")
    eq_refl eq_refl eq_refl eq_refl eq_refl) as (_ & _ & H & _).
  exact H.
Defined.

(** X17: when the front matter has no line that starts with [id:], white
    space and some text, a call on a file without [clickup_task_id:]
    still answers [true], although the text it writes back is the text
    it read: the files are as before and no field has been added. *)
Theorem migration_write_back_without_id_line (specFilePath taskId : string)
    (dryRun : bool) (f : FileSystem) (content fm rest : string) :
  fs_files f !! specFilePath = Some content →
  includes content "clickup_task_id:" = false →
  frontmatter content = Some (fm, rest) →
  fm ≠ "" →
  find_id_field true fm = None →
  updateSpecFileWithTaskId specFilePath taskId dryRun f = (true, f, [])
  ∧ (dryRun = false →
     updateSpecFileWithTaskId specFilePath taskId dryRun f
     = (true, writeFileSync f specFilePath content, [])).
Proof.
  intros E Ei Ef Hne Em.
  assert (writeFileSync f specFilePath content = f) as Hsame.
  { destruct f as [d fl]. unfold writeFileSync. cbn in *. f_equal.
    by apply insert_id. }
  unfold updateSpecFileWithTaskId. rewrite E, Ei, Ef.
  destruct fm as [| c fm]; [done |].
  unfold replace_id_field. rewrite Em.
  rewrite <- (frontmatter_split _ _ _ Ef).
  rewrite Hsame. by destruct dryRun.
Qed.

Lemma migration_write_back_without_id_line_witness :
  let f := {| fs_dirs := ∅;
              fs_files := {[ "specs/E01/E01.spec.md" :=
                "---" +:+ String "010" "  id: E01" +:+ String "010" "---" ]} |} in
  updateSpecFileWithTaskId "specs/E01/E01.spec.md" "86abc" false f
  = (true, f, []).
Proof.
  intros f.
  refine (proj1 (migration_write_back_without_id_line
    "specs/E01/E01.spec.md" "86abc" false f
    ("---" +:+ String "010" "  id: E01" +:+ String "010" "---")
    "  id: E01" "" eq_refl eq_refl eq_refl _ eq_refl)).
  done.
Defined.

End MigrationWriteBack.
